(** * A drive backend with a RAG proxy: shallow embedding and properties

    The definitions come first, in the layout of the repository:

    - [JS]: the JavaScript values that travel through the controllers
      (parsed JSON bodies, thrown errors, HTTP responses);
    - [AiController]: [controllers/aiController.js], the proxy in front of
      the Python RAG service, written in a small monad that threads the
      log of the calls made to the service and the exception thrown, if
      any; [AiControllerMore] holds its handlers for health, statistics,
      tags and questions over several files;
    - [Drive]: the File collection of [models/File.js] and the handlers
      that read or write it ([fileController.js],
      [featuresController.js], [shareController.js],
      [versionController.js], [folderController.js]), as functions on the
      state of the database; [DriveViews] holds the handlers that only
      read it (sharing, tags, analytics, previews, downloads) and
      [FolderController] the creation and renaming of folders;
    - [Rag]: the chunker and the vector index of the retrieval service,
      whose Python sources are not part of the tree and which are
      modelled from the specification;
    - [Samples]: small concrete requests, collections and indexes.

    The properties follow: [JSFacts], [AiControllerProps],
    [AiControllerMoreProps], [DriveProps], [DriveLifecycle], [DriveFrame],
    [DriveJourneys], [DriveListings], [PreviewProps], [FolderProps] and
    [RagProps]. *)

From Stdlib Require Import Ascii String QArith Lqa.
From stdpp Require Import gmap strings list sorting pretty.

Local Open Scope string_scope.
Local Open Scope list_scope.
Local Set Warnings "-register-all".

(* ===================================================================== *)
(** * JavaScript values *)
(* ===================================================================== *)

Module JS.

(** A value as [JSON.parse] builds it, plus [undefined] for an absent
    property.  Numbers are the finite doubles (rationals); [NaN] cannot come
    out of a JSON body.  An object keeps its properties in insertion
    order. *)
Inductive JSValue : Type :=
  | JUndefined
  | JNull
  | JBool (b : bool)
  | JNum (q : Q)
  | JStr (s : string)
  | JArr (items : list JSValue)
  | JObj (props : list (string * JSValue)).

(** ToBoolean: [undefined], [null], [false], [0] and [""] are falsy. *)
Definition truthy (v : JSValue) : bool :=
  match v with
  | JUndefined | JNull => false
  | JBool b => b
  | JNum q => negb (Qeq_bool q 0)
  | JStr s => negb (String.eqb s "")
  | JArr _ | JObj _ => true
  end.

(** [kvs[k]] on the own properties of an object. *)
Fixpoint own_prop (kvs : list (string * JSValue)) (k : string) : JSValue :=
  match kvs with
  | [] => JUndefined
  | (k', v) :: rest => if String.eqb k k' then v else own_prop rest k
  end.

(** [v?.k]: the optional chain yields [undefined] on [null] and
    [undefined]; a primitive or an array has none of the property names
    the controllers ask for. *)
Definition get_prop (v : JSValue) (k : string) : JSValue :=
  match v with
  | JObj kvs => own_prop kvs k
  | _ => JUndefined
  end.

(** [a || b]. *)
Definition js_or (a b : JSValue) : JSValue := if truthy a then a else b.

(** [const { k = d } = obj]: the default applies to [undefined] only. *)
Definition with_default (v d : JSValue) : JSValue :=
  match v with
  | JUndefined => d
  | _ => v
  end.

Definition has_own (kvs : list (string * JSValue)) (k : string) : bool :=
  existsb (λ kv, String.eqb k kv.1) kvs.

(** ToString, as a template literal applies it, throws a TypeError on a
    parsed object exactly when the object has an own [toString] property:
    the property shadows [Object.prototype.toString], is not callable, and
    [valueOf] does not yield a primitive.  An array joins the ToString of
    its elements, [null] and [undefined] counting as empty. *)
Fixpoint to_string_throws (v : JSValue) : bool :=
  match v with
  | JObj kvs => has_own kvs "toString"
  | JArr items => existsb to_string_throws items
  | _ => false
  end.

(** A string is its sequence of code units, for code units below 256.  Of
    the white space and line terminators that [String.prototype.trim]
    strips, those in this range are TAB, LF, VT, FF, CR, SPACE and the
    no-break space. *)
Definition is_white_space (c : ascii) : bool :=
  let n := nat_of_ascii c in
  (Nat.eqb n 9 || Nat.eqb n 10 || Nat.eqb n 11 || Nat.eqb n 12
   || Nat.eqb n 13 || Nat.eqb n 32 || Nat.eqb n 160)%bool.

Fixpoint trim_start (s : string) : string :=
  match s with
  | String c rest => if is_white_space c then trim_start rest else s
  | EmptyString => EmptyString
  end.

(** Drops the white space at the end: a white-space character is kept only
    when something is left after it. *)
Fixpoint trim_end (s : string) : string :=
  match s with
  | EmptyString => EmptyString
  | String c rest =>
      match trim_end rest with
      | EmptyString => if is_white_space c then EmptyString else String c EmptyString
      | kept => String c kept
      end
  end.

Definition trim (s : string) : string := trim_end (trim_start s).

(** A blank string: nothing but white space. *)
Fixpoint all_white_space (s : string) : bool :=
  match s with
  | EmptyString => true
  | String c rest => is_white_space c && all_white_space rest
  end.

(** A thrown error, as the [catch] blocks read it: [error.code],
    [error.response?.data] ([None] when there is no [response]) and
    [error.message]. *)
Record JSError : Type := mkError {
  err_code : JSValue;
  err_response_data : option JSValue;
  err_message : string;
}.

Definition TypeError (msg : string) : JSError :=
  {| err_code := JUndefined; err_response_data := None; err_message := msg |}.

(** [error.response?.data?.error]. *)
Definition response_data_error (e : JSError) : JSValue :=
  match err_response_data e with
  | Some data => get_prop data "error"
  | None => JUndefined
  end.

(** What the handler sends: [res.status(code).json(body)]; a bare
    [res.json(body)] keeps the default status 200. *)
Record Response : Type := mkResponse {
  status : nat;
  json : JSValue;
}.

Definition success_of (r : Response) : JSValue := get_prop (json r) "success".

End JS.

Export JS.

(* ===================================================================== *)
(** * controllers/aiController.js *)
(* ===================================================================== *)

Module AiController.

(** One request sent through [ragClient]: [ragClient.post(url, payload)]. *)
Record Call : Type := mkCall {
  url : string;
  payload : JSValue;
}.

(** The promise that [ragClient.post] returns either resolves with a
    response, of which the handlers read [response.data] only, or rejects
    with an error: connection refused, timeout, or a status outside 2xx. *)
Inductive Outcome : Type :=
  | Resolved (data : JSValue)
  | Rejected (error : JSError).

(** The RAG service seen from the controller: it answers a call knowing the
    calls made before it. *)
Definition RagClient : Type := list Call → Call → Outcome.

(** An [async] body: it runs against the service, appends the calls it
    makes to the log, and either throws or returns. *)
Definition Async (A : Type) : Type :=
  RagClient → list Call → (JSError + A) * list Call.

#[global] Instance Async_ret : MRet Async :=
  λ A (a : A) _ log, (inr a, log).

#[global] Instance Async_bind : MBind Async :=
  λ A B (k : A → Async B) (m : Async A) rag log,
    match m rag log with
    | (inr a, log') => k a rag log'
    | (inl e, log') => (inl e, log')
    end.

Definition throw {A : Type} (e : JSError) : Async A :=
  λ _ log, (inl e, log).

(** [try { body } catch (error) { handler }]. *)
Definition try_catch {A : Type} (body : Async A) (handler : JSError → Async A)
  : Async A :=
  λ rag log,
    match body rag log with
    | (inl e, log') => handler e rag log'
    | returned => returned
    end.

(** [await ragClient.post(url, payload)], yielding [response.data]. *)
Definition post (u : string) (p : JSValue) : Async JSValue :=
  λ rag log,
    let c := mkCall u p in
    match rag log c with
    | Resolved data => (inr data, log ++ [c])
    | Rejected e => (inl e, log ++ [c])
    end.

(** [console.log] of a template literal: the output is not modelled, the
    TypeError of an interpolated value that cannot be converted is. *)
Definition console_log (interpolated : list JSValue) : Async unit :=
  if existsb to_string_throws interpolated
  then throw (TypeError "Cannot convert object to primitive value")
  else mret tt.

(** [s.trim()] on a value: only a string has the method; on anything else
    the call throws. *)
Definition call_trim (v : JSValue) : Async string :=
  match v with
  | JStr s => mret (trim s)
  | _ => throw (TypeError "question.trim is not a function")
  end.

(** [req.body], an object: [express.json()] is installed for every route. *)
Record Request : Type := mkRequest {
  body : list (string * JSValue);
}.

Definition failure (msg : JSValue) : JSValue :=
  JObj [("success", JBool false); ("error", msg)].

Definition send (code : nat) (b : JSValue) : Async Response :=
  mret (mkResponse code b).

(** [error.code === "ECONNREFUSED"]. *)
Definition is_econnrefused (e : JSError) : bool :=
  match err_code e with
  | JStr s => String.eqb s "ECONNREFUSED"
  | _ => false
  end.

Definition service_unavailable_long : string :=
  "AI service is not available. Please ensure the RAG service is running.".

(** The [catch] block shared by the handlers, up to the two messages. *)
Definition on_error (unavailable fallback : string) (error : JSError)
  : Async Response :=
  if is_econnrefused error then
    send 503 (failure (JStr unavailable))
  else
    send 500 (failure (js_or (response_data_error error)
                         (js_or (JStr (err_message error)) (JStr fallback)))).

Definition index_payload (filePath fileId : JSValue) : JSValue :=
  JObj [("file_path", filePath); ("file_id", fileId)].

Definition indexFile (req : Request) : Async Response :=
  try_catch
    (let filePath := own_prop (body req) "filePath" in
     let fileId := own_prop (body req) "fileId" in
     if negb (truthy filePath) then
       send 400 (failure (JStr "File path is required"))
     else
       console_log [filePath] ;;
       data ← post "/index-file" (index_payload filePath fileId) ;
       send 200 data)
    (on_error service_unavailable_long "Failed to index file").

Definition ask_payload (filePath fileId : JSValue) (question : string) : JSValue :=
  JObj [("file_path", filePath); ("file_id", fileId); ("question", JStr question)].

Definition askQuestion (req : Request) : Async Response :=
  try_catch
    (let filePath := own_prop (body req) "filePath" in
     let fileId := own_prop (body req) "fileId" in
     let question := own_prop (body req) "question" in
     if negb (truthy filePath) then
       send 400 (failure (JStr "File path is required"))
     else if negb (truthy question) then
       send 400 (failure (JStr "Question is required"))
     else
       trimmed ← call_trim question ;
       if String.eqb trimmed "" then
         send 400 (failure (JStr "Question is required"))
       else
         console_log [filePath; question] ;;
         trimmed' ← call_trim question ;
         data ← post "/ask" (ask_payload filePath fileId trimmed') ;
         send 200 data)
    (on_error service_unavailable_long "Failed to get answer").

Definition summarizeFile (req : Request) : Async Response :=
  try_catch
    (let filePath := own_prop (body req) "filePath" in
     let fileId := own_prop (body req) "fileId" in
     if negb (truthy filePath) then
       send 400 (failure (JStr "File path is required"))
     else
       console_log [filePath] ;;
       data ← post "/summarize" (index_payload filePath fileId) ;
       send 200 data)
    (on_error service_unavailable_long "Failed to summarize file").

Definition validTypes : list string :=
  ["summary"; "report"; "outline"; "key_points"].

(** [validTypes.includes(docType)]: only a string can be equal to a member
    of the list. *)
Definition includes (types : list string) (v : JSValue) : bool :=
  match v with
  | JStr s => bool_decide (s ∈ types)
  | _ => false
  end.

Definition generate_payload (filePath fileId docType : JSValue) : JSValue :=
  JObj [("file_path", filePath); ("file_id", fileId); ("doc_type", docType)].

Definition invalid_type_message : string :=
  "Invalid document type. Must be one of: summary, report, outline, key_points".

Definition generateDocument (req : Request) : Async Response :=
  try_catch
    (let filePath := own_prop (body req) "filePath" in
     let fileId := own_prop (body req) "fileId" in
     let docType := with_default (own_prop (body req) "docType") (JStr "summary") in
     if negb (truthy filePath) then
       send 400 (failure (JStr "File path is required"))
     else if negb (includes validTypes docType) then
       send 400 (failure (JStr invalid_type_message))
     else
       console_log [docType; filePath] ;;
       data ← post "/generate-doc" (generate_payload filePath fileId docType) ;
       send 200 data)
    (on_error "AI service is not available" "Failed to generate document").

(** The helper the upload flow may call: no response object, the result is
    returned. *)
Definition indexFileAsync (filePath fileId : JSValue) : Async JSValue :=
  try_catch
    (post "/index-file" (index_payload filePath fileId))
    (λ error, mret (failure (JStr (err_message error)))).

(** The parts of a request that the handlers destructure, and the calls
    they build from them. *)
Definition filePath_of (req : Request) : JSValue := own_prop (body req) "filePath".
Definition fileId_of (req : Request) : JSValue := own_prop (body req) "fileId".
Definition question_of (req : Request) : JSValue := own_prop (body req) "question".

Definition summarize_call (req : Request) : Call :=
  mkCall "/summarize" (index_payload (filePath_of req) (fileId_of req)).
Definition ask_call (req : Request) (q : string) : Call :=
  mkCall "/ask" (ask_payload (filePath_of req) (fileId_of req) (trim q)).

(** A question that the ask handler refuses: a falsy value (absent, [null],
    empty) or a string of white space only. *)
Definition blank_question (v : JSValue) : Prop :=
  truthy v = false ∨ ∃ q, v = JStr q ∧ all_white_space q = true.

End AiController.

(* ===================================================================== *)
(** * controllers/aiController.js: health, statistics, tags, many files *)
(* ===================================================================== *)

Module AiControllerMore.
Import AiController.

(** [await ragClient.get(url)], yielding [response.data]: a call without a
    payload. *)
Definition get (u : string) : Async JSValue :=
  λ rag log,
    let c := mkCall u JUndefined in
    match rag log c with
    | Resolved data => (inr data, log ++ [c])
    | Rejected e => (inl e, log ++ [c])
    end.

Definition checkHealth (req : Request) : Async Response :=
  try_catch
    (data ← get "/health" ;
     send 200 (JObj [("success", JBool true); ("ragService", data)]))
    (λ error,
       send 503 (JObj [("success", JBool false);
                       ("error", JStr "RAG service is not available");
                       ("details", JStr (err_message error))])).

Definition getStats (req : Request) : Async Response :=
  try_catch
    (data ← get "/stats" ;
     send 200 (JObj [("success", JBool true); ("stats", data)]))
    (λ error, send 500 (failure (JStr "Failed to get stats"))).

(** [v.k] without [?.]: reading a property of [null] or [undefined]
    throws. *)
Definition read_member (v : JSValue) (k : string) : Async JSValue :=
  match v with
  | JUndefined | JNull =>
      throw (TypeError "Cannot read properties of undefined")
  | _ => mret (get_prop v k)
  end.

Definition auto_tag_payload (filePath fileId maxTags : JSValue) : JSValue :=
  JObj [("file_path", filePath); ("file_id", fileId); ("max_tags", maxTags)].

Definition autoTagFile (req : Request) : Async Response :=
  try_catch
    (let filePath := own_prop (body req) "filePath" in
     let fileId := own_prop (body req) "fileId" in
     let maxTags := with_default (own_prop (body req) "maxTags") (JNum 5) in
     if negb (truthy filePath) then
       send 400 (failure (JStr "File path is required"))
     else
       console_log [filePath] ;;
       data ← post "/auto-tag" (auto_tag_payload filePath fileId maxTags) ;
       read_member data "tags" ;;
       send 200 data)
    (on_error "AI service is not available" "Failed to auto-tag file").

(** [!filePaths || !Array.isArray(filePaths) || filePaths.length === 0]. *)
Definition no_file_paths (filePaths : JSValue) : bool :=
  match filePaths with
  | JArr (_ :: _) => false
  | _ => true
  end.

Definition array_length (v : JSValue) : JSValue :=
  match v with
  | JArr items => JNum (inject_Z (Z.of_nat (length items)))
  | _ => JUndefined
  end.

Definition ask_multi_payload (filePaths : JSValue) (question : string) : JSValue :=
  JObj [("file_paths", filePaths); ("question", JStr question)].

Definition askMultipleFiles (req : Request) : Async Response :=
  try_catch
    (let filePaths := own_prop (body req) "filePaths" in
     let question := own_prop (body req) "question" in
     if no_file_paths filePaths then
       send 400 (failure (JStr "At least one file path is required"))
     else if negb (truthy question) then
       send 400 (failure (JStr "Question is required"))
     else
       trimmed ← call_trim question ;
       if String.eqb trimmed "" then
         send 400 (failure (JStr "Question is required"))
       else
         console_log [array_length filePaths; question] ;;
         trimmed' ← call_trim question ;
         data ← post "/ask-multi" (ask_multi_payload filePaths trimmed') ;
         send 200 data)
    (on_error "AI service is not available" "Failed to get answer").

(** The handlers of the controller, as [routes/aiRoutes.js] mounts
    them. *)
Inductive Endpoint : Type :=
  | PostIndex | PostAsk | PostSummarize | GetHealth | GetStats
  | PostAutoTag | PostAskMulti | PostGenerateDoc.

Definition route (e : Endpoint) : Request → Async Response :=
  match e with
  | PostIndex => indexFile
  | PostAsk => askQuestion
  | PostSummarize => summarizeFile
  | GetHealth => checkHealth
  | GetStats => getStats
  | PostAutoTag => autoTagFile
  | PostAskMulti => askMultipleFiles
  | PostGenerateDoc => generateDocument
  end.

(** The parts of a request that these handlers destructure, and the calls
    they build from them. *)
Definition filePaths_of (req : Request) : JSValue :=
  own_prop (body req) "filePaths".

Definition ask_multi_call (req : Request) (q : string) : Call :=
  mkCall "/ask-multi" (ask_multi_payload (filePaths_of req) (trim q)).

Definition auto_tag_call (req : Request) : Call :=
  mkCall "/auto-tag"
    (auto_tag_payload (filePath_of req) (fileId_of req)
       (with_default (own_prop (body req) "maxTags") (JNum 5))).

End AiControllerMore.
(* ===================================================================== *)
(** * models/File.js and the controllers of the File collection *)
(* ===================================================================== *)

(** The handlers are modelled on a database that answers: an awaited call
    resolves unless the model says otherwise (a save that validation
    rejects, a [$regex] that the database does not take), and an [_id] in
    a request is a well-formed ObjectId.  A rejected call leads a handler
    to its [catch] block, which answers 500 and writes nothing more.  What
    a handler sends back is reduced to its status, and to the documents
    for a listing. *)

Module Drive.

Local Open Scope Z_scope.

(** A [Date], in milliseconds since the epoch. *)
Definition Date : Type := Z.

Record Sharing : Type := mkSharing {
  isShared : bool;
  shareLink : option string;
  sharedAt : option Date;
}.

(** A document of the File collection, after [fileSchema]; the key [_id] is
    the key of the collection.  A Boolean flag that a stored document does
    not carry (one written before the schema had the path) is [None]: the
    listings test such flags with [$ne: true], and mongoose gives the
    document the default of the schema when it loads it.  [aiMetadata],
    which no controller of the tree writes, is left out. *)
Record File : Type := mkFile {
  originalName : string;
  currentFileName : string;
  mimeType : string;
  size : Z;
  extension : string;
  folder : option string;
  currentVersion : Z;
  sharing : Sharing;
  isStarred : option bool;
  starredAt : option Date;
  isDeleted : option bool;
  deletedAt : option Date;
  tags : list string;
  createdAt : Date;
  updatedAt : Date;
}.

Record Folder : Type := mkFolder {
  name : string;
  parentFolder : option string;
  path : string;
}.

(** A document of the FileVersion collection; [file] is the [_id] of the
    file it belongs to. *)
Record FileVersion : Type := mkFileVersion {
  file : string;
  versionNumber : Z;
  fileName : string;
  versionOriginalName : string;
  versionSize : Z;
  versionMimeType : string;
}.

#[global] Instance Sharing_eq_dec : EqDecision Sharing.
Proof. solve_decision. Defined.

#[global] Instance File_eq_dec : EqDecision File.
Proof. solve_decision. Defined.

(** The collections and the names present in the uploads directory. *)
Record Db : Type := mkDb {
  files : gmap string File;
  folders : gmap string Folder;
  versions : list FileVersion;
  disk : gset string;
}.

(** What multer leaves in [req.file]; the stored file sits in the uploads
    directory under [filename]. *)
Record Upload : Type := mkUpload {
  originalname : string;
  filename : string;
  mimetype : string;
  uploadSize : Z;
}.

(** ** Assignments to the paths of a document *)

Definition set_folder (f : File) (v : option string) : File :=
  mkFile (originalName f) (currentFileName f) (mimeType f) (size f) (extension f)
    v (currentVersion f) (sharing f) (isStarred f) (starredAt f)
    (isDeleted f) (deletedAt f) (tags f) (createdAt f) (updatedAt f).

Definition set_originalName (f : File) (v : string) : File :=
  mkFile v (currentFileName f) (mimeType f) (size f) (extension f)
    (folder f) (currentVersion f) (sharing f) (isStarred f) (starredAt f)
    (isDeleted f) (deletedAt f) (tags f) (createdAt f) (updatedAt f).

Definition set_sharing (f : File) (v : Sharing) : File :=
  mkFile (originalName f) (currentFileName f) (mimeType f) (size f) (extension f)
    (folder f) (currentVersion f) v (isStarred f) (starredAt f)
    (isDeleted f) (deletedAt f) (tags f) (createdAt f) (updatedAt f).

Definition set_star (f : File) (starred : option bool) (at_ : option Date) : File :=
  mkFile (originalName f) (currentFileName f) (mimeType f) (size f) (extension f)
    (folder f) (currentVersion f) (sharing f) starred at_
    (isDeleted f) (deletedAt f) (tags f) (createdAt f) (updatedAt f).

Definition set_trash (f : File) (deleted : option bool) (at_ : option Date) : File :=
  mkFile (originalName f) (currentFileName f) (mimeType f) (size f) (extension f)
    (folder f) (currentVersion f) (sharing f) (isStarred f) (starredAt f)
    deleted at_ (tags f) (createdAt f) (updatedAt f).

Definition set_tags (f : File) (v : list string) : File :=
  mkFile (originalName f) (currentFileName f) (mimeType f) (size f) (extension f)
    (folder f) (currentVersion f) (sharing f) (isStarred f) (starredAt f)
    (isDeleted f) (deletedAt f) v (createdAt f) (updatedAt f).

Definition set_content (f : File) (stored original mime : string) (sz : Z)
    (ext : string) (version : Z) : File :=
  mkFile original stored mime sz ext
    (folder f) version (sharing f) (isStarred f) (starredAt f)
    (isDeleted f) (deletedAt f) (tags f) (createdAt f) (updatedAt f).

Definition set_updatedAt (f : File) (v : Date) : File :=
  mkFile (originalName f) (currentFileName f) (mimeType f) (size f) (extension f)
    (folder f) (currentVersion f) (sharing f) (isStarred f) (starredAt f)
    (isDeleted f) (deletedAt f) (tags f) (createdAt f) v.

(** ** Queries *)

(** A flag is [true]; [false], [null] and an absent flag are not. *)
Definition is_true (flag : option bool) : bool :=
  match flag with
  | Some true => true
  | _ => false
  end.

(** [File.find(query)]: the documents that satisfy the query, with their
    [_id]. *)
Definition find (query : File → bool) (coll : gmap string File)
  : list (string * File) :=
  filter (λ doc, query doc.2 = true) (map_to_list coll).

(** The order of two dates in a sort; [null] comes before every date. *)
Definition date_leb (a b : option Date) : bool :=
  match a, b with
  | None, _ => true
  | Some _, None => false
  | Some x, Some y => x <=? y
  end.

(** [.sort({ key: -1 })] on a date. *)
Definition desc_by (key : File → option Date) : relation (string * File) :=
  λ a b, date_leb (key b.2) (key a.2) = true.

#[global] Instance desc_by_dec (key : File → option Date) : RelDecision (desc_by key) :=
  λ a b, decide (date_leb (key b.2) (key a.2) = true).

(** [.sort({ originalName: 1 })]. *)
Definition by_name : relation (string * File) :=
  λ a b, String.leb (originalName a.2) (originalName b.2) = true.

#[global] Instance by_name_dec : RelDecision by_name :=
  λ a b, decide (String.leb (originalName a.2) (originalName b.2) = true).

(** [.limit(n)]: a positive [n] keeps the first [n] documents, a negative
    one the first [|n|], and 0 means no limit. *)
Definition limit {A : Type} (n : Z) (docs : list A) : list A :=
  if n =? 0 then docs else take (Z.to_nat (Z.abs n)) docs.

(** [query || null] on a query-string parameter. *)
Definition or_null (p : option string) : option string :=
  match p with
  | Some "" | None => None
  | Some s => Some s
  end.

Definition same_folder (a b : option string) : bool :=
  bool_decide (a = b).

(** ** fileController.js: getFiles *)

Definition getFiles (folderParam : option string) (db : Db)
  : list (string * File) :=
  merge_sort by_name
    (find (λ f, same_folder (folder f) (or_null folderParam)
                && negb (is_true (isDeleted f)))
       (files db)).

(** ** featuresController.js: the listings *)

Definition getStarredFiles (db : Db) : list (string * File) :=
  merge_sort (desc_by starredAt)
    (find (λ f, is_true (isStarred f) && negb (is_true (isDeleted f)))
       (files db)).

(** An entry of the trash listing: the document, plus [daysRemaining] and
    [expiryDate]. *)
Record TrashEntry : Type := mkTrashEntry {
  trashedId : string;
  trashed : File;
  daysRemaining : Z;
  expiryDate : Date;
}.

Definition day_ms : Z := 24 * 60 * 60 * 1000.

(** [Math.ceil(a / b)] for a positive [b]. *)
Definition ceil_div (a b : Z) : Z := - ((- a) / b).

Definition with_expiry (now : Date) (doc : string * File) : TrashEntry :=
  let deleted := default 0 (deletedAt doc.2) in
  let expiry := deleted + 30 * day_ms in
  mkTrashEntry doc.1 doc.2 (Z.max 0 (ceil_div (expiry - now) day_ms)) expiry.

Definition getTrash (now : Date) (db : Db) : list TrashEntry :=
  with_expiry now <$>
    merge_sort (desc_by deletedAt)
      (find (λ f, is_true (isDeleted f)) (files db)).

(** [parsedLimit] is the value of [parseInt(limit)], [None] for [NaN], on
    which the query is rejected and the handler answers 500. *)
Definition getRecentFiles (parsedLimit : option Z) (db : Db)
  : nat + list (string * File) :=
  match parsedLimit with
  | None => inl 500%nat
  | Some n =>
      inr (limit n
             (merge_sort (desc_by (λ f, Some (createdAt f)))
                (find (λ f, negb (is_true (isDeleted f))) (files db))))
  end.

(** ** folderController.js: the files of getFolderById *)

(** The [files] of the answer of [getFolderById], 404 when the folder is
    not found: the query is [{ folder: id }] alone. *)
Definition getFolderById (id : string) (db : Db) : nat + list (string * File) :=
  match folders db !! id with
  | None => inl 404%nat
  | Some _ =>
      inr (merge_sort by_name
             (find (λ f, same_folder (folder f) (Some id)) (files db)))
  end.

(** ** Writing the collections *)

Definition with_files (db : Db) (v : gmap string File) : Db :=
  mkDb v (folders db) (versions db) (disk db).

Definition with_folders (db : Db) (v : gmap string Folder) : Db :=
  mkDb (files db) v (versions db) (disk db).

Definition with_versions (db : Db) (v : list FileVersion) : Db :=
  mkDb (files db) (folders db) v (disk db).

Definition with_disk (db : Db) (v : gset string) : Db :=
  mkDb (files db) (folders db) (versions db) v.

Definition nonempty (s : string) : bool := negb (String.eqb s "").

(** The [required] paths of [fileSchema] that are strings. *)
Definition validate (doc : File) : bool :=
  nonempty (originalName doc) && nonempty (currentFileName doc)
  && nonempty (mimeType doc).

Definition validate_version (v : FileVersion) : bool :=
  nonempty (fileName v) && nonempty (versionOriginalName v)
  && nonempty (versionMimeType v).

(** The flags of a document that mongoose has loaded: a flag that the
    stored document lacks has the default of the schema, [false]. *)
Definition with_defaults (doc : File) : File :=
  set_trash
    (set_star doc (Some (default false (isStarred doc))) (starredAt doc))
    (Some (default false (isDeleted doc))) (deletedAt doc).

(** What [save] writes for a document that a handler loaded as [stored]
    ([None] for a new document) and left as [doc]: the paths that the
    handler changed and the defaults that the stored document lacked;
    [updatedAt] is stamped only when the handler changed a path, or the
    document is new. *)
Definition written (stored : option File) (doc : File) (now : Date) : File :=
  if bool_decide (stored = Some doc) then with_defaults doc
  else set_updatedAt (with_defaults doc) now.

(** [await file.save()]: validation, then the write; [None] when
    validation rejects the document. *)
Definition save (id : string) (doc : File) (now : Date) (db : Db) : option Db :=
  if validate doc
  then Some (with_files db (<[id := written (files db !! id) doc now]> (files db)))
  else None.

(** The end of a handler that saves: 200 (or [ok]) with the document
    written, or the [catch] block's 500 with nothing written. *)
Definition save_and_reply (ok : nat) (id : string) (doc : File) (now : Date)
    (db : Db) : nat * Db :=
  match save id doc now db with
  | Some db' => (ok, db')
  | None => (500%nat, db)
  end.

(** [fs.existsSync(p)] then [fs.unlinkSync(p)]. *)
Definition unlink (stored : string) (db : Db) : Db :=
  with_disk db (disk db ∖ {[stored]}).

Definition unlink_all (stored : list string) (db : Db) : Db :=
  with_disk db (disk db ∖ list_to_set stored).

(** [File.deleteMany(query)]. *)
Definition deleteMany (query : File → bool) (db : Db) : Db :=
  with_files db (filter (λ doc : string * File, query doc.2 = false) (files db)).

(** [File.findOne({ originalName, folder, _id: { $ne: id } })] finds a
    document; mongoose casts the name of the filter with the schema, which
    trims it. *)
Definition name_taken (id original : string) (target : option string) (db : Db)
  : bool :=
  existsb (λ doc : string * File,
             negb (String.eqb doc.1 id)
             && String.eqb (originalName doc.2) (trim original)
             && same_folder (folder doc.2) target)
    (map_to_list (files db)).

Definition contains_dot (s : string) : bool :=
  existsb (λ c, Ascii.eqb c "."%char) (list_ascii_of_string s).

Section Handlers.

(** Library functions of Node and of the database that the handlers call:
    [path.extname] and [String.prototype.toLowerCase]; whether the
    database takes a string as the pattern of a [$regex] (a query with a
    pattern that it does not take is rejected) and the test of such a
    pattern against a string; and whether [fs.copyFileSync] throws for a
    destination name in the uploads directory, as it does for a name with a
    slash whose directory does not exist or a name that the file system
    finds too long. *)
Variable path_extname : string → string.
Variable toLowerCase : string → string.
Variable regex_valid : string → bool.
Variable regex_test : string → string → bool.
Variable copy_throws : string → bool.

(** *** featuresController.js *)

Definition toggleStar (id : string) (now : Date) (db : Db) : nat * Db :=
  match files db !! id with
  | None => (404%nat, db)
  | Some doc =>
      let starred := negb (is_true (isStarred doc)) in
      let doc := set_star doc (Some starred) (if starred then Some now else None) in
      save_and_reply 200 id doc now db
  end.

Definition moveToTrash (id : string) (now : Date) (db : Db) : nat * Db :=
  match files db !! id with
  | None => (404%nat, db)
  | Some doc => save_and_reply 200 id (set_trash doc (Some true) (Some now)) now db
  end.

Definition restoreFromTrash (id : string) (now : Date) (db : Db) : nat * Db :=
  match files db !! id with
  | None => (404%nat, db)
  | Some doc => save_and_reply 200 id (set_trash doc (Some false) None) now db
  end.

Definition permanentDelete (id : string) (db : Db) : nat * Db :=
  match files db !! id with
  | None => (404%nat, db)
  | Some doc =>
      let db := unlink (currentFileName doc) db in
      (200%nat, with_files db (delete id (files db)))
  end.

Definition emptyTrash (db : Db) : nat * Db :=
  let trashedFiles := find (λ f, is_true (isDeleted f)) (files db) in
  let db := unlink_all ((λ doc, currentFileName doc.2) <$> trashedFiles) db in
  (200%nat, deleteMany (λ f, is_true (isDeleted f)) db).

(** [{ isDeleted: true, deletedAt: { $lt: thirtyDaysAgo } }]; a [null]
    date is not less than a date. *)
Definition expired (thirtyDaysAgo : Date) (f : File) : bool :=
  is_true (isDeleted f)
  && match deletedAt f with
     | Some d => d <? thirtyDaysAgo
     | None => false
     end.

Definition autoCleanupTrash (now : Date) (db : Db) : nat * Db :=
  let thirtyDaysAgo := now - 30 * 24 * 60 * 60 * 1000 in
  let expiredFiles := find (expired thirtyDaysAgo) (files db) in
  let db := unlink_all ((λ doc, currentFileName doc.2) <$> expiredFiles) db in
  (200%nat, deleteMany (expired thirtyDaysAgo) db).

(** [file.tags = tags || []]; the schema trims each tag. *)
Definition updateTags (id : string) (newTags : option (list string)) (now : Date)
    (db : Db) : nat * Db :=
  match files db !! id with
  | None => (404%nat, db)
  | Some doc =>
      save_and_reply 200 id (set_tags doc (trim <$> default [] newTags)) now db
  end.

(** *** fileController.js *)

Definition new_file (up : Upload) (target : option string) (now : Date) : File :=
  {| originalName := trim (originalname up);
     currentFileName := filename up;
     mimeType := mimetype up;
     size := uploadSize up;
     extension := toLowerCase (path_extname (originalname up));
     folder := or_null target;
     currentVersion := 1;
     sharing := mkSharing false None None;
     isStarred := Some false;
     starredAt := None;
     isDeleted := Some false;
     deletedAt := None;
     tags := [];
     createdAt := now;
     updatedAt := now |}.

(** [newId] is the [_id] that the database gives the new document; a key
    that is already taken rejects the insertion. *)
Definition folder_exists (target : option string) (db : Db) : bool :=
  match target with
  | Some folderId => bool_decide (is_Some (folders db !! folderId))
  | None => true
  end.

(** [await file.save()] on a new document. *)
Definition create (newId : string) (doc : File) (now : Date) (db : Db)
  : option Db :=
  if bool_decide (is_Some (files db !! newId)) then None
  else save newId doc now db.

Definition uploadFile (upload : option Upload) (target : option string)
    (newId : string) (now : Date) (db : Db) : nat * Db :=
  match upload with
  | None => (400%nat, db)
  | Some up =>
      if folder_exists (or_null target) db then
        match create newId (new_file up target now) now db with
        | Some db' => (201%nat, db')
        | None => (500%nat, unlink (filename up) db)
        end
      else (404%nat, unlink (filename up) db)
  end.

Definition moveFile (id : string) (targetFolder : option string) (now : Date)
    (db : Db) : nat * Db :=
  match files db !! id with
  | None => (404%nat, db)
  | Some doc =>
      if folder_exists (or_null targetFolder) db then
        if name_taken id (originalName doc) (or_null targetFolder) db
        then (400%nat, db)
        else save_and_reply 200 id (set_folder doc (or_null targetFolder)) now db
      else (404%nat, db)
  end.

Definition renameFile (id : string) (newName : option string) (now : Date)
    (db : Db) : nat * Db :=
  match or_null newName with
  | None => (400%nat, db)
  | Some given =>
      if String.eqb (trim given) "" then (400%nat, db)
      else
        match files db !! id with
        | None => (404%nat, db)
        | Some doc =>
            let newName :=
              if contains_dot (trim given) then trim given
              else trim given +:+ extension doc in
            if name_taken id newName (folder doc) db then (400%nat, db)
            else save_and_reply 200 id (set_originalName doc (trim newName)) now db
        end
  end.

Definition deleteFile (id : string) (db : Db) : nat * Db :=
  match files db !! id with
  | None => (404%nat, db)
  | Some doc =>
      let db := unlink (currentFileName doc) db in
      let own := filter (λ v, file v = id) (versions db) in
      let db := unlink_all (fileName <$> own) db in
      let db := with_versions db (filter (λ v, file v ≠ id) (versions db)) in
      (200%nat, with_files db (delete id (files db)))
  end.

(** *** shareController.js *)

Definition enableSharing (fileId link : string) (now : Date) (db : Db)
  : nat * Db :=
  match files db !! fileId with
  | None => (404%nat, db)
  | Some doc =>
      if isShared (sharing doc)
         && match shareLink (sharing doc) with
            | Some l => nonempty l
            | None => false
            end
      then (200%nat, db)
      else
        save_and_reply 200 fileId
          (set_sharing doc (mkSharing true (Some link) (Some now))) now db
  end.

Definition disableSharing (fileId : string) (now : Date) (db : Db) : nat * Db :=
  match files db !! fileId with
  | None => (404%nat, db)
  | Some doc =>
      save_and_reply 200 fileId (set_sharing doc (mkSharing false None None)) now db
  end.

(** *** versionController.js *)

Definition version_of (fileId : string) (doc : File) : FileVersion :=
  mkFileVersion fileId (currentVersion doc) (currentFileName doc)
    (originalName doc) (size doc) (mimeType doc).

Definition uploadNewVersion (fileId : string) (upload : option Upload)
    (now : Date) (db : Db) : nat * Db :=
  match upload with
  | None => (400%nat, db)
  | Some up =>
      match files db !! fileId with
      | None => (404%nat, unlink (filename up) db)
      | Some existingFile =>
          let versionRecord := version_of fileId existingFile in
          if validate_version versionRecord then
            let db := with_versions db (versions db ++ [versionRecord]) in
            let updated :=
              set_content existingFile (filename up) (trim (originalname up))
                (mimetype up) (uploadSize up)
                (toLowerCase (path_extname (originalname up)))
                (currentVersion existingFile + 1) in
            match save fileId updated now db with
            | Some db' => (200%nat, db')
            | None => (500%nat, unlink (filename up) db)
            end
          else (500%nat, unlink (filename up) db)
      end
  end.

Definition restoreVersion (fileId : string) (versionNum : Z) (now : Date)
    (db : Db) : nat * Db :=
  match files db !! fileId with
  | None => (404%nat, db)
  | Some currentFile =>
      if versionNum =? currentVersion currentFile then (400%nat, db)
      else
        match list_find (λ v, file v = fileId ∧ versionNumber v = versionNum)
                (versions db) with
        | None => (404%nat, db)
        | Some (_, versionToRestore) =>
            let record := version_of fileId currentFile in
            if validate_version record then
              let db := with_versions db (versions db ++ [record]) in
              let newFileName :=
                pretty now +:+ "-restored-" +:+ versionOriginalName versionToRestore in
              if bool_decide (fileName versionToRestore ∈ disk db) then
                if copy_throws newFileName then (500%nat, db) else
                let db := with_disk db ({[newFileName]} ∪ disk db) in
                let restored :=
                  set_content currentFile newFileName
                    (trim (versionOriginalName versionToRestore))
                    (versionMimeType versionToRestore)
                    (versionSize versionToRestore)
                    (extension currentFile)
                    (currentVersion currentFile + 1) in
                save_and_reply 200 fileId restored now db
              else (404%nat, db)
            else (500%nat, db)
        end
  end.

(** *** folderController.js: deleteFolder *)

Definition deleteFolder (id : string) (db : Db) : nat * Db :=
  match folders db !! id with
  | None => (404%nat, db)
  | Some dir =>
      if negb (regex_valid ("^" +:+ path dir +:+ "/")) then (500%nat, db) else
      let allSubfolders :=
        filter (λ sub : string * Folder,
                  regex_test ("^" +:+ path dir +:+ "/") (path sub.2) = true)
          (map_to_list (folders db)) in
      let folderIds := id :: allSubfolders.*1 in
      let inside (f : File) : bool :=
        match folder f with
        | Some parent => bool_decide (parent ∈ folderIds)
        | None => false
        end in
      let filesToDelete := find inside (files db) in
      let db := unlink_all ((λ doc, currentFileName doc.2) <$> filesToDelete) db in
      let db := deleteMany inside db in
      (200%nat,
       with_folders db
         (filter (λ sub : string * Folder, sub.1 ∉ folderIds) (folders db)))
  end.

(** ** The requests that write the File collection *)

Inductive Op : Type :=
  | ToggleStar (id : string)
  | MoveToTrash (id : string)
  | RestoreFromTrash (id : string)
  | PermanentDelete (id : string)
  | EmptyTrash
  | AutoCleanupTrash
  | UpdateTags (id : string) (newTags : option (list string))
  | UploadFile (upload : option Upload) (target : option string) (newId : string)
  | MoveFile (id : string) (targetFolder : option string)
  | RenameFile (id : string) (newName : option string)
  | DeleteFile (id : string)
  | EnableSharing (fileId link : string)
  | DisableSharing (fileId : string)
  | UploadNewVersion (fileId : string) (upload : option Upload)
  | RestoreVersion (fileId : string) (versionNum : Z)
  | DeleteFolder (id : string).

(** One request served at time [now]: the status answered and the state
    left behind. *)
Definition handle (op : Op) (now : Date) (db : Db) : nat * Db :=
  match op with
  | ToggleStar id => toggleStar id now db
  | MoveToTrash id => moveToTrash id now db
  | RestoreFromTrash id => restoreFromTrash id now db
  | PermanentDelete id => permanentDelete id db
  | EmptyTrash => emptyTrash db
  | AutoCleanupTrash => autoCleanupTrash now db
  | UpdateTags id newTags => updateTags id newTags now db
  | UploadFile upload target newId => uploadFile upload target newId now db
  | MoveFile id targetFolder => moveFile id targetFolder now db
  | RenameFile id newName => renameFile id newName now db
  | DeleteFile id => deleteFile id db
  | EnableSharing fileId link => enableSharing fileId link now db
  | DisableSharing fileId => disableSharing fileId now db
  | UploadNewVersion fileId upload => uploadNewVersion fileId upload now db
  | RestoreVersion fileId versionNum => restoreVersion fileId versionNum now db
  | DeleteFolder id => deleteFolder id db
  end.

(** The requests of a history, served in order. *)
Fixpoint serve (history : list (Op * Date)) (db : Db) : Db :=
  match history with
  | [] => db
  | (op, now) :: rest => serve rest (handle op now db).2
  end.

End Handlers.

(** The database before any request. *)
Definition empty_db : Db := mkDb ∅ ∅ [] ∅.

(** The invariant of the starred flag: a document has a [starredAt] date
    exactly when its [isStarred] flag is [true]. *)
Definition star_consistent (f : File) : Prop :=
  starredAt f ≠ None ↔ isStarred f = Some true.

Definition star_invariant (db : Db) : Prop :=
  ∀ id f, files db !! id = Some f → star_consistent f.

(** The two paths of the starred flag. *)
Definition star_of (f : File) : option bool * option Date :=
  (isStarred f, starredAt f).

(** From one state of the collection to another, no handler assigned the
    starred paths of a document: a document that was there keeps them as a
    handler reads them off the loaded document (a missing [isStarred] may
    have been written as its default), a new one has the defaults of the
    schema. *)
Definition star_untouched (before after : gmap string File) : Prop :=
  ∀ id f', after !! id = Some f' →
    (∃ f, before !! id = Some f
          ∧ star_of (with_defaults f') = star_of (with_defaults f))
    ∨ (before !! id = None ∧ star_of f' = (Some false, None)).

Definition is_toggleStar (op : Op) : bool :=
  match op with
  | ToggleStar _ => true
  | _ => false
  end.

End Drive.
(* ===================================================================== *)
(** * Reading the File collection: sharing, tags, analytics, previews *)
(* ===================================================================== *)

Module DriveViews.
Import Drive.

Local Open Scope Z_scope.

(** ** featuresController.js: the helpers on types *)

(** [s.startsWith(p)] on a value that may be [null] or [undefined], behind
    [?.]: no string, no match. *)
Definition startsWith (s : option string) (p : string) : bool :=
  match s with
  | Some s => String.prefix p s
  | None => false
  end.

(** [hay.includes(needle)] on strings. *)
Fixpoint str_includes (needle hay : string) : bool :=
  String.prefix needle hay
  || match hay with
     | EmptyString => false
     | String _ rest => str_includes needle rest
     end.

Definition includes (s : option string) (needle : string) : bool :=
  match s with
  | Some s => str_includes needle s
  | None => false
  end.

(** [list.includes(x)] on an array of strings. *)
Definition among (x : string) (list : list string) : bool :=
  existsb (String.eqb x) list.

Definition getFileCategory (mimeType : option string) (extension : string)
  : string :=
  if startsWith mimeType "image/" then "Images"
  else if startsWith mimeType "video/" then "Videos"
  else if startsWith mimeType "audio/" then "Audio"
  else if bool_decide (mimeType = Some "application/pdf") then "PDFs"
  else if includes mimeType "document" || includes mimeType "msword"
          || among extension [".doc"; ".docx"; ".odt"]
  then "Documents"
  else if includes mimeType "spreadsheet" || includes mimeType "excel"
          || among extension [".xls"; ".xlsx"; ".csv"]
  then "Spreadsheets"
  else if includes mimeType "presentation" || includes mimeType "powerpoint"
          || among extension [".ppt"; ".pptx"]
  then "Presentations"
  else if startsWith mimeType "text/"
          || among extension
               [".txt"; ".md"; ".json"; ".js"; ".py"; ".jsx"; ".ts"; ".tsx";
                ".html"; ".css"]
  then "Text/Code"
  else if includes mimeType "zip" || includes mimeType "archive"
          || among extension [".zip"; ".rar"; ".7z"; ".tar"; ".gz"]
  then "Archives"
  else "Other".

Definition codeExtensions : list string :=
  [".js"; ".jsx"; ".ts"; ".tsx"; ".py"; ".java"; ".cpp"; ".c"; ".h"; ".css";
   ".html"; ".json"; ".xml"; ".yaml"; ".yml"; ".sh"; ".bash"; ".sql"].

Definition getPreviewType (mimeType : option string) (extension : string)
  : string :=
  if startsWith mimeType "image/" then "image"
  else if startsWith mimeType "video/" then "video"
  else if startsWith mimeType "audio/" then "audio"
  else if bool_decide (mimeType = Some "application/pdf") then "pdf"
  else if among extension codeExtensions then "code"
  else if startsWith mimeType "text/" || among extension [".txt"; ".md"; ".log"]
  then "text"
  else "unsupported".

(** The table of [getCodeLanguage], in the order of the source. *)
Definition languages : list (string * string) :=
  [(".js", "javascript"); (".jsx", "jsx"); (".ts", "typescript"); (".tsx", "tsx");
   (".py", "python"); (".java", "java"); (".cpp", "cpp"); (".c", "c"); (".h", "c");
   (".css", "css"); (".html", "html"); (".json", "json"); (".xml", "xml");
   (".yaml", "yaml"); (".yml", "yaml"); (".sh", "bash"); (".bash", "bash");
   (".sql", "sql"); (".md", "markdown"); (".txt", "plaintext")].

Fixpoint table_get (table : list (string * string)) (key : string)
  : option string :=
  match table with
  | [] => None
  | (k, v) :: rest => if String.eqb key k then Some v else table_get rest key
  end.

(** [languages[extension] || "plaintext"], for an extension as the upload
    handlers store it: empty, or starting with a dot, so that the lookup
    finds an own key of the table or nothing. *)
Definition getCodeLanguage (extension : string) : string :=
  match table_get languages extension with
  | Some language => if String.eqb language "" then "plaintext" else language
  | None => "plaintext"
  end.

(** ** featuresController.js: getFilePreview *)





(** ** fileController.js: getFileById, getDriveContents *)

(** The document, whatever its flags; the populated [folder] is not
    modelled. *)
Definition getFileById (id : string) (db : Db) : nat + File :=
  match files db !! id with
  | None => inl 404%nat
  | Some doc => inr doc
  end.

(** [.sort({ name: 1 })] on folders. *)
Definition by_folder_name : relation (string * Folder) :=
  λ a b, String.leb (name a.2) (name b.2) = true.

#[global] Instance by_folder_name_dec : RelDecision by_folder_name :=
  λ a b, decide (String.leb (name a.2) (name b.2) = true).

Definition find_folders (query : Folder → bool) (coll : gmap string Folder)
  : list (string * Folder) :=
  filter (λ doc, query doc.2 = true) (map_to_list coll).

Record DriveContents : Type := mkDriveContents {
  contentFolders : list (string * Folder);
  contentFiles : list (string * File);
  currentFolder : option string;
}.

Definition getDriveContents (folderParam : option string) (db : Db)
  : DriveContents :=
  mkDriveContents
    (merge_sort by_folder_name
       (find_folders (λ d, same_folder (parentFolder d) (or_null folderParam))
          (folders db)))
    (merge_sort by_name
       (find (λ f, same_folder (folder f) (or_null folderParam)
                   && negb (is_true (isDeleted f)))
          (files db)))
    (or_null folderParam).

(** ** featuresController.js: tags *)

(** [{ tags: tag, isDeleted: { $ne: true } }]: the array holds the tag,
    which mongoose casts with the schema and so trims. *)
Definition getFilesByTag (tag : string) (db : Db) : list (string * File) :=
  merge_sort (desc_by (λ f, Some (createdAt f)))
    (find (λ f, among (trim tag) (tags f) && negb (is_true (isDeleted f)))
       (files db)).

(** [File.distinct("tags", { isDeleted: { $ne: true } })], then the filter
    that drops the empty tag. *)
Definition getAllTags (db : Db) : list string :=
  filter (λ tag, tag ≠ "")
    (remove_dups
       (mjoin ((λ doc : string * File, tags doc.2)
                 <$> find (λ f, negb (is_true (isDeleted f))) (files db)))).

(** ** featuresController.js: getStorageAnalytics *)

(** [typeBreakdown[type]]: the number of files of the type and their total
    size. *)
Record TypeStats : Type := mkTypeStats {
  statCount : Z;
  statSize : Z;
}.

(** The double nearest to an integer, for an integer within the range of
    the doubles: an integer below [2 ^ 53] in absolute value is a double;
    beyond, the doubles are the multiples of a power of two, and a tie
    goes to the even multiple. *)
Definition round_double (n : Z) : Z :=
  let e := Z.log2 (Z.abs n) - 52 in
  if e <=? 0 then n
  else
    let unit := 2 ^ e in
    let q := n / unit in
    let r := n mod unit in
    let half := unit / 2 in
    if r <? half then q * unit
    else if half <? r then (q + 1) * unit
    else if Z.even q then q * unit else (q + 1) * unit.

(** [a + b] on two sizes: sizes are numbers, and their sum is the double
    nearest to it. *)
Definition js_add (a b : Z) : Z := round_double (a + b).

(** One turn of the [forEach]: the entry of the type is created at zero
    when absent, then counts the file. *)
Fixpoint count_file (type : string) (fileSize : Z)
    (breakdown : list (string * TypeStats)) : list (string * TypeStats) :=
  match breakdown with
  | [] => [(type, mkTypeStats (0 + 1) (js_add 0 fileSize))]
  | (t, stats) :: rest =>
      if String.eqb t type
      then (t, mkTypeStats (statCount stats + 1) (js_add (statSize stats) fileSize))
             :: rest
      else (t, stats) :: count_file type fileSize rest
  end.

(** The files and the bytes that a breakdown accounts for. *)
Definition sum_counts (breakdown : list (string * TypeStats)) : Z :=
  foldr (λ entry total, statCount entry.2 + total) 0 breakdown.

Definition sum_sizes (breakdown : list (string * TypeStats)) : Z :=
  foldr (λ entry total, statSize entry.2 + total) 0 breakdown.

Definition category_of (f : File) : string :=
  getFileCategory (Some (mimeType f)) (extension f).

Definition typeBreakdown (docs : list (string * File)) : list (string * TypeStats) :=
  foldl (λ breakdown doc, count_file (category_of doc.2) (size doc.2) breakdown)
    [] docs.

(** [.sort((a, b) => b.size - a.size)]. *)
Definition by_size_desc : relation (string * File) :=
  λ a b, (size b.2 <=? size a.2) = true.

#[global] Instance by_size_desc_dec : RelDecision by_size_desc :=
  λ a b, decide ((size b.2 <=? size a.2) = true).

Record LargeFile : Type := mkLargeFile {
  largeId : string;
  largeName : string;
  largeSize : Z;
  largeType : string;
}.

Definition to_large (doc : string * File) : LargeFile :=
  mkLargeFile doc.1 (originalName doc.2) (size doc.2) (category_of doc.2).

(** The [data] of the answer, but for [storageUsedPercent], a rounded
    floating-point ratio. *)
Record Analytics : Type := mkAnalytics {
  totalFiles : nat;
  totalStorage : Z;
  storageLimit : Z;
  breakdown : list (string * TypeStats);
  largestFiles : list LargeFile;
  recentUploads : nat;
  trashCount : nat;
  starredCount : nat;
}.

Definition getStorageAnalytics (now : Date) (db : Db) : Analytics :=
  let docs := find (λ f, negb (is_true (isDeleted f))) (files db) in
  let sevenDaysAgo := now - 7 * 24 * 60 * 60 * 1000 in
  mkAnalytics
    (length docs)
    (foldl (λ sum doc, js_add sum (size doc.2)) 0 docs)
    (5 * 1024 * 1024 * 1024)
    (typeBreakdown docs)
    (to_large <$> take 10 (merge_sort by_size_desc docs))
    (length (filter (λ doc : string * File, sevenDaysAgo < createdAt doc.2) docs))
    (length (find (λ f, is_true (isDeleted f)) (files db)))
    (length (find (λ f, is_true (isStarred f) && negb (is_true (isDeleted f)))
               (files db))).

(** ** shareController.js: reading a share *)

(** [process.env.BASE_URL || "http://localhost:5000"]. *)
Definition base_url (env : option string) : string :=
  match or_null env with
  | Some url => url
  | None => "http://localhost:5000"
  end.

(** [File.findOne({ "sharing.shareLink": shareLink })]. *)
Definition findOne_by_link (link : string) (coll : gmap string File)
  : option (string * File) :=
  snd <$> list_find (λ doc : string * File, shareLink (sharing doc.2) = Some link)
            (map_to_list coll).

Record SharedFile : Type := mkSharedFile {
  sharedId : string;
  sharedFileName : string;
  sharedMimeType : string;
  sharedSize : Z;
  sharedExtension : string;
  uploadedAt : Date;
  downloadUrl : string;
}.

Definition accessSharedFile (env : option string) (link : string) (db : Db)
  : nat + SharedFile :=
  match findOne_by_link link (files db) with
  | None => inl 404%nat
  | Some (id, doc) =>
      if negb (isShared (sharing doc)) then inl 403%nat
      else
        inr (mkSharedFile id (originalName doc) (mimeType doc) (size doc)
               (extension doc) (createdAt doc)
               (base_url env +:+ "/api/share/" +:+ link +:+ "/download"))
  end.

(** What a download sends: the stored file that is streamed and the two
    headers set before it. *)
Record Download : Type := mkDownload {
  streamed : string;
  contentDisposition : string;
  contentType : string;
}.

(** The double quote. *)
Definition quote : string := String (ascii_of_nat 34) EmptyString.

(** A character that Node takes in the value of a header: a tab, or any
    character from the space on but DEL. *)
Definition header_char (c : ascii) : bool :=
  let n := nat_of_ascii c in
  (Nat.eqb n 9 || (Nat.leb 32 n && negb (Nat.eqb n 127)))%bool.

(** [res.setHeader(name, value)] takes the value: it throws on a value
    with any other character. *)
Definition valid_header (value : string) : bool :=
  forallb header_char (list_ascii_of_string value).

(** [attachment; filename=...], the name between double quotes. *)
Definition attachment (doc_name stored mime : string) : Download :=
  mkDownload stored ("attachment; filename=" +:+ quote +:+ doc_name +:+ quote)
    mime.

(** The end of the three downloads: the two headers are set, then the
    stored file is streamed; a header that [setHeader] refuses leads to
    the [catch] block.  Of the first header, the name of the document is
    the part that varies. *)
Definition send_file (doc_name stored mime : string) : nat + Download :=
  if valid_header doc_name && valid_header mime
  then inr (attachment doc_name stored mime)
  else inl 500%nat.

Definition downloadSharedFile (link : string) (db : Db) : nat + Download :=
  match findOne_by_link link (files db) with
  | None => inl 404%nat
  | Some (_, doc) =>
      if negb (isShared (sharing doc)) then inl 403%nat
      else if bool_decide (currentFileName doc ∈ disk db)
      then send_file (originalName doc) (currentFileName doc) (mimeType doc)
      else inl 404%nat
  end.

(** ** fileController.js: downloadFile *)

Definition downloadFile (id : string) (db : Db) : nat + Download :=
  match files db !! id with
  | None => inl 404%nat
  | Some doc =>
      if bool_decide (currentFileName doc ∈ disk db)
      then send_file (originalName doc) (currentFileName doc) (mimeType doc)
      else inl 404%nat
  end.

(** ** versionController.js: downloadVersion *)

(** [versionNum] is the value of [parseInt(versionNumber)], an integer. *)
Definition downloadVersion (fileId : string) (versionNum : Z) (db : Db)
  : nat + Download :=
  match files db !! fileId with
  | None => inl 404%nat
  | Some currentFile =>
      let chosen :=
        if versionNum =? currentVersion currentFile then
          Some (currentFileName currentFile, originalName currentFile,
                mimeType currentFile)
        else
          match list_find (λ v, file v = fileId ∧ versionNumber v = versionNum)
                  (versions db) with
          | Some (_, version) =>
              Some (fileName version, versionOriginalName version,
                    versionMimeType version)
          | None => None
          end in
      match chosen with
      | None => inl 404%nat
      | Some (stored, original, mime) =>
          if bool_decide (stored ∈ disk db)
          then send_file original stored mime
          else inl 404%nat
      end
  end.

(** ** Groups of paths *)

(** The paths of the trash. *)
Definition trash_of (f : File) : option bool * option Date :=
  (isDeleted f, deletedAt f).

(** From one state of the collection to another, no document had the paths
    that [paths] reads written: a document that was there keeps them, a new
    one has the values [fresh]. *)
Definition untouched {X : Type} (paths : File → X) (fresh : X)
    (before after : gmap string File) : Prop :=
  ∀ id f', after !! id = Some f' →
    (∃ f, before !! id = Some f ∧ paths f' = paths f)
    ∨ (before !! id = None ∧ paths f' = fresh).

Definition writes_trash (op : Op) : bool :=
  match op with
  | MoveToTrash _ | RestoreFromTrash _ => true
  | _ => false
  end.

Definition writes_sharing (op : Op) : bool :=
  match op with
  | EnableSharing _ _ | DisableSharing _ => true
  | _ => false
  end.

(** A document has a [deletedAt] date exactly when it is in the trash. *)
Definition trash_consistent (f : File) : Prop :=
  deletedAt f ≠ None ↔ is_true (isDeleted f) = true.

(** A document has a share link, and a [sharedAt] date, exactly when it is
    shared. *)
Definition share_consistent (f : File) : Prop :=
  (isShared (sharing f) = true ↔ shareLink (sharing f) ≠ None)
  ∧ (isShared (sharing f) = true ↔ sharedAt (sharing f) ≠ None).

Definition flags_consistent (db : Db) : Prop :=
  ∀ id f, files db !! id = Some f → trash_consistent f ∧ share_consistent f.

End DriveViews.

(* ===================================================================== *)
(** * controllers/folderController.js: listing, creating, renaming *)
(* ===================================================================== *)

Module FolderController.
Import JS Drive DriveViews.

(** The validators of [folderSchema] on [name]: [required] and
    [maxlength: 255]. *)
Definition validate_folder (dir : Folder) : bool :=
  nonempty (name dir) && (String.length (name dir) <=? 255)%nat.

Definition set_path (dir : Folder) (v : string) : Folder :=
  mkFolder (name dir) (parentFolder dir) v.

(** [!name || !name.trim()] on the [name] of the body, a string when it is
    there. *)
Definition no_name (given : option string) : bool :=
  match given with
  | None => true
  | Some n => String.eqb n "" || String.eqb (trim n) ""
  end.

(** [Folder.findOne({ name, parentFolder, _id: { $ne: id } })] finds a
    document; [None] for a query without the [_id] condition. *)
Definition folder_name_taken (except : option string) (wanted : string)
    (parent : option string) (db : Db) : bool :=
  existsb (λ doc : string * Folder,
             negb (bool_decide (Some doc.1 = except))
             && String.eqb (name doc.2) wanted
             && same_folder (parentFolder doc.2) parent)
    (map_to_list (folders db)).

(** [parentPath === "/" ? `/${name}` : `${parentPath}/${name}`]. *)
Definition child_path (parentPath leaf : string) : string :=
  if String.eqb parentPath "/" then "/" +:+ leaf else parentPath +:+ "/" +:+ leaf.

(** [p.substring(0, p.lastIndexOf("/"))]; [None] when [p] has no slash. *)
Fixpoint up_to_last_slash (p : string) : option string :=
  match p with
  | EmptyString => None
  | String c rest =>
      match up_to_last_slash rest with
      | Some kept => Some (String c kept)
      | None => if Ascii.eqb c "/" then Some EmptyString else None
      end
  end.

(** [oldPath.substring(0, oldPath.lastIndexOf("/")) || "/"]: without a
    slash the index is -1 and the substring is empty. *)
Definition parent_path (oldPath : string) : string :=
  match default "" (up_to_last_slash oldPath) with
  | EmptyString => "/"
  | p => p
  end.

Definition getFolders (parentParam : option string) (db : Db)
  : list (string * Folder) :=
  merge_sort by_folder_name
    (find_folders (λ d, same_folder (parentFolder d) (or_null parentParam))
       (folders db)).

(** [newId] is the [_id] of the new document.  The schema trims the name
    that it is given, which the handler has trimmed already. *)
Definition createFolder (given : option string) (parentParam : option string)
    (newId : string) (db : Db) : nat * Db :=
  if no_name given then (400%nat, db)
  else
    let leaf := trim (default "" given) in
    let found :=
      match or_null parentParam with
      | Some parentId =>
          match folders db !! parentId with
          | Some parent => Some (path parent)
          | None => None
          end
      | None => Some ""
      end in
    match found with
    | None => (404%nat, db)
    | Some parentPath =>
        if folder_name_taken None leaf (or_null parentParam) db then (400%nat, db)
        else
          let dir := mkFolder (trim leaf) (or_null parentParam)
                       (child_path parentPath leaf) in
          if validate_folder dir
             && negb (bool_decide (is_Some (folders db !! newId)))
          then (201%nat, with_folders db (<[newId := dir]> (folders db)))
          else (500%nat, db)
    end.

Section Paths.

(** Whether the database takes a string as the pattern of a [$regex] (a
    query with a pattern that it does not take is rejected), the test of
    such a pattern against a string, and [s.replace(pattern, replacement)]
    with a string pattern. *)
Variable regex_valid : string → bool.
Variable regex_test : string → string → bool.
Variable replace : string → string → string → string.

(** The loop of [updateSubfolderPaths] over the folders that the query
    found: each one is saved with its new path, and the first save that is
    rejected ends the loop. *)
Fixpoint save_paths (subfolders : list (string * Folder))
    (oldPath newPath : string) (db : Db) : bool * Db :=
  match subfolders with
  | [] => (true, db)
  | sub :: rest =>
      let moved := set_path sub.2 (replace (path sub.2) oldPath newPath) in
      if validate_folder moved
      then save_paths rest oldPath newPath
             (with_folders db (<[sub.1 := moved]> (folders db)))
      else (false, db)
  end.

(** [(false, _)] when the helper throws: on the query, when the database
    does not take the pattern, or on a save. *)
Definition updateSubfolderPaths (oldPath newPath : string) (db : Db)
  : bool * Db :=
  if negb (regex_valid ("^" +:+ oldPath +:+ "/")) then (false, db)
  else
    save_paths
      (find_folders (λ d, regex_test ("^" +:+ oldPath +:+ "/") (path d))
         (folders db))
      oldPath newPath db.

Definition renameFolder (id : string) (given : option string) (db : Db)
  : nat * Db :=
  if no_name given then (400%nat, db)
  else
    let leaf := trim (default "" given) in
    match folders db !! id with
    | None => (404%nat, db)
    | Some dir =>
        if folder_name_taken (Some id) leaf (parentFolder dir) db
        then (400%nat, db)
        else
          let oldPath := path dir in
          let newPath := child_path (parent_path oldPath) leaf in
          let renamed := mkFolder (trim leaf) (parentFolder dir) newPath in
          if validate_folder renamed then
            let db := with_folders db (<[id := renamed]> (folders db)) in
            match updateSubfolderPaths oldPath newPath db with
            | (true, db') => (200%nat, db')
            | (false, db') => (500%nat, db')
            end
          else (500%nat, db)
    end.

End Paths.

(** No two folders in one place have one name. *)
Definition siblings_distinct (coll : gmap string Folder) : Prop :=
  ∀ i j a b,
    coll !! i = Some a → coll !! j = Some b →
    parentFolder a = parentFolder b → name a = name b → i = j.

(** Two collections with the same folders, up to their paths. *)
Definition same_names (before after : gmap string Folder) : Prop :=
  ∀ i, (λ d, (name d, parentFolder d)) <$> after !! i
       = (λ d, (name d, parentFolder d)) <$> before !! i.

End FolderController.
(* ===================================================================== *)
(** * The retrieval core: chunker and vector index *)
(* ===================================================================== *)

Module Rag.

Section Core.

(** Modelled from the spec: the tokenizer, which section 4.2 leaves to the
    embedding model or to a white-space and punctuation splitter; the core
    takes it as given. *)
Context {Token : Type}.
Variable tokenize : string → list Token.

(** Modelled from the spec: the Chunk of section 3, for the chunker of
    [chunker.py], which is not in the tree: its index in the document, its
    tokens, their number, and the offsets of its first token and of the end
    of the window in the token stream. *)
Record Chunk : Type := mkChunk {
  chunk_id : nat;
  chunk_tokens : list Token;
  token_count : nat;
  start_offset : nat;
  end_offset : nat;
}.

(** Modelled from the spec: the error of section 4.2 for a configuration
    that [chunker.py], which is not in the tree, refuses. *)
Inductive ChunkError : Type :=
  | InvalidChunkConfigError.

(** Modelled from the spec: the constraint of section 4.2 on the
    configuration of [chunker.py], which is not in the tree:
    [0 ≤ overlap_tokens < chunk_size_tokens]. *)
Definition valid_config (chunk_size_tokens overlap_tokens : nat) : bool :=
  (overlap_tokens <? chunk_size_tokens)%nat.

(** Modelled from the spec: a window of the walk of [chunker.py], which is
    not in the tree: the [size] tokens that start at [start], fewer when
    the stream ends before the window is full. *)
Definition window_at (toks : list Token) (size id start : nat) : Chunk :=
  let window := take size (drop start toks) in
  mkChunk id window (length window) start (start + length window).

(** Modelled from the spec: the end of the walk of [chunker.py], which is
    not in the tree: the window at [start] is the last one when it reaches
    the end of the stream. *)
Definition reaches_end (toks : list Token) (size start : nat) : bool :=
  (length toks <=? start + size)%nat.

(** Modelled from the spec: the walk of [chunker.py], which is not in the
    tree, after section 4.2: windows of [size] tokens, the start advancing
    by [step = chunk_size_tokens - overlap_tokens], the last window
    emitted even when short.  [fuel] bounds the number of windows. *)
Fixpoint windows (fuel : nat) (toks : list Token) (size step id start : nat)
  : list Chunk :=
  match fuel with
  | O => []
  | S fuel' =>
      if reaches_end toks size start
      then [window_at toks size id start]
      else window_at toks size id start
             :: windows fuel' toks size step (S id) (start + step)
  end.

(** Modelled from the spec: [chunk(normalized_text, chunk_size_tokens,
    overlap_tokens)] of [chunker.py], which is not in the tree, after
    section 4.2.  A walk emits at most one window per token, and one for
    an empty stream. *)
Definition chunk (normalized_text : string)
    (chunk_size_tokens overlap_tokens : nat) : ChunkError + list Chunk :=
  if valid_config chunk_size_tokens overlap_tokens then
    let toks := tokenize normalized_text in
    inr (windows (S (length toks)) toks chunk_size_tokens
           (chunk_size_tokens - overlap_tokens) 0 0)
  else inl InvalidChunkConfigError.

(** ** The contract of the chunker *)


(** ** Vector index *)

(** Modelled from the spec: the Embedding of section 3, a vector of
    numbers, for [vector_store.py], which is not in the tree. *)
Definition Embedding : Type := list Q.

(** Modelled from the spec: the Index Entry of section 3, for
    [vector_store.py], which is not in the tree. *)
Record IndexEntry : Type := mkIndexEntry {
  entry_chunk : Chunk;
  entry_embedding : Embedding;
  entry_document : string;
}.

(** Modelled from the spec: the similarity of section 4.3 (the cosine, a
    real number that the model takes as a rational), computed inside
    [vector_store.py], which is not in the tree; the index needs its values
    only to compare them. *)
Variable similarity : Embedding → Embedding → Q.

(** Modelled from the spec: an element of the Query Result of section 3,
    for [vector_store.py], which is not in the tree: a chunk and its
    similarity score. *)
Record Hit : Type := mkHit {
  hit_chunk : Chunk;
  hit_score : Q;
}.

(** Modelled from the spec: the error of section 4.3 when
    [vector_store.py], which is not in the tree, has no index for the
    document. *)
Inductive SearchError : Type :=
  | IndexNotFoundError.

(** Modelled from the spec: the order of a Query Result of
    [vector_store.py], which is not in the tree, after sections 3 and 4.3:
    descending score, ties by ascending [chunk_id]. *)
Definition ranks_beforeb (a b : Hit) : bool :=
  match (hit_score b ?= hit_score a)%Q with
  | Lt => true
  | Eq => (chunk_id (hit_chunk a) <=? chunk_id (hit_chunk b))%nat
  | Gt => false
  end.

(** Modelled from the spec: [ranks_beforeb] as a relation. *)
Definition ranks_before : relation Hit := λ a b, ranks_beforeb a b = true.

#[global] Instance ranks_before_dec : RelDecision ranks_before :=
  λ a b, decide (ranks_beforeb a b = true).

(** Modelled from the spec: the score of one stored entry against the
    query, in the scan of [vector_store.py], which is not in the tree. *)
Definition score_entry (query_embedding : Embedding) (e : IndexEntry) : Hit :=
  mkHit (entry_chunk e) (similarity query_embedding (entry_embedding e)).

(** Modelled from the spec: [search(document_id, query_embedding, k)] of
    [vector_store.py], which is not in the tree, after section 4.3: a
    linear scan that scores every stored entry of the document's index,
    orders the hits by descending score then ascending [chunk_id], and
    keeps the first [k]; no index for the document is an error, an empty
    index an empty result. *)
Definition search (table : gmap string (list IndexEntry)) (document_id : string)
    (query_embedding : Embedding) (k : nat) : SearchError + list Hit :=
  match table !! document_id with
  | None => inl IndexNotFoundError
  | Some entries =>
      inr (take k (merge_sort ranks_before (score_entry query_embedding <$> entries)))
  end.

End Core.

Arguments Chunk : clear implicits.
Arguments IndexEntry : clear implicits.
Arguments Hit : clear implicits.

End Rag.
(* ===================================================================== *)
(** * Sample data *)
(* ===================================================================== *)

Module Samples.
Import AiController.

Definition refused : JSError :=
  mkError (JStr "ECONNREFUSED") None "connect ECONNREFUSED 127.0.0.1:8000".

(** A service that is down: every call is refused. *)
Definition rag_down : RagClient := λ _ _, Rejected refused.

Definition sample_index_request : Request :=
  mkRequest [("filePath", JStr "uploads/report.pdf"); ("fileId", JStr "64f0c2")].

Definition sample_ask_request : Request :=
  mkRequest [("filePath", JStr "uploads/report.pdf");
             ("question", JStr "  What is the total?  ")].



(** A service that answers every call with the same indexing report. *)
Definition rag_up : RagClient :=
  λ _ _, Resolved (JObj [("success", JBool true); ("num_chunks", JNum 7)]).

(** *** A small drive *)

Definition sample_live : Drive.File :=
  Drive.mkFile "notes.txt" "1714-notes.txt" "text/plain" 12%Z ".txt" None 1%Z
    (Drive.mkSharing false None None) (Some false) None (Some false) None []
    1000%Z 1000%Z.

Definition sample_trashed : Drive.File :=
  Drive.mkFile "old.pdf" "1302-old.pdf" "application/pdf" 2048%Z ".pdf" None 1%Z
    (Drive.mkSharing false None None) (Some true) (Some 2000%Z)
    (Some true) (Some 5000%Z) [] 1500%Z 5000%Z.

Definition sample_db : Drive.Db :=
  Drive.mkDb (<["f1" := sample_live]> (<["f2" := sample_trashed]> ∅)) ∅ [] ∅.

Definition sample_trashed_in_folder : Drive.File :=
  Drive.mkFile "draft.md" "1420-draft.md" "text/markdown" 64%Z ".md" (Some "d7") 1%Z
    (Drive.mkSharing false None None) (Some false) None
    (Some true) (Some 5000%Z) [] 1500%Z 5000%Z.

Definition sample_folder_db : Drive.Db :=
  Drive.mkDb {[ "f3" := sample_trashed_in_folder ]}
    {[ "d7" := Drive.mkFolder "drafts" None "/drafts" ]} [] ∅.

(** *** A small index *)

(** A splitter on white space, as a tokenizer. *)
Fixpoint words_from (current : string) (s : string) : list string :=
  match s with
  | EmptyString => if String.eqb current "" then [] else [current]
  | String c rest =>
      if is_white_space c then
        if String.eqb current "" then words_from "" rest
        else current :: words_from "" rest
      else words_from (current +:+ String c EmptyString) rest
  end.

Definition words (s : string) : list string := words_from "" s.

Fixpoint dot (u v : list Q) : Q :=
  match u, v with
  | x :: u', y :: v' => (x * y + dot u' v')%Q
  | _, _ => 0%Q
  end.

Definition sample_chunk (id : nat) (word : string) : Rag.Chunk string :=
  Rag.mkChunk id [word] 1 id (S id).

Definition sample_entries : list (Rag.IndexEntry string) :=
  [ Rag.mkIndexEntry (sample_chunk 0 "alpha") [1%Q; 0%Q] "d1";
    Rag.mkIndexEntry (sample_chunk 1 "beta") [0%Q; 1%Q] "d1";
    Rag.mkIndexEntry (sample_chunk 2 "gamma") [1%Q; 0%Q] "d1" ].

Definition sample_table : gmap string (list (Rag.IndexEntry string)) :=
  {[ "d1" := sample_entries ]}.

End Samples.

(* ===================================================================== *)
(** * Properties of the AI controller *)
(* ===================================================================== *)

Module JSFacts.

Lemma trim_end_empty (s : string) :
  trim_end s = "" ↔ all_white_space s = true.
Proof.
  induction s as [| c rest IH]; cbn; [done |].
  destruct (trim_end rest) eqn:Hrest.
  - destruct (is_white_space c); cbn; [tauto | split; discriminate].
  - split; [discriminate |]. intros [_ Hall]%andb_prop.
    apply IH in Hall. discriminate.
Qed.

Lemma trim_start_head (s : string) :
  trim_start s = "" ∨ ∃ c rest, trim_start s = String c rest ∧ is_white_space c = false.
Proof.
  induction s as [| c rest IH]; cbn; [by left |].
  destruct (is_white_space c) eqn:Hc; [exact IH |]. right. eauto.
Qed.

Lemma trim_start_empty (s : string) :
  trim_start s = "" ↔ all_white_space s = true.
Proof.
  induction s as [| c rest IH]; cbn; [done |].
  destruct (is_white_space c); cbn; [exact IH | split; discriminate].
Qed.

(** [s.trim()] is empty exactly when [s] holds nothing but white space. *)
Lemma trim_empty_iff (s : string) :
  trim s = "" ↔ all_white_space s = true.
Proof.
  unfold trim. rewrite trim_end_empty. split.
  - intros Hall. apply trim_start_empty.
    destruct (trim_start_head s) as [He | (c & rest & He & Hc)]; [exact He |].
    rewrite He in Hall. cbn in Hall. rewrite Hc in Hall. discriminate.
  - intros Hall. apply trim_start_empty in Hall. by rewrite Hall.
Qed.

Lemma truthy_nonblank (q : string) :
  all_white_space q = false → truthy (JStr q) = true.
Proof. by destruct q. Qed.

Lemma trim_end_idempotent (s : string) : trim_end (trim_end s) = trim_end s.
Proof.
  induction s as [| c rest IH]; cbn; [done |].
  destruct (trim_end rest) as [| k kept] eqn:Hrest.
  - destruct (is_white_space c) eqn:Hc; cbn; [done | by rewrite Hc].
  - cbn [trim_end] in *. by rewrite IH.
Qed.

Lemma trim_end_head (c : ascii) (rest : string) :
  is_white_space c = false → ∃ kept, trim_end (String c rest) = String c kept.
Proof.
  intros Hc. cbn. destruct (trim_end rest); [rewrite Hc |]; eauto.
Qed.

(** Trimming a trimmed string changes nothing. *)
Lemma trim_idempotent (s : string) : trim (trim s) = trim s.
Proof.
  unfold trim.
  destruct (trim_start_head s) as [-> | (c & rest & -> & Hc)]; [done |].
  destruct (trim_end_head c rest Hc) as [kept Hkept].
  rewrite Hkept. cbn [trim_start]. rewrite Hc, <- Hkept.
  apply trim_end_idempotent.
Qed.

End JSFacts.

Module AiControllerProps.
Import AiController Samples JSFacts.

Ltac run_async :=
  unfold try_catch, send, post, console_log, call_trim, throw,
    mbind, mret, Async_bind, Async_ret; cbn [existsb orb negb].

(** ** The handlers at work *)

Example indexFile_passes_the_report_on :
  indexFile sample_index_request rag_up []
  = (inr (mkResponse 200 (JObj [("success", JBool true); ("num_chunks", JNum 7)])),
     [mkCall "/index-file"
        (JObj [("file_path", JStr "uploads/report.pdf");
               ("file_id", JStr "64f0c2")])]).
Proof. reflexivity. Qed.

Example indexFile_without_a_path :
  indexFile (mkRequest [("fileId", JStr "64f0c2")]) rag_up []
  = (inr (mkResponse 400 (JObj [("success", JBool false);
                                ("error", JStr "File path is required")])), []).
Proof. reflexivity. Qed.

Example askQuestion_sends_the_trimmed_question :
  snd (askQuestion sample_ask_request rag_up [])
  = [mkCall "/ask"
       (JObj [("file_path", JStr "uploads/report.pdf");
              ("file_id", JUndefined);
              ("question", JStr "What is the total?")])].
Proof. reflexivity. Qed.

Example generateDocument_defaults_to_summary :
  snd (generateDocument (mkRequest [("filePath", JStr "uploads/report.pdf")])
         rag_up [])
  = [mkCall "/generate-doc"
       (JObj [("file_path", JStr "uploads/report.pdf");
              ("file_id", JUndefined);
              ("doc_type", JStr "summary")])].
Proof. reflexivity. Qed.

(** A rejection that is not a refused connection: the message of the
    service's error body is passed on with status 500. *)
Example summarizeFile_reports_the_service_error :
  summarizeFile sample_index_request
    (λ _ _, Rejected (mkError (JStr "ERR_BAD_RESPONSE")
                        (Some (JObj [("error", JStr "File not indexed")]))
                        "Request failed with status code 500")) []
  = (inr (mkResponse 500 (JObj [("success", JBool false);
                                ("error", JStr "File not indexed")])),
     [summarize_call sample_index_request]).
Proof. reflexivity. Qed.

(** ** The [catch] block *)

(** The shared [catch] block always answers, with [success: false] and
    status 503 or 500. *)
Lemma on_error_spec (u f : string) (e : JSError) (rag : RagClient) (log : list Call) :
  ∃ resp, on_error u f e rag log = (inr resp, log)
    ∧ success_of resp = JBool false
    ∧ status resp = (if is_econnrefused e then 503 else 500).
Proof.
  unfold on_error. destruct (is_econnrefused e); run_async; eauto.
Qed.

(** Whatever is thrown inside a [try] block guarded by [on_error] becomes a
    503 or 500 failure response; the handler itself does not throw. *)
Lemma guarded_throw (u f : string) (blk : Async Response) (rag : RagClient)
    (log log' : list Call) (e : JSError) :
  blk rag log = (inl e, log') →
  ∃ resp, try_catch blk (on_error u f) rag log = (inr resp, log')
    ∧ success_of resp = JBool false
    ∧ status resp = (if is_econnrefused e then 503 else 500).
Proof.
  intros Hblk. unfold try_catch. rewrite Hblk. apply on_error_spec.
Qed.

Lemma guarded_refused (u f : string) (blk : Async Response) (rag : RagClient)
    (log log' : list Call) (e : JSError) :
  blk rag log = (inl e, log') →
  is_econnrefused e = true →
  ∃ resp, try_catch blk (on_error u f) rag log = (inr resp, log')
    ∧ status resp = 503 ∧ success_of resp = JBool false.
Proof.
  intros Hblk Hcode.
  destruct (guarded_throw u f blk rag log log' e Hblk) as (resp & Hrun & Hs & Hst).
  rewrite Hcode in Hst. eauto.
Qed.

Lemma guarded_total (u f : string) (blk : Async Response) (rag : RagClient)
    (log : list Call) :
  ∃ resp log', try_catch blk (on_error u f) rag log = (inr resp, log').
Proof.
  unfold try_catch. destruct (blk rag log) as [[e | r] log'] eqn:Hblk.
  - destruct (on_error_spec u f e rag log') as (resp & -> & _). eauto.
  - eauto.
Qed.




(** The calls of [summarizeFile]: none, or one. *)
Lemma summarizeFile_calls (req : Request) (rag : RagClient) (log log' : list Call)
    (r : JSError + Response) :
  summarizeFile req rag log = (r, log') →
  log' = log ∨ log' = log ++ [summarize_call req].
Proof.
  unfold summarizeFile, summarize_call, filePath_of, fileId_of. cbn zeta.
  destruct (truthy _); run_async; [| intros [= <- <-]; by left].
  destruct (to_string_throws _ || false); cbn; [intros [= <- <-]; by left |].
  destruct (rag log _) as [data | e]; cbn; [intros [= <- <-]; by right |].
  unfold on_error. destruct (is_econnrefused e); run_async;
    intros [= <- <-]; by right.
Qed.

(** The calls of [askQuestion]: none, or one, made for a file path and a
    question string that is not blank. *)
Lemma askQuestion_calls (req : Request) (rag : RagClient) (log log' : list Call)
    (r : JSError + Response) :
  askQuestion req rag log = (r, log') →
  log' = log
  ∨ (truthy (filePath_of req) = true
     ∧ ∃ q, question_of req = JStr q ∧ all_white_space q = false
         ∧ log' = log ++ [ask_call req q]).
Proof.
  unfold askQuestion, ask_call, question_of, filePath_of, fileId_of. cbn zeta.
  destruct (truthy _); run_async; [| intros [= <- <-]; by left].
  destruct (truthy (own_prop (body req) "question")); cbn;
    [| intros [= <- <-]; by left].
  destruct (own_prop (body req) "question") as [| | b | n | q | items | props];
    cbn; try (intros [= <- <-]; by left).
  destruct (String.eqb (trim q) "") eqn:Hne; cbn; [intros [= <- <-]; by left |].
  assert (Hnb : all_white_space q = false).
  { apply String.eqb_neq in Hne. apply not_true_is_false.
    by intros ?%trim_empty_iff. }
  destruct (to_string_throws _ || false); cbn; [intros [= <- <-]; by left |].
  destruct (rag log _) as [data | e]; cbn.
  - intros [= <- <-]. right. eauto.
  - unfold on_error. destruct (is_econnrefused e); run_async;
      intros [= <- <-]; right; eauto.
Qed.

(** C5: on the read path, when the call to the RAG service is refused
    ([ECONNREFUSED]), [summarizeFile] and [askQuestion] answer 503 with
    [success: false], the log of calls having grown by that one call only;
    and on every request each of the two handlers answers after at most
    one call to the service: the controller does not call it again. *)
Theorem read_path_unavailable_is_503_no_retry
    (req : Request) (rag : RagClient) (log : list Call) :
  (∀ error,
     truthy (filePath_of req) = true →
     to_string_throws (filePath_of req) = false →
     is_econnrefused error = true →
     (rag log (summarize_call req) = Rejected error →
        ∃ resp, summarizeFile req rag log = (inr resp, log ++ [summarize_call req])
          ∧ status resp = 503 ∧ success_of resp = JBool false)
     ∧ (∀ q, question_of req = JStr q → all_white_space q = false →
          rag log (ask_call req q) = Rejected error →
          ∃ resp, askQuestion req rag log = (inr resp, log ++ [ask_call req q])
            ∧ status resp = 503 ∧ success_of resp = JBool false))
  ∧ (∃ resp log', summarizeFile req rag log = (inr resp, log')
       ∧ (log' = log ∨ log' = log ++ [summarize_call req]))
  ∧ (∃ resp log', askQuestion req rag log = (inr resp, log')
       ∧ (log' = log
          ∨ ∃ q, question_of req = JStr q ∧ log' = log ++ [ask_call req q])).
Proof.
  split; [| split].
  - unfold filePath_of, question_of. intros error Hfp Hlog Hcode. split.
    + intros Hrej. unfold summarizeFile.
      apply guarded_refused with error; [| exact Hcode].
      cbn zeta. rewrite Hfp. run_async. rewrite Hlog. cbn.
      unfold summarize_call, filePath_of, fileId_of in Hrej. rewrite Hrej.
      reflexivity.
    + intros q Hq Hnb Hrej.
      assert (Hne : String.eqb (trim q) "" = false).
      { apply String.eqb_neq. intros He%trim_empty_iff. congruence. }
      unfold askQuestion. apply guarded_refused with error; [| exact Hcode].
      cbn zeta. rewrite Hfp, Hq, (truthy_nonblank q Hnb). run_async.
      rewrite Hne, Hlog. cbn.
      unfold ask_call, filePath_of, fileId_of in Hrej. rewrite Hrej.
      reflexivity.
  - assert (Htotal : ∃ resp log', summarizeFile req rag log = (inr resp, log'))
      by apply guarded_total.
    destruct Htotal as (resp & log' & Hrun).
    exists resp, log'. split; [exact Hrun |].
    exact (summarizeFile_calls req rag log log' (inr resp) Hrun).
  - assert (Htotal : ∃ resp log', askQuestion req rag log = (inr resp, log'))
      by apply guarded_total.
    destruct Htotal as (resp & log' & Hrun).
    exists resp, log'. split; [exact Hrun |].
    destruct (askQuestion_calls req rag log log' (inr resp) Hrun)
      as [-> | (_ & q & Hq & _ & ->)]; eauto.
Qed.

Lemma read_path_unavailable_is_503_no_retry_witness :
  (∃ resp, summarizeFile sample_ask_request rag_down []
             = (inr resp, [summarize_call sample_ask_request])
     ∧ status resp = 503 ∧ success_of resp = JBool false)
  ∧ (∃ resp, askQuestion sample_ask_request rag_down []
               = (inr resp, [ask_call sample_ask_request "  What is the total?  "])
       ∧ status resp = 503 ∧ success_of resp = JBool false).
Proof.
  pose proof (proj1 (read_path_unavailable_is_503_no_retry sample_ask_request
                       rag_down []) refused eq_refl eq_refl eq_refl)
    as [Hsum Hask].
  split.
  - exact (Hsum eq_refl).
  - exact (Hask "  What is the total?  " eq_refl eq_refl eq_refl).
Defined.




(** C7: [askQuestion] answers 400 with [success: false], sending nothing to
    the RAG service, when the file path is missing or when the question is
    missing or blank; for a file path and a question string that is not
    blank, the one call it makes carries the trimmed question; and whenever
    it calls the service, the request had both. *)
Theorem askQuestion_requires_path_and_question
    (req : Request) (rag : RagClient) (log : list Call) :
  (truthy (filePath_of req) = false ∨ blank_question (question_of req) →
     ∃ resp, askQuestion req rag log = (inr resp, log)
       ∧ status resp = 400 ∧ success_of resp = JBool false)
  ∧ (∀ q, truthy (filePath_of req) = true →
       to_string_throws (filePath_of req) = false →
       question_of req = JStr q → all_white_space q = false →
       ∃ r, askQuestion req rag log = (r, log ++ [ask_call req q])
         ∧ get_prop (payload (ask_call req q)) "question" = JStr (trim q))
  ∧ (∀ r log', askQuestion req rag log = (r, log') → log' ≠ log →
       truthy (filePath_of req) = true
       ∧ ∃ q, question_of req = JStr q ∧ all_white_space q = false
           ∧ log' = log ++ [ask_call req q]).
Proof.
  unfold askQuestion, ask_call, question_of, filePath_of, fileId_of.
  set (filePath := own_prop (body req) "filePath").
  set (fileId := own_prop (body req) "fileId").
  set (question := own_prop (body req) "question").
  split; [| split].
  - intros Hmissing. cbn zeta.
    destruct (truthy filePath) eqn:Hfp; run_async; [| eauto].
    destruct Hmissing as [[=] | [Hq | (q & Hq & Hblank)]].
    + rewrite Hq. cbn. eauto.
    + rewrite Hq. apply trim_empty_iff in Hblank.
      destruct (truthy (JStr q)); cbn; [| eauto].
      rewrite Hblank. cbn. eauto.
  - intros q Hfp Hlog Hq Hnb. cbn zeta.
    assert (Hne : String.eqb (trim q) "" = false).
    { apply String.eqb_neq. intros He%trim_empty_iff. congruence. }
    rewrite Hfp, Hq, (truthy_nonblank q Hnb). run_async. rewrite Hne, Hlog. cbn.
    destruct (rag log _) as [data | e]; cbn; [eauto |].
    unfold on_error. destruct (is_econnrefused e); run_async; eauto.
  - intros r log' Hrun Hcalled.
    destruct (askQuestion_calls req rag log log' r Hrun) as [-> | Hsent];
      [done | exact Hsent].
Qed.

Lemma askQuestion_requires_path_and_question_witness :
  (∃ resp, askQuestion (mkRequest [("filePath", JStr "uploads/report.pdf");
                                   ("question", JStr "   ")]) rag_up []
             = (inr resp, [])
     ∧ status resp = 400 ∧ success_of resp = JBool false)
  ∧ (∃ r, askQuestion sample_ask_request rag_up []
            = (r, [ask_call sample_ask_request "  What is the total?  "])
       ∧ get_prop (payload (ask_call sample_ask_request "  What is the total?  "))
           "question" = JStr "What is the total?").
Proof.
  split.
  - refine (proj1 (askQuestion_requires_path_and_question _ rag_up []) _).
    right. right. exists "   ". split; reflexivity.
  - exact (proj1 (proj2 (askQuestion_requires_path_and_question
             sample_ask_request rag_up []))
             "  What is the total?  " eq_refl eq_refl eq_refl eq_refl).
Defined.

(** A question that is present but is not a string is outside the two
    cases above: [question.trim] is not a function, the TypeError reaches
    the [catch] block, and the answer is 500 with nothing sent. *)
Lemma askQuestion_question_not_a_string
    (req : Request) (rag : RagClient) (log : list Call) :
  truthy (filePath_of req) = true →
  truthy (question_of req) = true →
  (∀ q, question_of req ≠ JStr q) →
  ∃ resp, askQuestion req rag log = (inr resp, log)
    ∧ status resp = 500 ∧ success_of resp = JBool false.
Proof.
  unfold askQuestion, question_of, filePath_of. intros Hfp Hq Hns.
  cbn zeta. rewrite Hfp, Hq. run_async.
  destruct (own_prop (body req) "question") as [| | b | n | q | items | props];
    cbn; eauto.
  by destruct (Hns q).
Qed.

(** C8: [indexFileAsync] never throws: it makes its one call and returns
    either the service's [response.data] or, when the call is rejected,
    the object [{ success: false, error: error.message }]. *)
Theorem indexFileAsync_never_throws
    (filePath fileId : JSValue) (rag : RagClient) (log : list Call) :
  let call := mkCall "/index-file" (index_payload filePath fileId) in
  ∃ result, indexFileAsync filePath fileId rag log = (inr result, log ++ [call])
    ∧ (∀ error, rag log call = Rejected error →
         result = JObj [("success", JBool false);
                        ("error", JStr (err_message error))])
    ∧ (∀ data, rag log call = Resolved data → result = data).
Proof.
  intros call. unfold indexFileAsync. run_async. fold call.
  destruct (rag log call) as [data | e]; cbn.
  - exists data. split; [done |]. split; [discriminate | by intros ? [= ->]].
  - eexists. split; [done |]. split; [by intros ? [= ->] | discriminate].
Qed.

Lemma indexFileAsync_never_throws_witness :
  indexFileAsync (JStr "uploads/report.pdf") JUndefined rag_down []
  = (inr (JObj [("success", JBool false);
                ("error", JStr "connect ECONNREFUSED 127.0.0.1:8000")]),
     [mkCall "/index-file" (index_payload (JStr "uploads/report.pdf") JUndefined)]).
Proof.
  destruct (indexFileAsync_never_throws (JStr "uploads/report.pdf") JUndefined
              rag_down []) as (result & Hrun & Hrej & _).
  rewrite Hrun. rewrite (Hrej refused eq_refl). reflexivity.
Defined.

End AiControllerProps.

(* ===================================================================== *)
(** * Properties of the other handlers of the AI controller *)
(* ===================================================================== *)

Module AiControllerMoreProps.
Import AiController AiControllerMore Samples JSFacts AiControllerProps.

Ltac run_more :=
  unfold try_catch, send, post, get, console_log, call_trim, read_member, throw,
    mbind, mret, Async_bind, Async_ret; cbn [existsb orb negb].

Lemma to_string_throws_length (v : JSValue) :
  to_string_throws (array_length v) = false.
Proof. by destruct v. Qed.

(** The calls of [askMultipleFiles]: none, or one, made for a non-empty
    array of file paths and a question string that is not blank. *)
Lemma askMultipleFiles_calls (req : Request) (rag : RagClient)
    (log log' : list Call) (r : JSError + Response) :
  askMultipleFiles req rag log = (r, log') →
  log' = log
  ∨ (no_file_paths (filePaths_of req) = false
     ∧ ∃ q, question_of req = JStr q ∧ all_white_space q = false
         ∧ log' = log ++ [ask_multi_call req q]).
Proof.
  unfold askMultipleFiles, ask_multi_call, question_of, filePaths_of. cbn zeta.
  destruct (no_file_paths _) eqn:Hpaths; run_more; [intros [= <- <-]; by left |].
  destruct (truthy (own_prop (body req) "question")); cbn;
    [| intros [= <- <-]; by left].
  destruct (own_prop (body req) "question") as [| | b | n | q | items | props];
    cbn; try (intros [= <- <-]; by left).
  destruct (String.eqb (trim q) "") eqn:Hne; cbn; [intros [= <- <-]; by left |].
  assert (Hnb : all_white_space q = false).
  { apply String.eqb_neq in Hne. apply not_true_is_false.
    by intros ?%trim_empty_iff. }
  rewrite to_string_throws_length. cbn.
  destruct (rag log _) as [data | e]; cbn.
  - intros [= <- <-]. right. eauto.
  - unfold on_error. destruct (is_econnrefused e); run_more;
      intros [= <- <-]; right; eauto.
Qed.

(** [askMultipleFiles] answers 400 with [success: false], sending nothing,
    when [filePaths] is not a non-empty array or when the question is
    missing, empty or a string of white space; a question that is there
    but is not a string makes [question.trim()] throw, which is answered
    500 with [success: false], nothing sent either.  Otherwise, for a
    non-empty array and a string that is not blank, it sends the array as
    it came, its entries unchecked, with the trimmed question, in one
    call; and it calls the service in no other case. *)
Theorem askMultipleFiles_requires_paths_and_question
    (req : Request) (rag : RagClient) (log : list Call) :
  (no_file_paths (filePaths_of req) = true ∨ blank_question (question_of req) →
     ∃ resp, askMultipleFiles req rag log = (inr resp, log)
       ∧ status resp = 400 ∧ success_of resp = JBool false)
  ∧ (no_file_paths (filePaths_of req) = false →
     truthy (question_of req) = true →
     (∀ q, question_of req ≠ JStr q) →
     ∃ resp, askMultipleFiles req rag log = (inr resp, log)
       ∧ status resp = 500 ∧ success_of resp = JBool false)
  ∧ (∀ first others q,
       filePaths_of req = JArr (first :: others) →
       question_of req = JStr q → all_white_space q = false →
       ∃ r, askMultipleFiles req rag log = (r, log ++ [ask_multi_call req q])
         ∧ payload (ask_multi_call req q)
           = JObj [("file_paths", JArr (first :: others));
                   ("question", JStr (trim q))])
  ∧ (∀ r log', askMultipleFiles req rag log = (r, log') → log' ≠ log →
       no_file_paths (filePaths_of req) = false
       ∧ ∃ q, question_of req = JStr q ∧ all_white_space q = false
           ∧ log' = log ++ [ask_multi_call req q]).
Proof.
  split; [| split; [| split]].
  - unfold askMultipleFiles, question_of, filePaths_of. cbn zeta.
    intros Hmissing.
    destruct (no_file_paths _) eqn:Hpaths; run_more; [eauto |].
    destruct Hmissing as [[=] | [Hq | (q & Hq & Hblank)]].
    + rewrite Hq. cbn. eauto.
    + rewrite Hq. apply trim_empty_iff in Hblank.
      destruct (truthy (JStr q)); cbn; [| eauto].
      rewrite Hblank. cbn. eauto.
  - unfold askMultipleFiles, question_of, filePaths_of. cbn zeta.
    intros -> Htruthy Hother. rewrite Htruthy. run_more.
    destruct (own_prop (body req) "question") as [| | b | n | q | items | props];
      try (by destruct (Hother q)); cbn; unfold on_error; cbn; run_more; eauto.
  - intros first others q Hpaths Hq Hnb.
    assert (Hne : String.eqb (trim q) "" = false).
    { apply String.eqb_neq. intros He%trim_empty_iff. congruence. }
    unfold ask_multi_call. rewrite Hpaths.
    unfold askMultipleFiles. unfold filePaths_of, question_of in *. cbn zeta.
    rewrite Hpaths, Hq, (truthy_nonblank q Hnb). run_more. rewrite Hne. cbn.
    destruct (rag log _) as [data | e]; cbn; [eauto |].
    unfold on_error. destruct (is_econnrefused e); run_more; eauto.
  - intros r log' Hrun Hcalled.
    destruct (askMultipleFiles_calls req rag log log' r Hrun) as [-> | Hsent];
      [done | exact Hsent].
Qed.

Lemma askMultipleFiles_requires_paths_and_question_witness :
  ∃ resp, askMultipleFiles
            (mkRequest [("filePaths", JArr []); ("question", JStr "Which?")])
            rag_up []
          = (inr resp, [])
    ∧ status resp = 400 ∧ success_of resp = JBool false.
Proof.
  refine (proj1 (askMultipleFiles_requires_paths_and_question _ rag_up []) _).
  by left.
Defined.

(** [autoTagFile] asks the service for 5 tags when the request names no
    [maxTags], and passes on any other value, [null] included.  When the
    service answers with [null] the handler, which reads the tags of the
    answer to log them, answers 500 although the call went through; any
    other answer of the service is passed on with status 200. *)
Theorem autoTagFile_defaults_and_null_answer
    (req : Request) (rag : RagClient) (log : list Call) :
  truthy (filePath_of req) = true →
  to_string_throws (filePath_of req) = false →
  (own_prop (body req) "maxTags" = JUndefined →
     get_prop (payload (auto_tag_call req)) "max_tags" = JNum 5)
  ∧ (own_prop (body req) "maxTags" ≠ JUndefined →
       get_prop (payload (auto_tag_call req)) "max_tags"
       = own_prop (body req) "maxTags")
  ∧ (∀ data, rag log (auto_tag_call req) = Resolved data →
       data = JNull ∨ data = JUndefined →
       ∃ resp, autoTagFile req rag log = (inr resp, log ++ [auto_tag_call req])
         ∧ status resp = 500 ∧ success_of resp = JBool false)
  ∧ (∀ data, rag log (auto_tag_call req) = Resolved data →
       data ≠ JNull → data ≠ JUndefined →
       autoTagFile req rag log
       = (inr (mkResponse 200 data), log ++ [auto_tag_call req])).
Proof.
  unfold filePath_of, auto_tag_call, filePath_of, fileId_of.
  intros Hfp Hlog. split; [| split; [| split]].
  - intros ->. reflexivity.
  - intros Hset. cbn. by destruct (own_prop (body req) "maxTags").
  - intros data Hrun Hnull. unfold autoTagFile. cbn zeta. rewrite Hfp.
    run_more. rewrite Hlog. cbn. rewrite Hrun.
    destruct Hnull as [-> | ->]; cbn; eauto.
  - intros data Hrun Hnn Hnu. unfold autoTagFile. cbn zeta. rewrite Hfp.
    run_more. rewrite Hlog. cbn. rewrite Hrun.
    by destruct data.
Qed.

Lemma autoTagFile_defaults_and_null_answer_witness :
  ∃ resp, autoTagFile sample_index_request (λ _ _, Resolved JNull) []
          = (inr resp, [auto_tag_call sample_index_request])
    ∧ status resp = 500 ∧ success_of resp = JBool false.
Proof.
  refine (proj1 (proj2 (proj2 (autoTagFile_defaults_and_null_answer
            sample_index_request (λ _ _, Resolved JNull) [] eq_refl eq_refl)))
            JNull eq_refl _).
  by left.
Defined.

(** [checkHealth] and [getStats] make one call each and wrap the answer of
    the service under [success: true]; for a failure they do not look at
    the error code: [checkHealth] always answers 503, with the message of
    the error as details, and [getStats] always answers 500, a refused
    connection included. *)
Theorem health_and_stats_report (req : Request) (rag : RagClient)
    (log : list Call) :
  (∀ data, rag log (mkCall "/health" JUndefined) = Resolved data →
     checkHealth req rag log
     = (inr (mkResponse 200 (JObj [("success", JBool true); ("ragService", data)])),
        log ++ [mkCall "/health" JUndefined]))
  ∧ (∀ error, rag log (mkCall "/health" JUndefined) = Rejected error →
       checkHealth req rag log
       = (inr (mkResponse 503
                 (JObj [("success", JBool false);
                        ("error", JStr "RAG service is not available");
                        ("details", JStr (err_message error))])),
          log ++ [mkCall "/health" JUndefined]))
  ∧ (∀ data, rag log (mkCall "/stats" JUndefined) = Resolved data →
       getStats req rag log
       = (inr (mkResponse 200 (JObj [("success", JBool true); ("stats", data)])),
          log ++ [mkCall "/stats" JUndefined]))
  ∧ (∀ error, rag log (mkCall "/stats" JUndefined) = Rejected error →
       getStats req rag log
       = (inr (mkResponse 500 (failure (JStr "Failed to get stats"))),
          log ++ [mkCall "/stats" JUndefined])).
Proof.
  unfold checkHealth, getStats. run_more.
  repeat split; intros ? ->; reflexivity.
Qed.

Lemma health_and_stats_report_witness :
  getStats (mkRequest []) rag_down []
  = (inr (mkResponse 500 (failure (JStr "Failed to get stats"))),
     [mkCall "/stats" JUndefined]).
Proof.
  exact (proj2 (proj2 (proj2 (health_and_stats_report (mkRequest []) rag_down [])))
           refused eq_refl).
Defined.

Ltac split_handler :=
  repeat first
    [ match goal with
      | |- context [match ?rag ?log ?c with Resolved _ => _ | Rejected _ => _ end] =>
          let Hrun := fresh "Hrun" in destruct (rag log c) eqn:Hrun; cbn
      | |- context [if ?b then _ else _] =>
          let Hb := fresh "Hb" in destruct b eqn:Hb; cbn
      | |- context [match ?v with JUndefined => _ | _ => _ end] =>
          destruct v; cbn
      end ].

(** Whatever the endpoint, the request and the behaviour of the service:
    the handler answers (nothing escapes its [catch]), after at most one
    call to the service; the status is 200, 400, 500 or 503; an answer
    other than 200 carries [success: false]; and a 200 answer is only given
    after a call that the service resolved. *)
Theorem every_endpoint_answers (e : Endpoint) (req : Request)
    (rag : RagClient) (log : list Call) :
  ∃ resp log',
    route e req rag log = (inr resp, log')
    ∧ (log' = log ∨ ∃ c, log' = log ++ [c])
    ∧ status resp ∈ [200; 400; 500; 503]
    ∧ (status resp ≠ 200 → success_of resp = JBool false)
    ∧ (status resp = 200 →
         ∃ c data, log' = log ++ [c] ∧ rag log c = Resolved data).
Proof.
  destruct e; cbn [route];
    unfold indexFile, askQuestion, summarizeFile, checkHealth, getStats,
      autoTagFile, askMultipleFiles, generateDocument, on_error;
    cbn zeta; run_more; split_handler;
    (eexists _, _; split; [reflexivity |]);
    cbn [status];
    (split; [by eauto |]);
    (split; [set_solver |]);
    (split; [try done; by intros [] | try done; eauto]).
Qed.

End AiControllerMoreProps.

(* ===================================================================== *)
(** * Properties of the File collection *)
(* ===================================================================== *)

Module DriveProps.
Import Drive Samples.

Local Open Scope Z_scope.

(** ** The handlers at work *)

Example getTrash_sample :
  getTrash 6000 sample_db
  = [mkTrashEntry "f2" sample_trashed 30 (5000 + 30 * day_ms)].
Proof. by vm_compute. Qed.

Example getFiles_sample :
  getFiles None sample_db = [("f1", sample_live)].
Proof. by vm_compute. Qed.

Example toggleStar_twice :
  let once := (toggleStar "f1" 7000 sample_db).2 in
  let twice := (toggleStar "f1" 8000 once).2 in
  (star_of <$> files once !! "f1") = Some (Some true, Some 7000)
  ∧ (star_of <$> files twice !! "f1") = Some (Some false, None).
Proof. by vm_compute. Qed.

(** ** Listings *)

Lemma elem_of_find (query : File → bool) (coll : gmap string File)
    (doc : string * File) :
  doc ∈ find query coll ↔ query doc.2 = true ∧ coll !! doc.1 = Some doc.2.
Proof.
  unfold find. rewrite list_elem_of_filter, elem_of_map_to_list'. done.
Qed.

Lemma NoDup_find_ids (query : File → bool) (coll : gmap string File) :
  NoDup (find query coll).*1.
Proof.
  unfold find. eapply NoDup_fmap_fst.
  - intros id f1 f2 [_ H1]%list_elem_of_filter [_ H2]%list_elem_of_filter.
    apply elem_of_map_to_list in H1, H2. congruence.
  - apply NoDup_filter, NoDup_map_to_list.
Qed.

Lemma elem_of_sorted {A} (R : relation A) `{∀ x y, Decision (R x y)}
    (l : list A) (x : A) :
  x ∈ merge_sort R l ↔ x ∈ l.
Proof. by rewrite merge_sort_Permutation. Qed.

Lemma elem_of_limit {A} (n : Z) (l : list A) (x : A) :
  x ∈ limit n l → x ∈ l.
Proof.
  unfold limit. destruct (n =? 0); [done |]. apply subseteq_take.
Qed.

Lemma elem_of_getFiles (p : option string) (db : Db) (doc : string * File) :
  doc ∈ getFiles p db ↔
  files db !! doc.1 = Some doc.2
  ∧ folder doc.2 = or_null p ∧ is_true (isDeleted doc.2) = false.
Proof.
  unfold getFiles. rewrite elem_of_sorted, elem_of_find.
  rewrite andb_true_iff, negb_true_iff. unfold same_folder.
  rewrite bool_decide_eq_true. tauto.
Qed.

Lemma elem_of_getStarredFiles (db : Db) (doc : string * File) :
  doc ∈ getStarredFiles db ↔
  files db !! doc.1 = Some doc.2
  ∧ is_true (isStarred doc.2) = true ∧ is_true (isDeleted doc.2) = false.
Proof.
  unfold getStarredFiles. rewrite elem_of_sorted, elem_of_find.
  rewrite andb_true_iff, negb_true_iff. tauto.
Qed.

Lemma elem_of_getRecentFiles (n : option Z) (db : Db) (docs : list (string * File))
    (doc : string * File) :
  getRecentFiles n db = inr docs → doc ∈ docs →
  files db !! doc.1 = Some doc.2 ∧ is_true (isDeleted doc.2) = false.
Proof.
  unfold getRecentFiles. destruct n as [n |]; [| discriminate].
  intros [= <-] Hin%elem_of_limit.
  apply elem_of_sorted, elem_of_find in Hin.
  rewrite negb_true_iff in Hin. tauto.
Qed.

Lemma elem_of_getTrash (now : Date) (db : Db) (id : string) (f : File) :
  (∃ entry, entry ∈ getTrash now db ∧ trashedId entry = id ∧ trashed entry = f)
  ↔ files db !! id = Some f ∧ is_true (isDeleted f) = true.
Proof.
  unfold getTrash. split.
  - intros (entry & Hin & <- & <-).
    apply list_elem_of_fmap in Hin as (doc & -> & Hdoc).
    apply elem_of_sorted, elem_of_find in Hdoc. cbn. tauto.
  - intros [Hlook Hdel]. exists (with_expiry now (id, f)). split; [| done].
    apply list_elem_of_fmap. exists (id, f). split; [done |].
    apply elem_of_sorted, elem_of_find. done.
Qed.

Lemma getTrash_ids (now : Date) (db : Db) :
  trashedId <$> getTrash now db
  = (merge_sort (desc_by deletedAt) (find (λ f, is_true (isDeleted f)) (files db))).*1.
Proof.
  unfold getTrash. rewrite <- list_fmap_compose. done.
Qed.

Lemma NoDup_getTrash (now : Date) (db : Db) :
  NoDup (trashedId <$> getTrash now db).
Proof.
  rewrite getTrash_ids, merge_sort_Permutation. apply NoDup_find_ids.
Qed.

(** C10: the listings [getFiles], [getStarredFiles] and [getRecentFiles]
    return documents of the collection whose [isDeleted] flag is not
    [true]; [getTrash] lists, once each, exactly the documents whose flag
    is [true]; so no [_id] is in both a normal listing and the trash. *)
Theorem listings_exclude_trash
    (db : Db) (now : Date) (folderParam : option string) (parsedLimit : option Z) :
  (∀ doc, doc ∈ getFiles folderParam db →
     files db !! doc.1 = Some doc.2 ∧ is_true (isDeleted doc.2) = false)
  ∧ (∀ doc, doc ∈ getStarredFiles db →
       files db !! doc.1 = Some doc.2 ∧ is_true (isDeleted doc.2) = false)
  ∧ (∀ docs doc, getRecentFiles parsedLimit db = inr docs → doc ∈ docs →
       files db !! doc.1 = Some doc.2 ∧ is_true (isDeleted doc.2) = false)
  ∧ (∀ id f,
       (∃ entry, entry ∈ getTrash now db
                 ∧ trashedId entry = id ∧ trashed entry = f)
       ↔ files db !! id = Some f ∧ is_true (isDeleted f) = true)
  ∧ NoDup (trashedId <$> getTrash now db)
  ∧ (∀ doc entry,
       doc ∈ getFiles folderParam db ∨ doc ∈ getStarredFiles db
       ∨ (∃ docs, getRecentFiles parsedLimit db = inr docs ∧ doc ∈ docs) →
       entry ∈ getTrash now db →
       trashedId entry ≠ doc.1).
Proof.
  assert (Hnormal : ∀ doc,
    doc ∈ getFiles folderParam db ∨ doc ∈ getStarredFiles db
    ∨ (∃ docs, getRecentFiles parsedLimit db = inr docs ∧ doc ∈ docs) →
    files db !! doc.1 = Some doc.2 ∧ is_true (isDeleted doc.2) = false).
  { intros doc [H | [H | (docs & Hrun & H)]].
    - apply elem_of_getFiles in H. tauto.
    - apply elem_of_getStarredFiles in H. tauto.
    - eapply elem_of_getRecentFiles; eauto. }
  split; [intros doc H; apply Hnormal; auto |].
  split; [intros doc H; apply Hnormal; auto |].
  split; [intros docs doc Hrun H; apply Hnormal; eauto |].
  split; [apply elem_of_getTrash |].
  split; [apply NoDup_getTrash |].
  intros doc entry Hdoc Hentry Heq.
  apply Hnormal in Hdoc as [Hlook Hlive].
  assert (Htrash : files db !! trashedId entry = Some (trashed entry)
                   ∧ is_true (isDeleted (trashed entry)) = true).
  { apply (elem_of_getTrash now). eauto. }
  destruct Htrash as [Hlook' Hdead]. rewrite Heq in Hlook'. congruence.
Qed.

Lemma listings_exclude_trash_witness :
  is_true (isDeleted sample_live) = false
  ∧ trashedId (with_expiry 6000 ("f2", sample_trashed)) ≠ "f1".
Proof.
  destruct (listings_exclude_trash sample_db 6000 None (Some 20))
    as (Hfiles & _ & _ & _ & _ & Hdisjoint).
  assert (Hin : ("f1", sample_live) ∈ getFiles None sample_db).
  { apply elem_of_getFiles. by vm_compute. }
  split.
  - exact (proj2 (Hfiles ("f1", sample_live) Hin)).
  - apply (Hdisjoint ("f1", sample_live)); [by left |].
    apply list_elem_of_fmap. exists ("f2", sample_trashed). split; [done |].
    apply elem_of_sorted, elem_of_find. by vm_compute.
Defined.

(** The listing of a folder's files by [getFolderById] is not one of the
    listings above: its query has no [isDeleted] condition, and a trashed
    file of the folder is listed. *)
Example getFolderById_lists_trashed :
  getFolderById "d7" sample_folder_db = inr [("f3", sample_trashed_in_folder)]
  ∧ is_true (isDeleted sample_trashed_in_folder) = true.
Proof. by vm_compute. Qed.

(** ** The starred flag *)

Lemma star_untouched_refl (m : gmap string File) : star_untouched m m.
Proof. intros id f' Hf. left. eauto. Qed.

(** What [save] writes differs from the document that the handler left
    in the defaults and in [updatedAt] at most. *)
Lemma written_cases (stored : option File) (doc : File) (now : Date) :
  written stored doc now = with_defaults doc
  ∨ written stored doc now = set_updatedAt (with_defaults doc) now.
Proof. unfold written. case_bool_decide; auto. Qed.

Lemma isStarred_written (stored : option File) (doc : File) (now : Date) :
  isStarred (written stored doc now) = Some (default false (isStarred doc)).
Proof. by destruct (written_cases stored doc now) as [-> | ->]. Qed.

Lemma starredAt_written (stored : option File) (doc : File) (now : Date) :
  starredAt (written stored doc now) = starredAt doc.
Proof. by destruct (written_cases stored doc now) as [-> | ->]. Qed.

Lemma with_defaults_idemp (doc : File) :
  with_defaults (with_defaults doc) = with_defaults doc.
Proof. by destruct doc as [? ? ? ? ? ? ? ? [] ? [] ? ? ? ?]. Qed.

Lemma with_defaults_updatedAt (doc : File) (now : Date) :
  with_defaults (set_updatedAt doc now) = set_updatedAt (with_defaults doc) now.
Proof. done. Qed.

Lemma star_of_written (stored : option File) (doc : File) (now : Date) :
  star_of (with_defaults (written stored doc now)) = star_of (with_defaults doc).
Proof.
  destruct (written_cases stored doc now) as [-> | ->];
    by destruct doc as [? ? ? ? ? ? ? ? [] ? [] ? ? ? ?].
Qed.

Lemma star_untouched_insert (m : gmap string File) (id : string) (f doc : File) :
  m !! id = Some f → star_of (with_defaults doc) = star_of (with_defaults f) →
  star_untouched m (<[id := doc]> m).
Proof.
  intros Hf Hstar id' f'. destruct (decide (id = id')) as [<- | Hne].
  - rewrite lookup_insert_eq. intros [= <-]. left. eauto.
  - rewrite lookup_insert_ne by done. intros Hf'. left. eauto.
Qed.

Lemma star_untouched_create (m : gmap string File) (id : string) (doc : File) :
  m !! id = None → star_of doc = (Some false, None) →
  star_untouched m (<[id := doc]> m).
Proof.
  intros Hnone Hstar id' f'. destruct (decide (id = id')) as [<- | Hne].
  - rewrite lookup_insert_eq. intros [= <-]. right. eauto.
  - rewrite lookup_insert_ne by done. intros Hf'. left. eauto.
Qed.

Lemma star_untouched_delete (m : gmap string File) (id : string) :
  star_untouched m (delete id m).
Proof.
  intros id' f' Hf'. apply lookup_delete_Some in Hf' as [_ Hf']. left. eauto.
Qed.

Lemma star_untouched_filter (P : string * File → Prop) `{∀ x, Decision (P x)}
    (m : gmap string File) :
  star_untouched m (filter P m).
Proof.
  intros id' f' Hf'. apply map_lookup_filter_Some in Hf' as [Hf' _]. left. eauto.
Qed.

Lemma star_of_new (doc : File) (now : Date) :
  star_of doc = (Some false, None) →
  star_of (written None doc now) = (Some false, None).
Proof.
  destruct doc as [? ? ? ? ? ? ? ? starred ? deleted ? ? ? ?]. cbn.
  intros [= -> ->]. unfold written. case_bool_decide; by destruct deleted.
Qed.

(** A handler that ends in [save] of a document with the starred paths of
    the stored one leaves them as they were, whether the save goes through
    or not. *)
Lemma save_and_reply_untouched (ok : nat) (id : string) (f doc : File)
    (now : Date) (db db0 : Db) :
  files db = files db0 →
  files db0 !! id = Some f → star_of doc = star_of f →
  star_untouched (files db0) (files (save_and_reply ok id doc now db).2).
Proof.
  intros Hsame Hf Hstar. unfold save_and_reply, save.
  destruct (validate doc); cbn; rewrite Hsame.
  - eapply star_untouched_insert; [done |]. rewrite star_of_written.
    destruct doc as [? ? ? ? ? ? ? ? ? ? [] ? ? ? ?],
             f as [? ? ? ? ? ? ? ? ? ? [] ? ? ? ?];
      cbn in *; by injection Hstar as -> ->.
  - apply star_untouched_refl.
Qed.

Lemma create_untouched (newId : string) (doc : File) (now : Date) (db db' : Db) :
  star_of doc = (Some false, None) →
  create newId doc now db = Some db' →
  star_untouched (files db) (files db').
Proof.
  intros Hstar. unfold create, save. case_bool_decide as Htaken; [done |].
  destruct (validate doc); [| done]. intros [= <-]. cbn.
  assert (Hnone : files db !! newId = None) by by apply eq_None_not_Some.
  rewrite Hnone. apply star_untouched_create; [done | by apply star_of_new].
Qed.

Section Handlers.

Variable path_extname : string → string.
Variable toLowerCase : string → string.
Variable regex_valid : string → bool.
Variable regex_test : string → string → bool.
Variable copy_throws : string → bool.

Abbreviation handle :=
  (handle path_extname toLowerCase regex_valid regex_test copy_throws).
Abbreviation serve :=
  (serve path_extname toLowerCase regex_valid regex_test copy_throws).

(** Every handler but [toggleStar] leaves the starred paths of the
    collection as they were. *)
Lemma handle_star_untouched (op : Op) (now : Date) (db : Db) :
  is_toggleStar op = false →
  star_untouched (files db) (files (handle op now db).2).
Proof.
  destruct op; cbn [is_toggleStar Drive.handle]; intros Hop; try discriminate.
  - unfold moveToTrash. destruct (files db !! id) eqn:Hf; cbn;
      [by eapply save_and_reply_untouched | apply star_untouched_refl].
  - unfold restoreFromTrash. destruct (files db !! id) eqn:Hf; cbn;
      [by eapply save_and_reply_untouched | apply star_untouched_refl].
  - unfold permanentDelete. destruct (files db !! id) eqn:Hf; cbn;
      [apply star_untouched_delete | apply star_untouched_refl].
  - unfold emptyTrash, deleteMany. cbn. apply star_untouched_filter.
  - unfold autoCleanupTrash, deleteMany. cbn. apply star_untouched_filter.
  - unfold updateTags. destruct (files db !! id) eqn:Hf; cbn;
      [by eapply save_and_reply_untouched | apply star_untouched_refl].
  - unfold uploadFile. destruct upload as [up |]; [| apply star_untouched_refl].
    destruct (folder_exists _ db); [| apply star_untouched_refl].
    destruct (create _ _ _ _) as [db' |] eqn:Hnew; cbn;
      [| apply star_untouched_refl].
    eapply create_untouched; [| exact Hnew]. reflexivity.
  - unfold moveFile. destruct (files db !! id) eqn:Hf;
      [| apply star_untouched_refl].
    destruct (folder_exists _ db); [| apply star_untouched_refl].
    destruct (name_taken _ _ _ _); [apply star_untouched_refl |].
    by eapply save_and_reply_untouched.
  - unfold renameFile. destruct (or_null newName); [| apply star_untouched_refl].
    destruct (String.eqb _ _); [apply star_untouched_refl |].
    destruct (files db !! id) eqn:Hf; [| apply star_untouched_refl].
    destruct (name_taken _ _ _ _); [apply star_untouched_refl |].
    by eapply save_and_reply_untouched.
  - unfold deleteFile. destruct (files db !! id) eqn:Hf; cbn;
      [apply star_untouched_delete | apply star_untouched_refl].
  - unfold enableSharing. destruct (files db !! fileId) eqn:Hf;
      [| apply star_untouched_refl].
    destruct (_ && _); [apply star_untouched_refl |].
    by eapply save_and_reply_untouched.
  - unfold disableSharing. destruct (files db !! fileId) eqn:Hf; cbn;
      [by eapply save_and_reply_untouched | apply star_untouched_refl].
  - unfold uploadNewVersion. destruct upload as [up |];
      [| apply star_untouched_refl].
    destruct (files db !! fileId) eqn:Hf; [| apply star_untouched_refl].
    destruct (validate_version _); [| apply star_untouched_refl].
    unfold save. destruct (validate _); cbn; [| apply star_untouched_refl].
    eapply star_untouched_insert; [done |]. rewrite star_of_written.
    by destruct f as [? ? ? ? ? ? ? ? ? ? [] ? ? ? ?].
  - unfold restoreVersion. destruct (files db !! fileId) eqn:Hf;
      [| apply star_untouched_refl].
    destruct (_ =? _); [apply star_untouched_refl |].
    destruct (list_find _ _) as [[i v] |]; [| apply star_untouched_refl].
    destruct (validate_version _); [| apply star_untouched_refl].
    case_bool_decide; [| apply star_untouched_refl].
    destruct (copy_throws _); [apply star_untouched_refl |].
    by eapply save_and_reply_untouched.
  - unfold deleteFolder. destruct (folders db !! id); cbn;
      [| apply star_untouched_refl].
    destruct (regex_valid _); cbn;
      [apply star_untouched_filter | apply star_untouched_refl].
Qed.

Lemma star_of_defaults_eq (f f' : File) :
  star_of (with_defaults f') = star_of (with_defaults f) →
  starredAt f' = starredAt f
  ∧ (isStarred f' = Some true ↔ isStarred f = Some true).
Proof.
  unfold star_of, with_defaults. cbn. intros [= Hflag Hdate]. split; [done |].
  destruct (isStarred f') as [[] |], (isStarred f) as [[] |]; cbn in Hflag;
    split; intros; congruence.
Qed.

Lemma star_untouched_invariant (db db' : Db) :
  star_untouched (files db) (files db') →
  star_invariant db → star_invariant db'.
Proof.
  intros Hsame Hinv id f' Hf'.
  destruct (Hsame id f' Hf') as [(f & Hf & Hstar) | [_ Hstar]];
    unfold star_consistent.
  - apply star_of_defaults_eq in Hstar as [Hdate Hflag].
    rewrite Hdate, Hflag. exact (Hinv id f Hf).
  - injection Hstar as -> ->. split; [done | discriminate].
Qed.

Lemma toggled_consistent (f : File) (now : Date) :
  let starred := negb (is_true (isStarred f)) in
  star_consistent (set_star f (Some starred) (if starred then Some now else None)).
Proof.
  unfold star_consistent. cbn. destruct (is_true (isStarred f)); cbn;
    split; (done || discriminate).
Qed.

Lemma written_consistent (stored : option File) (doc : File) (now : Date) :
  star_consistent doc → star_consistent (written stored doc now).
Proof.
  unfold star_consistent. intros Hdoc.
  assert (Hsame : starredAt (written stored doc now) = starredAt doc
                  ∧ (isStarred (written stored doc now) = Some true
                     ↔ isStarred doc = Some true)).
  { destruct (written_cases stored doc now) as [-> | ->]; cbn;
      (split; [done |]); destruct (isStarred doc) as [[] |]; cbn;
      split; intros; congruence. }
  destruct Hsame as [-> ->]. exact Hdoc.
Qed.

Lemma toggleStar_invariant (id : string) (now : Date) (db : Db) :
  star_invariant db → star_invariant (toggleStar id now db).2.
Proof.
  intros Hinv. unfold toggleStar. destruct (files db !! id) as [f |] eqn:Hf;
    [| exact Hinv].
  unfold save_and_reply, save. destruct (validate _); [| exact Hinv].
  intros id' f'. cbn. destruct (decide (id = id')) as [<- | Hne].
  - rewrite lookup_insert_eq. intros [= <-]. apply written_consistent.
    apply (toggled_consistent f now).
  - rewrite lookup_insert_ne by done. apply Hinv.
Qed.

Lemma handle_star_invariant (op : Op) (now : Date) (db : Db) :
  star_invariant db → star_invariant (handle op now db).2.
Proof.
  intros Hinv. destruct (is_toggleStar op) eqn:Hop.
  - destruct op; try discriminate. apply toggleStar_invariant, Hinv.
  - eapply star_untouched_invariant; [| exact Hinv].
    by apply handle_star_untouched.
Qed.

(** The invariant holds after every history of requests on a database
    that starts empty. *)
Lemma star_invariant_always (history : list (Op * Date)) :
  star_invariant (serve history empty_db).
Proof.
  assert (Hfrom : ∀ db, star_invariant db →
    star_invariant (serve history db)).
  { induction history as [| [op now] rest IH]; intros db Hinv; [exact Hinv |].
    cbn. apply IH, handle_star_invariant, Hinv. }
  apply Hfrom. intros id f Hf. cbn in Hf. by rewrite lookup_empty in Hf.
Qed.

(** C9: [toggleStar] flips [isStarred] and writes [starredAt] with it, the
    current date when the file becomes starred and [null] when it stops
    being so, which makes the two paths agree; no other handler that
    writes the File collection assigns either path: [starredAt] stays what
    it was in every document, [isStarred] stays what a handler reads (a
    document that lacked the flag may get it written as [false], the
    default that mongoose gives it when it loads the document), and new
    documents have the defaults; hence every handler keeps the invariant
    that [starredAt] is set exactly when [isStarred] is [true]. *)
Theorem toggleStar_keeps_star_invariant
    (op : Op) (id : string) (now : Date) (db : Db) :
  (∀ f, files db !! id = Some f → validate f = true →
     ∃ f', toggleStar id now db = (200%nat, with_files db (<[id := f']> (files db)))
       ∧ isStarred f' = Some (negb (is_true (isStarred f)))
       ∧ starredAt f' = (if is_true (isStarred f) then None else Some now)
       ∧ star_consistent f')
  ∧ (is_toggleStar op = false →
       star_untouched (files db) (files (handle op now db).2))
  ∧ (star_invariant db → star_invariant (handle op now db).2).
Proof.
  split; [| split].
  - intros f Hf Hvalid. unfold toggleStar, save_and_reply, save. rewrite Hf.
    replace (validate _) with true by (symmetry; exact Hvalid).
    eexists. split; [reflexivity |].
    rewrite isStarred_written, starredAt_written. cbn.
    split; [done |]. split; [by destruct (is_true (isStarred f)) |].
    apply written_consistent, (toggled_consistent f now).
  - apply handle_star_untouched.
  - apply handle_star_invariant.
Qed.

End Handlers.

Lemma sample_db_star_invariant : star_invariant sample_db.
Proof.
  intros id f. unfold sample_db. cbn.
  intros [[_ <-] | [_ [[_ <-] | [_ Hf]]%lookup_insert_Some]]%lookup_insert_Some.
  - split; [done | discriminate].
  - split; done.
  - by rewrite lookup_empty in Hf.
Qed.

Lemma toggleStar_keeps_star_invariant_witness :
  (∃ f', toggleStar "f1" 7000 sample_db
           = (200%nat, with_files sample_db (<["f1" := f']> (files sample_db)))
     ∧ isStarred f' = Some true
     ∧ starredAt f' = Some 7000
     ∧ star_consistent f')
  ∧ star_untouched (files sample_db)
      (files (handle id id (λ _, true) (λ _ _, false) (λ _, false)
                (MoveToTrash "f1") 7000 sample_db).2)
  ∧ star_invariant (handle id id (λ _, true) (λ _ _, false) (λ _, false)
                      (ToggleStar "f2") 7000 sample_db).2.
Proof.
  split; [| split].
  - refine (proj1 (toggleStar_keeps_star_invariant id id (λ _, true) (λ _ _, false)
                     (λ _, false)
                     EmptyTrash "f1" 7000 sample_db) sample_live _ _);
      by vm_compute.
  - exact (proj1 (proj2 (toggleStar_keeps_star_invariant id id (λ _, true) (λ _ _, false)
                     (λ _, false)
                     (MoveToTrash "f1") "f1" 7000 sample_db)) eq_refl).
  - exact (proj2 (proj2 (toggleStar_keeps_star_invariant id id (λ _, true) (λ _ _, false)
                     (λ _, false)
                     (ToggleStar "f2") "f2" 7000 sample_db))
             sample_db_star_invariant).
Defined.

End DriveProps.

(* ===================================================================== *)
(** * The life of a document: trash, deletion, moves, sharing, versions *)
(* ===================================================================== *)

Module DriveLifecycle.
Import Drive Samples DriveProps.

Local Open Scope Z_scope.

(** ** Saving *)

Lemma save_and_reply_valid (ok : nat) (id : string) (doc : File) (now : Date)
    (db : Db) :
  validate doc = true →
  save_and_reply ok id doc now db
  = (ok, with_files db (<[id := written (files db !! id) doc now]> (files db))).
Proof. intros Hvalid. unfold save_and_reply, save. by rewrite Hvalid. Qed.

Lemma save_and_reply_files (ok : nat) (id : string) (doc : File) (now : Date)
    (db : Db) :
  files (save_and_reply ok id doc now db).2 = files db
  ∨ files (save_and_reply ok id doc now db).2
    = <[id := written (files db !! id) doc now]> (files db).
Proof.
  unfold save_and_reply, save. destruct (validate doc); cbn; auto.
Qed.

(** A handler that changed a path has its document stamped. *)
Lemma written_changed (f doc : File) (now : Date) :
  doc ≠ f → written (Some f) doc now = set_updatedAt (with_defaults doc) now.
Proof.
  intros Hne. unfold written. case_bool_decide as Heq; [| done].
  by injection Heq as ->.
Qed.

Lemma written_names (stored : option File) (doc : File) (now : Date) :
  originalName (written stored doc now) = originalName doc
  ∧ extension (written stored doc now) = extension doc
  ∧ folder (written stored doc now) = folder doc.
Proof. by destruct (written_cases stored doc now) as [-> | ->]. Qed.

Lemma validate_written (stored : option File) (doc : File) (now : Date) :
  validate (written stored doc now) = validate doc.
Proof. by destruct (written_cases stored doc now) as [-> | ->]. Qed.

(** ** Trash *)

Lemma in_trash_iff (now : Date) (db : Db) (id : string) :
  (∃ entry, entry ∈ getTrash now db ∧ trashedId entry = id)
  ↔ ∃ f, files db !! id = Some f ∧ is_true (isDeleted f) = true.
Proof.
  split.
  - intros (entry & Hin & Hid). exists (trashed entry).
    apply (elem_of_getTrash now). eauto.
  - intros (f & Hf). apply (elem_of_getTrash now) in Hf as (entry & ? & ? & ?).
    eauto.
Qed.

(** Moving a file to the trash and restoring it: in between, the file is in
    the trash listing and in none of the normal ones; afterwards it is the
    document it was, a flag that it lacked written at its default, with
    [isDeleted: false], no [deletedAt] and a new [updatedAt]; no other
    document changes. *)
Theorem trash_round_trip (id : string) (now later : Date) (db : Db) (f : File) :
  files db !! id = Some f →
  validate f = true →
  let trashed_db := (moveToTrash id now db).2 in
  let restored_db := (restoreFromTrash id later trashed_db).2 in
  (moveToTrash id now db).1 = 200%nat
  ∧ (∃ entry, entry ∈ getTrash later trashed_db ∧ trashedId entry = id
              ∧ deletedAt (trashed entry) = Some now)
  ∧ (∀ p doc, doc ∈ getFiles p trashed_db ∨ doc ∈ getStarredFiles trashed_db
              ∨ (∃ n docs, getRecentFiles n trashed_db = inr docs ∧ doc ∈ docs) →
              doc.1 ≠ id)
  ∧ (restoreFromTrash id later trashed_db).1 = 200%nat
  ∧ files restored_db !! id
    = Some (set_updatedAt (set_trash (with_defaults f) (Some false) None) later)
  ∧ (∀ entry, entry ∈ getTrash later restored_db → trashedId entry ≠ id)
  ∧ (∀ other, other ≠ id → files restored_db !! other = files db !! other).
Proof.
  intros Hf Hvalid trashed_db restored_db.
  set (in_trash := written (Some f) (set_trash f (Some true) (Some now)) now).
  assert (Hflags : isDeleted in_trash = Some true
                   ∧ deletedAt in_trash = Some now
                   ∧ validate in_trash = true).
  { unfold in_trash. rewrite validate_written.
    by destruct (written_cases (Some f) (set_trash f (Some true) (Some now)) now)
      as [-> | ->]. }
  destruct Hflags as (Hdeleted & Hdate & Hvalid').
  assert (Hmove : moveToTrash id now db
    = (200%nat, with_files db (<[id := in_trash]> (files db)))).
  { unfold moveToTrash. rewrite Hf, save_and_reply_valid by done.
    by rewrite Hf. }
  assert (Htrashed : files trashed_db !! id = Some in_trash).
  { unfold trashed_db. rewrite Hmove. cbn. apply lookup_insert_eq. }
  assert (Hout : written (Some in_trash) (set_trash in_trash (Some false) None)
                   later
                 = set_updatedAt (set_trash (with_defaults f) (Some false) None)
                     later).
  { rewrite written_changed.
    - unfold in_trash.
      by destruct (written_cases (Some f) (set_trash f (Some true) (Some now)) now)
        as [-> | ->].
    - intros Heq. rewrite <- Heq in Hdeleted. discriminate. }
  assert (Hrestore : restoreFromTrash id later trashed_db
    = (200%nat, with_files trashed_db
         (<[id := set_updatedAt (set_trash (with_defaults f) (Some false) None)
                    later]>
            (files trashed_db)))).
  { unfold restoreFromTrash. rewrite Htrashed.
    rewrite save_and_reply_valid by done. by rewrite Htrashed, Hout. }
  split; [by rewrite Hmove |].
  split.
  { exists (with_expiry later (id, in_trash)).
    split; [| done].
    apply list_elem_of_fmap. eexists. split; [done |].
    apply elem_of_sorted, elem_of_find. split; [| done]. cbn.
    by rewrite Hdeleted. }
  split.
  { intros p doc Hdoc Heq.
    assert (Hlive : files trashed_db !! doc.1 = Some doc.2
                    ∧ is_true (isDeleted doc.2) = false).
    { destruct Hdoc as [H | [H | (n & docs & Hrun & H)]].
      - apply elem_of_getFiles in H. tauto.
      - apply elem_of_getStarredFiles in H. tauto.
      - eapply elem_of_getRecentFiles; eauto. }
    destruct Hlive as [Hlook Hlive]. rewrite Heq, Htrashed in Hlook.
    injection Hlook as Hdoc2. rewrite <- Hdoc2, Hdeleted in Hlive.
    discriminate. }
  split; [by rewrite Hrestore |].
  assert (Hrestored : files restored_db !! id
    = Some (set_updatedAt (set_trash (with_defaults f) (Some false) None) later)).
  { unfold restored_db. rewrite Hrestore. cbn. apply lookup_insert_eq. }
  split; [exact Hrestored |].
  split.
  { intros entry Hin Heq.
    assert (Hdead : ∃ g, files restored_db !! id = Some g
                         ∧ is_true (isDeleted g) = true).
    { apply (in_trash_iff later). eauto. }
    destruct Hdead as (g & Hg & Hdead). rewrite Hrestored in Hg.
    injection Hg as Hg. rewrite <- Hg in Hdead. discriminate. }
  intros other Hne. unfold restored_db. rewrite Hrestore. cbn.
  rewrite lookup_insert_ne by done.
  unfold trashed_db. rewrite Hmove. cbn. by rewrite lookup_insert_ne.
Qed.

Lemma trash_round_trip_witness :
  files (restoreFromTrash "f1" 9000 (moveToTrash "f1" 8000 sample_db).2).2 !! "f1"
  = Some (set_updatedAt (set_trash (with_defaults sample_live) (Some false) None)
            9000).
Proof.
  refine (proj1 (proj2 (proj2 (proj2 (proj2
            (trash_round_trip "f1" 8000 9000 sample_db sample_live _ _)))))).
  - by vm_compute.
  - reflexivity.
Defined.

Lemma lookup_deleteMany (query : File → bool) (db : Db) (id : string) (f : File) :
  files (deleteMany query db) !! id = Some f
  ↔ files db !! id = Some f ∧ query f = false.
Proof. unfold deleteMany. cbn. apply map_lookup_filter_Some. Qed.

Lemma elem_of_unlink_all (stored : list string) (db : Db) (n : string) :
  n ∈ disk (unlink_all stored db) ↔ n ∈ disk db ∧ n ∉ stored.
Proof.
  unfold unlink_all. cbn. rewrite elem_of_difference, elem_of_list_to_set. done.
Qed.

Lemma stored_names_of_find (query : File → bool) (coll : gmap string File)
    (n : string) :
  n ∈ (λ doc : string * File, currentFileName doc.2) <$> find query coll
  ↔ ∃ id f, coll !! id = Some f ∧ query f = true ∧ currentFileName f = n.
Proof.
  rewrite list_elem_of_fmap. split.
  - intros ([id f] & -> & [Hq Hf]%elem_of_find). eauto.
  - intros (id & f & Hf & Hq & <-). exists (id, f). split; [done |].
    by apply elem_of_find.
Qed.

Lemma getTrash_nil (now : Date) (db : Db) :
  (∀ id f, files db !! id = Some f → is_true (isDeleted f) = false) →
  getTrash now db = [].
Proof.
  intros Hlive. apply elem_of_nil_inv. intros entry Hin.
  assert (Hdead : files db !! trashedId entry = Some (trashed entry)
                  ∧ is_true (isDeleted (trashed entry)) = true).
  { apply (elem_of_getTrash now). eauto. }
  destruct Hdead as [Hf Hdead]. apply Hlive in Hf. congruence.
Qed.

(** Emptying the trash deletes exactly the documents whose [isDeleted]
    flag is [true]: the trash listing is empty afterwards, the normal
    listings hold what they held, and the uploads directory loses exactly
    the stored files of the deleted documents; their version records stay
    in the FileVersion collection. *)
Theorem emptyTrash_removes_exactly_the_trash (now : Date) (db : Db) :
  let after := (emptyTrash db).2 in
  (∀ id f, files after !! id = Some f
           ↔ files db !! id = Some f ∧ is_true (isDeleted f) = false)
  ∧ getTrash now after = []
  ∧ (∀ p doc, doc ∈ getFiles p after ↔ doc ∈ getFiles p db)
  ∧ (∀ n, n ∈ disk after
          ↔ n ∈ disk db
            ∧ ¬ ∃ id f, files db !! id = Some f
                        ∧ is_true (isDeleted f) = true ∧ currentFileName f = n)
  ∧ versions after = versions db.
Proof.
  intros after.
  assert (Hfiles : ∀ id f, files after !! id = Some f
    ↔ files db !! id = Some f ∧ is_true (isDeleted f) = false).
  { intros id f. unfold after, emptyTrash. cbn [snd].
    rewrite lookup_deleteMany. done. }
  split; [exact Hfiles |].
  split; [apply getTrash_nil; intros id f Hf; by apply Hfiles in Hf as [_ ?] |].
  split.
  { intros p doc. rewrite !elem_of_getFiles, Hfiles. tauto. }
  split; [| done].
  intros n. unfold after, emptyTrash. cbn [snd].
  change (disk (deleteMany ?q ?d)) with (disk d).
  rewrite elem_of_unlink_all, stored_names_of_find. done.
Qed.

(** The clean-up of the trash deletes exactly the trashed documents whose
    [deletedAt] is more than thirty days before the current date: what is
    left in the trash with a date is not past its expiry, a trashed
    document without a date is never removed, and a second clean-up at the
    same date removes nothing more. *)
Theorem autoCleanupTrash_removes_exactly_the_expired (now : Date) (db : Db) :
  let after := (autoCleanupTrash now db).2 in
  (∀ id f, files after !! id = Some f
           ↔ files db !! id = Some f
             ∧ ¬ (is_true (isDeleted f) = true
                  ∧ ∃ d, deletedAt f = Some d ∧ d < now - 30 * day_ms))
  ∧ (∀ entry d, entry ∈ getTrash now after →
       deletedAt (trashed entry) = Some d →
       now ≤ expiryDate entry)
  ∧ (∀ id f, files db !! id = Some f → deletedAt f = None →
       files after !! id = Some f)
  ∧ files (autoCleanupTrash now after).2 = files after.
Proof.
  intros after.
  assert (Hexpired : ∀ f, expired (now - 30 * 24 * 60 * 60 * 1000) f = false
    ↔ ¬ (is_true (isDeleted f) = true
         ∧ ∃ d, deletedAt f = Some d ∧ d < now - 30 * day_ms)).
  { intros f. unfold expired, day_ms.
    destruct (is_true (isDeleted f)); cbn; [| split; [intros _ [? _] |]; done].
    destruct (deletedAt f) as [d |].
    - rewrite Z.ltb_ge. split.
      + intros Hle (_ & d' & [= <-] & Hlt). lia.
      + intros Hnot. apply Z.nlt_ge. intros Hlt. apply Hnot. split; [done |].
        exists d. split; [done | lia].
    - split; [| done]. intros _ (_ & d & Hd & _). discriminate. }
  assert (Hfiles : ∀ id f, files after !! id = Some f
    ↔ files db !! id = Some f
      ∧ ¬ (is_true (isDeleted f) = true
           ∧ ∃ d, deletedAt f = Some d ∧ d < now - 30 * day_ms)).
  { intros id f. unfold after, autoCleanupTrash. cbn [snd].
    rewrite lookup_deleteMany, Hexpired. done. }
  split; [exact Hfiles |].
  split.
  { intros entry d Hin Hd.
    assert (Hdoc : files after !! trashedId entry = Some (trashed entry)
                   ∧ is_true (isDeleted (trashed entry)) = true).
    { apply (elem_of_getTrash now). eauto. }
    destruct Hdoc as [Hf Hdead]. apply Hfiles in Hf as [_ Hkept].
    apply list_elem_of_fmap in Hin as (doc & -> & _).
    unfold with_expiry in *. cbn in *. rewrite Hd. cbn.
    apply Z.nlt_ge. intros Hlt. apply Hkept. split; [done |].
    exists d. split; [done | lia]. }
  split.
  { intros id f Hf Hnone. apply Hfiles. split; [done |].
    intros (_ & d & Hd & _). congruence. }
  unfold autoCleanupTrash at 1. cbn [snd]. apply map_eq. intros id.
  apply option_eq. intros f. rewrite lookup_deleteMany.
  split; [tauto |]. intros Hf. split; [done |].
  apply Hexpired. by apply Hfiles in Hf as [_ ?].
Qed.

(** [deleteFile] removes the document, every version record of the file
    and the stored files of both from the uploads directory, and touches
    no other document; [permanentDelete], the deletion from the trash,
    removes the document and its current stored file but leaves the
    version records of the file where they are. *)
Theorem deleteFile_removes_versions (id : string) (db : Db) (f : File) :
  files db !! id = Some f →
  let after := (deleteFile id db).2 in
  (deleteFile id db).1 = 200%nat
  ∧ files after !! id = None
  ∧ (∀ other, other ≠ id → files after !! other = files db !! other)
  ∧ (∀ v, v ∈ versions after ↔ v ∈ versions db ∧ file v ≠ id)
  ∧ (currentFileName f ∉ disk after)
  ∧ (∀ v, v ∈ versions db → file v = id → fileName v ∉ disk after)
  ∧ files (snd (permanentDelete id db)) !! id = None
  ∧ (currentFileName f ∉ disk (snd (permanentDelete id db)))
  ∧ versions (snd (permanentDelete id db)) = versions db.
Proof.
  intros Hf after. unfold after, deleteFile, permanentDelete. rewrite Hf.
  cbn [fst snd].
  split; [done |].
  split; [cbn; apply lookup_delete_eq |].
  split; [intros other Hne; cbn; by apply lookup_delete_ne |].
  split; [intros v; cbn; rewrite list_elem_of_filter; tauto |].
  split.
  { cbn. rewrite !elem_of_difference, elem_of_singleton. tauto. }
  split.
  { intros v Hv Hid. cbn. rewrite !elem_of_difference, elem_of_list_to_set.
    intros [_ Hnot]. apply Hnot. apply list_elem_of_fmap. exists v.
    split; [done |]. by apply list_elem_of_filter. }
  split; [cbn; apply lookup_delete_eq |].
  split; [| done].
  cbn. rewrite elem_of_difference, elem_of_singleton. tauto.
Qed.

Lemma deleteFile_removes_versions_witness :
  files (snd (deleteFile "f2" sample_db)) !! "f2" = None
  ∧ versions (snd (permanentDelete "f2" sample_db)) = versions sample_db.
Proof.
  pose proof (deleteFile_removes_versions "f2" sample_db sample_trashed)
    as Hdel.
  assert (Hf : files sample_db !! "f2" = Some sample_trashed) by (by vm_compute).
  destruct (Hdel Hf) as (_ & Hgone & _ & _ & _ & _ & _ & _ & Hkept).
  split; [exact Hgone | exact Hkept].
Defined.

(** ** Names in a folder *)

Lemma name_taken_spec (id original : string) (target : option string) (db : Db) :
  name_taken id original target db = true
  ↔ ∃ other g, other ≠ id ∧ files db !! other = Some g
               ∧ originalName g = JS.trim original ∧ folder g = target.
Proof.
  unfold name_taken. rewrite existsb_exists. split.
  - intros ([other g] & Hin & Hall). apply list_elem_of_In in Hin.
    apply elem_of_map_to_list in Hin.
    apply andb_prop in Hall as [[Hne Hname]%andb_prop Hfolder].
    apply negb_true_iff, String.eqb_neq in Hne.
    apply String.eqb_eq in Hname.
    unfold same_folder in Hfolder. apply bool_decide_eq_true in Hfolder.
    exists other, g. done.
  - intros (other & g & Hne & Hg & Hname & Hfolder). exists (other, g). split.
    + apply list_elem_of_In. by apply elem_of_map_to_list.
    + cbn. apply andb_true_intro. split; [apply andb_true_intro; split |].
      * by apply negb_true_iff, String.eqb_neq.
      * by apply String.eqb_eq.
      * unfold same_folder. by apply bool_decide_eq_true.
Qed.

(** A move that succeeds puts the file in the target folder, which exists
    when one is named, and changes nothing else of it: [updatedAt] is
    stamped when the folder changes and stays when the file was in that
    folder already, in which case nothing of the document is assigned.  No
    other document of the target folder carries the name of the file, as
    the filter of the query reads it, that is trimmed; a move that does not
    succeed writes nothing; and a document of the target folder with that
    name, trashed or not, makes the move fail. *)
Theorem moveFile_keeps_names_apart (id : string) (targetFolder : option string)
    (now : Date) (db : Db) (f : File) :
  files db !! id = Some f →
  let result := moveFile id targetFolder now db in
  (result.1 = 200%nat →
     folder_exists (or_null targetFolder) db = true
     ∧ files result.2 !! id
       = Some (written (Some f) (set_folder f (or_null targetFolder)) now)
     ∧ (folder f = or_null targetFolder →
          files result.2 !! id = Some (with_defaults f))
     ∧ (folder f ≠ or_null targetFolder →
          files result.2 !! id
          = Some (set_updatedAt
                    (set_folder (with_defaults f) (or_null targetFolder)) now))
     ∧ (∀ other, other ≠ id → files result.2 !! other = files db !! other)
     ∧ (∀ other g, other ≠ id → files result.2 !! other = Some g →
          ¬ (originalName g = JS.trim (originalName f)
             ∧ folder g = or_null targetFolder)))
  ∧ (result.1 ≠ 200%nat → result.2 = db)
  ∧ (∀ other g, other ≠ id → files db !! other = Some g →
       originalName g = JS.trim (originalName f) →
       folder g = or_null targetFolder →
       result.1 ≠ 200%nat).
Proof.
  intros Hf result. unfold result, moveFile. rewrite Hf.
  destruct (folder_exists (or_null targetFolder) db) eqn:Hdir;
    [| cbn; split; [done | split; [done | intros; discriminate]]].
  destruct (name_taken id (originalName f) (or_null targetFolder) db) eqn:Htaken;
    [cbn; split; [done | split; [done | intros; discriminate]] |].
  assert (Hfree : ∀ other g, other ≠ id → files db !! other = Some g →
    ¬ (originalName g = JS.trim (originalName f)
       ∧ folder g = or_null targetFolder)).
  { intros other g Hne Hg [Hname Hfolder].
    apply not_true_iff_false in Htaken. apply Htaken, name_taken_spec.
    exists other, g. done. }
  unfold save_and_reply, save. destruct (validate _); cbn.
  - split; [| split; [done |]].
    + intros _. rewrite Hf, lookup_insert_eq. split; [done |].
      split; [done |]. split; [| split; [| split]].
      * intros Hsame. f_equal. unfold written.
        rewrite bool_decide_eq_true_2; [| by rewrite <- Hsame; destruct f].
        by rewrite <- Hsame; destruct f.
      * intros Hmoved. f_equal. rewrite written_changed; [by destruct f |].
        intros Heq. apply Hmoved. by rewrite <- Heq.
      * intros other Hne. by apply lookup_insert_ne.
      * intros other g Hne. rewrite lookup_insert_ne by done. by apply Hfree.
    + intros other g Hne Hg Hname Hfolder. destruct (Hfree other g); done.
  - split; [done | split; [done | intros; discriminate]].
Qed.

Lemma moveFile_keeps_names_apart_witness :
  files (snd (moveFile "f1" (Some "d7") 9000
                (mkDb (files sample_db) (folders sample_folder_db) [] ∅))) !! "f1"
  = Some (written (Some sample_live) (set_folder sample_live (Some "d7")) 9000).
Proof.
  refine (proj1 (proj2 (proj1 (moveFile_keeps_names_apart "f1" (Some "d7") 9000
            (mkDb (files sample_db) (folders sample_folder_db) [] ∅)
            sample_live _) _))); by vm_compute.
Defined.

(** A rename with a missing or blank name is refused with 400 before the
    file is looked up.  A rename that succeeds stores the new name,
    trimmed, completed with the file's extension when it has no dot, and
    trimmed again by the schema; the name that is stored is carried by no
    other document of the folder; and the [extension] path of the document
    is left as it was, whatever the new name ends with. *)
Theorem renameFile_keeps_extension (id : string) (newName : option string)
    (now : Date) (db : Db) :
  let result := renameFile id newName now db in
  ((or_null newName = None ∨ ∃ given, newName = Some given
                                      ∧ JS.all_white_space given = true) →
     result = (400%nat, db))
  ∧ (∀ f given, files db !! id = Some f → newName = Some given →
       result.1 = 200%nat →
       let completed :=
         if contains_dot (JS.trim given) then JS.trim given
         else JS.trim given +:+ extension f in
       ∃ f', files result.2 !! id = Some f'
         ∧ originalName f' = JS.trim completed
         ∧ extension f' = extension f
         ∧ folder f' = folder f
         ∧ (∀ other g, other ≠ id → files result.2 !! other = Some g →
              ¬ (originalName g = JS.trim completed ∧ folder g = folder f)))
  ∧ (result.1 ≠ 200%nat → result.2 = db).
Proof.
  intros result. unfold result, renameFile. split; [| split].
  - intros [-> | (given & -> & Hblank)]; [done |].
    apply JSFacts.trim_empty_iff in Hblank.
    destruct given; [done |]. cbn [or_null]. by rewrite Hblank.
  - intros f given Hf -> .
    destruct (or_null (Some given)) as [given' |] eqn:Hgiven; [| discriminate].
    assert (given' = given) as -> by (destruct given; cbn in Hgiven; congruence).
    destruct (String.eqb (JS.trim given) ""); [discriminate |].
    rewrite Hf.
    destruct (name_taken _ _ _ _) eqn:Htaken; [discriminate |].
    unfold save_and_reply, save. destruct (validate _); [| discriminate].
    cbn. intros _. eexists. split; [apply lookup_insert_eq |].
    match goal with |- context [written ?st ?doc now] =>
      destruct (written_names st doc now) as (-> & -> & ->) end.
    split; [done |]. split; [done |]. split; [done |].
    intros other g Hne. rewrite lookup_insert_ne by done. intros Hg [Hname Hdir].
    apply not_true_iff_false in Htaken. apply Htaken, name_taken_spec.
    exists other, g. done.
  - destruct (or_null newName); [| done].
    destruct (String.eqb _ _); [done |].
    destruct (files db !! id); [| done].
    destruct (name_taken _ _ _ _); [done |].
    unfold save_and_reply, save. destruct (validate _); done.
Qed.

Lemma renameFile_keeps_extension_witness :
  ∃ f', files (snd (renameFile "f1" (Some " report ") 9000 sample_db)) !! "f1"
        = Some f'
    ∧ originalName f' = "report.txt"
    ∧ extension f' = ".txt".
Proof.
  destruct (proj1 (proj2 (renameFile_keeps_extension "f1" (Some " report ")
              9000 sample_db)) sample_live " report ")
    as (f' & Hf' & Hname & Hext & _); [by vm_compute | done | by vm_compute |].
  exists f'. split; [exact Hf' |]. split; [| exact Hext].
  rewrite Hname. by vm_compute.
Defined.

End DriveLifecycle.

(* ===================================================================== *)
(** * Which handler writes which paths; the flags of trash and sharing *)
(* ===================================================================== *)

Module DriveFrame.
Import Drive DriveViews Samples DriveProps DriveLifecycle.

Local Open Scope Z_scope.

Section Untouched.

Context {X : Type} (paths : File → X) (fresh : X).

Lemma untouched_refl (m : gmap string File) : untouched paths fresh m m.
Proof. intros id f' Hf. left. eauto. Qed.

Lemma untouched_insert (m : gmap string File) (id : string) (f doc : File) :
  m !! id = Some f → paths doc = paths f →
  untouched paths fresh m (<[id := doc]> m).
Proof.
  intros Hf Hsame id' f'. destruct (decide (id = id')) as [<- | Hne].
  - rewrite lookup_insert_eq. intros [= <-]. left. eauto.
  - rewrite lookup_insert_ne by done. intros Hf'. left. eauto.
Qed.

Lemma untouched_create (m : gmap string File) (id : string) (doc : File) :
  m !! id = None → paths doc = fresh →
  untouched paths fresh m (<[id := doc]> m).
Proof.
  intros Hnone Hnew id' f'. destruct (decide (id = id')) as [<- | Hne].
  - rewrite lookup_insert_eq. intros [= <-]. right. eauto.
  - rewrite lookup_insert_ne by done. intros Hf'. left. eauto.
Qed.

Lemma untouched_delete (m : gmap string File) (id : string) :
  untouched paths fresh m (delete id m).
Proof.
  intros id' f' Hf'. apply lookup_delete_Some in Hf' as [_ Hf']. left. eauto.
Qed.

Lemma untouched_filter (P : string * File → Prop) `{∀ x, Decision (P x)}
    (m : gmap string File) :
  untouched paths fresh m (filter P m).
Proof.
  intros id' f' Hf'. apply map_lookup_filter_Some in Hf' as [Hf' _]. left. eauto.
Qed.

Hypothesis paths_updatedAt : ∀ f v, paths (set_updatedAt f v) = paths f.
Hypothesis paths_defaults : ∀ f, paths (with_defaults f) = paths f.

Lemma paths_written (stored : option File) (doc : File) (now : Date) :
  paths (written stored doc now) = paths doc.
Proof.
  destruct (written_cases stored doc now) as [-> | ->];
    by rewrite ?paths_updatedAt, paths_defaults.
Qed.

Lemma untouched_save_and_reply (ok : nat) (id : string) (f doc : File)
    (now : Date) (db db0 : Db) :
  files db = files db0 →
  files db0 !! id = Some f → paths doc = paths f →
  untouched paths fresh (files db0) (files (save_and_reply ok id doc now db).2).
Proof.
  intros Hsame Hf Hpaths. unfold save_and_reply, save.
  destruct (validate doc); cbn; rewrite Hsame.
  - eapply untouched_insert; [done |]. by rewrite paths_written.
  - apply untouched_refl.
Qed.

Lemma untouched_new (newId : string) (doc : File) (now : Date) (db db' : Db) :
  paths doc = fresh →
  create newId doc now db = Some db' →
  untouched paths fresh (files db) (files db').
Proof.
  intros Hnew. unfold create, save. case_bool_decide as Htaken; [done |].
  destruct (validate doc); [| done]. intros [= <-]. cbn.
  apply untouched_create; [| by rewrite paths_written].
  apply eq_None_not_Some. done.
Qed.

Variable path_extname : string → string.
Variable toLowerCase : string → string.
Variable regex_valid : string → bool.
Variable regex_test : string → string → bool.
Variable copy_throws : string → bool.

Hypothesis paths_folder : ∀ f v, paths (set_folder f v) = paths f.
Hypothesis paths_originalName : ∀ f v, paths (set_originalName f v) = paths f.
Hypothesis paths_tags : ∀ f v, paths (set_tags f v) = paths f.
Hypothesis paths_content :
  ∀ f stored original mime sz ext version,
    paths (set_content f stored original mime sz ext version) = paths f.
Hypothesis paths_new :
  ∀ up target now, paths (new_file path_extname toLowerCase up target now) = fresh.

(** The frame of the handlers: but for the handlers that write them, a
    group of paths that the assignments to folder, name, tags, content and
    [updatedAt] do not reach is left as it was by every request. *)
Lemma handle_frame (op : Op) (now : Date) (db : Db) :
  (is_toggleStar op = true → ∀ f a b, paths (set_star f a b) = paths f) →
  (writes_trash op = true → ∀ f a b, paths (set_trash f a b) = paths f) →
  (writes_sharing op = true → ∀ f s, paths (set_sharing f s) = paths f) →
  untouched paths fresh (files db)
    (files (handle path_extname toLowerCase regex_valid regex_test copy_throws
              op now db).2).
Proof.
  intros Hstar Htrash Hshare.
  destruct op; cbn [is_toggleStar writes_trash writes_sharing Drive.handle] in *.
  - unfold toggleStar. destruct (files db !! id) eqn:Hf; cbn;
      [eapply untouched_save_and_reply; eauto | apply untouched_refl].
  - unfold moveToTrash. destruct (files db !! id) eqn:Hf; cbn;
      [eapply untouched_save_and_reply; eauto | apply untouched_refl].
  - unfold restoreFromTrash. destruct (files db !! id) eqn:Hf; cbn;
      [eapply untouched_save_and_reply; eauto | apply untouched_refl].
  - unfold permanentDelete. destruct (files db !! id) eqn:Hf; cbn;
      [apply untouched_delete | apply untouched_refl].
  - unfold emptyTrash, deleteMany. cbn. apply untouched_filter.
  - unfold autoCleanupTrash, deleteMany. cbn. apply untouched_filter.
  - unfold updateTags. destruct (files db !! id) eqn:Hf; cbn;
      [eapply untouched_save_and_reply; eauto | apply untouched_refl].
  - unfold uploadFile. destruct upload as [up |]; [| apply untouched_refl].
    destruct (folder_exists _ db); [| apply untouched_refl].
    destruct (create _ _ _ _) as [db' |] eqn:Hnew; cbn;
      [| apply untouched_refl].
    eapply untouched_new; [| exact Hnew]. apply paths_new.
  - unfold moveFile. destruct (files db !! id) eqn:Hf;
      [| apply untouched_refl].
    destruct (folder_exists _ db); [| apply untouched_refl].
    destruct (name_taken _ _ _ _); [apply untouched_refl |].
    eapply untouched_save_and_reply; eauto.
  - unfold renameFile. destruct (or_null newName); [| apply untouched_refl].
    destruct (String.eqb _ _); [apply untouched_refl |].
    destruct (files db !! id) eqn:Hf; [| apply untouched_refl].
    destruct (name_taken _ _ _ _); [apply untouched_refl |].
    eapply untouched_save_and_reply; eauto.
  - unfold deleteFile. destruct (files db !! id) eqn:Hf; cbn;
      [apply untouched_delete | apply untouched_refl].
  - unfold enableSharing. destruct (files db !! fileId) eqn:Hf;
      [| apply untouched_refl].
    destruct (_ && _); [apply untouched_refl |].
    eapply untouched_save_and_reply; eauto.
  - unfold disableSharing. destruct (files db !! fileId) eqn:Hf; cbn;
      [eapply untouched_save_and_reply; eauto | apply untouched_refl].
  - unfold uploadNewVersion. destruct upload as [up |];
      [| apply untouched_refl].
    destruct (files db !! fileId) eqn:Hf; [| apply untouched_refl].
    destruct (validate_version _); [| apply untouched_refl].
    unfold save. destruct (validate _); cbn; [| apply untouched_refl].
    eapply untouched_insert; [done |].
    by rewrite paths_written, paths_content.
  - unfold restoreVersion. destruct (files db !! fileId) eqn:Hf;
      [| apply untouched_refl].
    destruct (_ =? _); [apply untouched_refl |].
    destruct (list_find _ _) as [[i v] |]; [| apply untouched_refl].
    destruct (validate_version _); [| apply untouched_refl].
    case_bool_decide; [| apply untouched_refl].
    destruct (copy_throws _); [apply untouched_refl |].
    eapply untouched_save_and_reply; eauto.
  - unfold deleteFolder. destruct (folders db !! id); cbn;
      [| apply untouched_refl].
    destruct (regex_valid _); cbn;
      [apply untouched_filter | apply untouched_refl].
Qed.

End Untouched.

Lemma untouched_preserves {X : Type} (paths : File → X) (fresh : X)
    (P : File → Prop) (m m' : gmap string File) :
  (∀ f f', paths f' = paths f → P f → P f') →
  (∀ f', paths f' = fresh → P f') →
  untouched paths fresh m m' →
  (∀ id f, m !! id = Some f → P f) →
  ∀ id f', m' !! id = Some f' → P f'.
Proof.
  intros Hsame Hnew Hframe Hall id f' Hf'.
  destruct (Hframe id f' Hf') as [(f & Hf & Hpaths) | [_ Hpaths]]; eauto.
Qed.

Section Flags.

Variable path_extname : string → string.
Variable toLowerCase : string → string.
Variable regex_valid : string → bool.
Variable regex_test : string → string → bool.
Variable copy_throws : string → bool.

Abbreviation handle :=
  (handle path_extname toLowerCase regex_valid regex_test copy_throws).
Abbreviation serve :=
  (serve path_extname toLowerCase regex_valid regex_test copy_throws).

Lemma handle_trash_untouched (op : Op) (now : Date) (db : Db) :
  writes_trash op = false →
  untouched (λ f, trash_of (with_defaults f)) (Some false, None)
    (files db) (files (handle op now db).2).
Proof.
  intros Hop. apply handle_frame; try done;
    try (by intros []); try (by intros [] ?). by rewrite Hop.
Qed.

Lemma handle_sharing_untouched (op : Op) (now : Date) (db : Db) :
  writes_sharing op = false →
  untouched sharing (mkSharing false None None)
    (files db) (files (handle op now db).2).
Proof.
  intros Hop. apply handle_frame; try done. by rewrite Hop.
Qed.

(** A request assigns the trash paths of a document only through
    [moveToTrash] and [restoreFromTrash], and its sharing paths only
    through [enableSharing] and [disableSharing]: under every other
    request, and under those for the other group, each document keeps
    them, and a new document has them at their defaults.  The trash paths
    are read as a handler reads them off the loaded document: a save may
    write [isDeleted: false] into a document that lacked the flag, which
    is the value that it had for every reader. *)
Theorem handlers_write_their_own_paths (op : Op) (now : Date) (db : Db) :
  (writes_trash op = false →
     untouched (λ f, trash_of (with_defaults f)) (Some false, None)
       (files db) (files (handle op now db).2))
  ∧ (writes_sharing op = false →
       untouched sharing (mkSharing false None None)
         (files db) (files (handle op now db).2)).
Proof.
  split; [apply handle_trash_untouched | apply handle_sharing_untouched].
Qed.

Lemma trash_consistent_paths (f f' : File) :
  trash_of (with_defaults f') = trash_of (with_defaults f) →
  trash_consistent f → trash_consistent f'.
Proof.
  unfold trash_consistent, trash_of, with_defaults. cbn.
  intros [= Hflag ->].
  assert (Hsame : is_true (isDeleted f') = is_true (isDeleted f)).
  { by destruct (isDeleted f') as [[] |], (isDeleted f) as [[] |]. }
  by rewrite Hsame.
Qed.

Lemma trash_consistent_written (stored : option File) (doc : File) (now : Date) :
  trash_consistent doc → trash_consistent (written stored doc now).
Proof.
  apply trash_consistent_paths.
  destruct (written_cases stored doc now) as [-> | ->];
    by rewrite ?with_defaults_updatedAt, with_defaults_idemp.
Qed.

Lemma share_consistent_written (stored : option File) (doc : File) (now : Date) :
  share_consistent doc → share_consistent (written stored doc now).
Proof. by destruct (written_cases stored doc now) as [-> | ->]. Qed.

Lemma share_consistent_paths (f f' : File) :
  sharing f' = sharing f → share_consistent f → share_consistent f'.
Proof. unfold share_consistent. by intros ->. Qed.

Lemma insert_preserves (P : File → Prop) (m : gmap string File) (id : string)
    (doc : File) :
  P doc → (∀ id f, m !! id = Some f → P f) →
  ∀ id' f, <[id := doc]> m !! id' = Some f → P f.
Proof.
  intros Hdoc Hall id' f. destruct (decide (id = id')) as [<- | Hne].
  - rewrite lookup_insert_eq. by intros [= <-].
  - rewrite lookup_insert_ne by done. apply Hall.
Qed.

Lemma save_and_reply_preserves (P : File → Prop) (ok : nat) (id : string)
    (doc : File) (now : Date) (db : Db) :
  P (written (files db !! id) doc now) →
  (∀ id f, files db !! id = Some f → P f) →
  ∀ id' f, files (save_and_reply ok id doc now db).2 !! id' = Some f → P f.
Proof.
  intros Hdoc Hall. unfold save_and_reply, save. destruct (validate doc); cbn.
  - by apply insert_preserves.
  - exact Hall.
Qed.

Lemma handle_trash_consistent (op : Op) (now : Date) (db : Db) :
  (∀ id f, files db !! id = Some f → trash_consistent f) →
  ∀ id f, files (handle op now db).2 !! id = Some f → trash_consistent f.
Proof.
  intros Hall. destruct (writes_trash op) eqn:Hop.
  - destruct op; try discriminate; cbn [Drive.handle].
    + unfold moveToTrash. destruct (files db !! id) eqn:Hf; [| exact Hall].
      apply save_and_reply_preserves; [| exact Hall].
      apply trash_consistent_written. by split.
    + unfold restoreFromTrash. destruct (files db !! id) eqn:Hf; [| exact Hall].
      apply save_and_reply_preserves; [| exact Hall].
      apply trash_consistent_written. split; [done | discriminate].
  - eapply (untouched_preserves (λ f, trash_of (with_defaults f)));
      [apply trash_consistent_paths | | by apply handle_trash_untouched | exact Hall].
    intros f' [= Hdel Hat]. unfold trash_consistent. rewrite Hat.
    destruct (isDeleted f') as [[] |]; cbn in *;
      (discriminate || (split; [done | discriminate])).
Qed.

Lemma handle_share_consistent (op : Op) (now : Date) (db : Db) :
  (∀ id f, files db !! id = Some f → share_consistent f) →
  ∀ id f, files (handle op now db).2 !! id = Some f → share_consistent f.
Proof.
  intros Hall. destruct (writes_sharing op) eqn:Hop.
  - destruct op; try discriminate; cbn [Drive.handle].
    + unfold enableSharing. destruct (files db !! fileId); [| exact Hall].
      destruct (_ && _); [exact Hall |].
      apply save_and_reply_preserves; [| exact Hall].
      apply share_consistent_written. by split; split.
    + unfold disableSharing. destruct (files db !! fileId); [| exact Hall].
      apply save_and_reply_preserves; [| exact Hall].
      apply share_consistent_written.
      split; (split; [discriminate | done]).
  - eapply untouched_preserves;
      [apply share_consistent_paths | | by apply handle_sharing_untouched
       | exact Hall].
    intros f' Hs. unfold share_consistent. rewrite Hs. cbn.
    split; (split; [discriminate | done]).
Qed.

Lemma handle_flags_consistent (op : Op) (now : Date) (db : Db) :
  flags_consistent db → flags_consistent (handle op now db).2.
Proof.
  intros Hinv id f Hf. split.
  - eapply handle_trash_consistent; [| exact Hf].
    intros id' f' Hf'. by apply (Hinv id' f').
  - eapply handle_share_consistent; [| exact Hf].
    intros id' f' Hf'. by apply (Hinv id' f').
Qed.

Lemma serve_flags_consistent (history : list (Op * Date)) (db : Db) :
  flags_consistent db → flags_consistent (serve history db).
Proof.
  revert db. induction history as [| [op now] rest IH]; intros db Hinv;
    [exact Hinv |].
  cbn. apply IH, handle_flags_consistent, Hinv.
Qed.

Lemma empty_flags_consistent : flags_consistent empty_db.
Proof. intros id f Hf. cbn in Hf. by rewrite lookup_empty in Hf. Qed.

Lemma findOne_by_link_Some (link : string) (coll : gmap string File)
    (id : string) (doc : File) :
  findOne_by_link link coll = Some (id, doc) →
  coll !! id = Some doc ∧ shareLink (sharing doc) = Some link.
Proof.
  unfold findOne_by_link.
  destruct (list_find _ _) as [[i found] |] eqn:Hfind; [| discriminate].
  cbn. intros [= ->]. apply list_find_Some in Hfind as (Hat & Hlink & _).
  split; [| exact Hlink].
  apply elem_of_map_to_list, list_elem_of_lookup. eauto.
Qed.

(** Every request keeps the flags of trash and sharing in step with their
    companions: a document has a [deletedAt] date exactly when it is in the
    trash, and a share link and a [sharedAt] date exactly when it is
    shared.  So, on a database that the handlers built from nothing, the
    share link of a request finds a shared file or none: the handlers that
    serve a link never answer 403. *)
Theorem flags_stay_consistent (op : Op) (now : Date) (db : Db)
    (history : list (Op * Date)) (env : option string) (link : string) :
  (flags_consistent db → flags_consistent (handle op now db).2)
  ∧ flags_consistent (serve history empty_db)
  ∧ (flags_consistent db →
       accessSharedFile env link db ≠ inl 403%nat
       ∧ downloadSharedFile link db ≠ inl 403%nat)
  ∧ accessSharedFile env link (serve history empty_db) ≠ inl 403%nat
  ∧ downloadSharedFile link (serve history empty_db) ≠ inl 403%nat.
Proof.
  assert (Hserved : ∀ db', flags_consistent db' →
    accessSharedFile env link db' ≠ inl 403%nat
    ∧ downloadSharedFile link db' ≠ inl 403%nat).
  { intros db' Hinv. unfold accessSharedFile, downloadSharedFile.
    destruct (findOne_by_link link (files db')) as [[id doc] |] eqn:Hfind;
      [| done].
    apply findOne_by_link_Some in Hfind as [Hdoc Hlink].
    destruct (Hinv id doc Hdoc) as [_ [Hshared _]].
    assert (Hyes : isShared (sharing doc) = true)
      by (apply Hshared; congruence).
    rewrite Hyes. cbn. split; [done |]. unfold send_file.
    case_bool_decide; [| done]. by destruct (_ && _). }
  pose proof (serve_flags_consistent history empty_db empty_flags_consistent)
    as Hreach.
  split; [apply handle_flags_consistent |].
  split; [exact Hreach |].
  split; [apply Hserved |].
  by apply Hserved.
Qed.

End Flags.

Lemma sample_db_flags_consistent : flags_consistent sample_db.
Proof.
  intros id f. unfold sample_db. cbn.
  intros [[_ <-] | [_ [[_ <-] | [_ Hf]]%lookup_insert_Some]]%lookup_insert_Some.
  - split; [split; [done | discriminate] |].
    split; (split; [discriminate | done]).
  - split; [by split |]. split; (split; [discriminate | done]).
  - by rewrite lookup_empty in Hf.
Qed.

Lemma handlers_write_their_own_paths_witness :
  untouched sharing (mkSharing false None None) (files sample_db)
    (files (Drive.handle id id (λ _, true) (λ _ _, false) (λ _, false)
              (MoveToTrash "f1") 7000 sample_db).2).
Proof.
  exact (proj2 (handlers_write_their_own_paths id id (λ _, true) (λ _ _, false)
                  (λ _, false) (MoveToTrash "f1") 7000 sample_db) eq_refl).
Defined.

Lemma flags_stay_consistent_witness :
  flags_consistent
    (Drive.handle id id (λ _, true) (λ _ _, false) (λ _, false)
              (MoveToTrash "f1") 7000 sample_db).2
  ∧ accessSharedFile None "Xq3" sample_db ≠ inl 403%nat.
Proof.
  destruct (flags_stay_consistent id id (λ _, true) (λ _ _, false) (λ _, false)
              (MoveToTrash "f1") 7000 sample_db [] None "Xq3")
    as (Hstep & _ & Hserved & _).
  split.
  - exact (Hstep sample_db_flags_consistent).
  - exact (proj1 (Hserved sample_db_flags_consistent)).
Defined.

End DriveFrame.

(* ===================================================================== *)
(** * Share links, trashed files that stay reachable, versions *)
(* ===================================================================== *)

Module DriveJourneys.
Import Drive DriveViews Samples DriveProps DriveLifecycle DriveFrame.

Local Open Scope Z_scope.

Lemma findOne_by_link_found (link : string) (coll : gmap string File)
    (id : string) (doc : File) :
  coll !! id = Some doc → shareLink (sharing doc) = Some link →
  (∀ other g, coll !! other = Some g → shareLink (sharing g) = Some link →
     other = id) →
  findOne_by_link link coll = Some (id, doc).
Proof.
  intros Hdoc Hlink Hunique.
  destruct (findOne_by_link link coll) as [[other g] |] eqn:Hfind.
  - apply findOne_by_link_Some in Hfind as [Hg Hglink].
    assert (other = id) as -> by eauto. congruence.
  - unfold findOne_by_link in Hfind.
    destruct (list_find _ _) as [found |] eqn:Hnone; [discriminate |].
    apply list_find_None in Hnone.
    assert (Hin : (id, doc) ∈ map_to_list coll) by by apply elem_of_map_to_list.
    eapply Forall_forall in Hnone; [| exact Hin]. by destruct Hnone.
Qed.

Lemma findOne_by_link_none (link : string) (coll : gmap string File) :
  (∀ other g, coll !! other = Some g → shareLink (sharing g) ≠ Some link) →
  findOne_by_link link coll = None.
Proof.
  intros Hnone. destruct (findOne_by_link link coll) as [[other g] |] eqn:Hfind;
    [| done].
  apply findOne_by_link_Some in Hfind as [Hg Hglink].
  by destruct (Hnone other g Hg).
Qed.

(** The life of a share link: once sharing is enabled with a link that no
    document carries, the link leads to the file; enabling sharing again
    changes nothing, the first link stays; and once sharing is disabled
    the link leads nowhere, for the public view and for the download. *)
Theorem share_link_lifecycle (env : option string) (id link link2 : string)
    (now later : Date) (db : Db) (f : File) :
  files db !! id = Some f →
  validate f = true →
  isShared (sharing f) = false →
  link ≠ "" →
  (∀ other g, files db !! other = Some g → shareLink (sharing g) ≠ Some link) →
  let shared := (enableSharing id link now db).2 in
  let closed := (disableSharing id later shared).2 in
  (∃ view, accessSharedFile env link shared = inr view
           ∧ sharedId view = id ∧ sharedFileName view = originalName f)
  ∧ enableSharing id link2 later shared = (200%nat, shared)
  ∧ accessSharedFile env link closed = inl 404%nat
  ∧ downloadSharedFile link closed = inl 404%nat.
Proof.
  intros Hf Hvalid Hprivate Hlink Hnew shared closed.
  set (doc := written (Some f)
                (set_sharing f (mkSharing true (Some link) (Some now))) now).
  assert (Hpaths : sharing doc = mkSharing true (Some link) (Some now)
                   ∧ originalName doc = originalName f
                   ∧ validate doc = true).
  { unfold doc. rewrite validate_written.
    by destruct (written_cases (Some f)
                   (set_sharing f (mkSharing true (Some link) (Some now))) now)
      as [-> | ->]. }
  destruct Hpaths as (Hsharing & Hname & Hvalid').
  assert (Henable : enableSharing id link now db
    = (200%nat, with_files db (<[id := doc]> (files db)))).
  { unfold enableSharing. rewrite Hf, Hprivate. cbn [andb].
    rewrite save_and_reply_valid by done. by rewrite Hf. }
  assert (Hshared : files shared = <[id := doc]> (files db)).
  { unfold shared. by rewrite Henable. }
  assert (Hdoc : files shared !! id = Some doc).
  { rewrite Hshared. apply lookup_insert_eq. }
  split.
  { unfold accessSharedFile.
    rewrite (findOne_by_link_found link (files shared) id doc);
      [| done | by rewrite Hsharing |].
    - rewrite Hsharing. cbn. eauto.
    - intros other g. rewrite Hshared.
      destruct (decide (id = other)) as [<- | Hne]; [done |].
      rewrite lookup_insert_ne by done. intros Hg Hglink.
      by destruct (Hnew other g Hg). }
  split.
  { unfold enableSharing. rewrite Hdoc, Hsharing. cbn.
    destruct link; [done |]. reflexivity. }
  assert (Hclosed : ∀ other g, files closed !! other = Some g →
    shareLink (sharing g) ≠ Some link).
  { intros other g. unfold closed, disableSharing. rewrite Hdoc.
    rewrite save_and_reply_valid by done. cbn. rewrite Hshared.
    destruct (decide (id = other)) as [<- | Hne].
    - rewrite !lookup_insert_eq. intros [= <-].
      match goal with |- context [written ?st ?d later] =>
        by destruct (written_cases st d later) as [-> | ->] end.
    - rewrite !lookup_insert_ne by done. apply Hnew. }
  unfold accessSharedFile, downloadSharedFile.
  by rewrite (findOne_by_link_none link (files closed) Hclosed).
Qed.

Lemma share_link_lifecycle_witness :
  ∃ view, accessSharedFile None "V1StGXR8_Z"
            (enableSharing "f1" "V1StGXR8_Z" 7000 sample_db).2 = inr view
    ∧ sharedId view = "f1" ∧ sharedFileName view = "notes.txt".
Proof.
  refine (proj1 (share_link_lifecycle None "f1" "V1StGXR8_Z" "other" 7000 8000
                   sample_db sample_live _ _ _ _ _)); try done.
  intros other g. unfold sample_db. cbn.
  intros [[_ <-] | [_ [[_ <-] | [_ Hg]]%lookup_insert_Some]]%lookup_insert_Some;
    [done | done |].
  by rewrite lookup_empty in Hg.
Defined.

(** The trash hides a file from the listings only: a file moved to the
    trash is still answered by [getFileById], still listed by
    [getFolderById] in its folder, still downloaded by [downloadFile]
    (when its name and its MIME type go into a header: a name with a
    control character is answered 500, in the trash or not) and, when it
    is shared, still served through its share link. *)
Theorem trashed_file_stays_reachable (env : option string) (id : string)
    (now : Date) (db : Db) (f : File) :
  files db !! id = Some f →
  validate f = true →
  let trashed_db := (moveToTrash id now db).2 in
  let doc := written (Some f) (set_trash f (Some true) (Some now)) now in
  getFileById id trashed_db = inr doc
  ∧ is_true (isDeleted doc) = true
  ∧ (∀ dir, folder f = Some dir → is_Some (folders db !! dir) →
       ∃ docs, getFolderById dir trashed_db = inr docs ∧ (id, doc) ∈ docs)
  ∧ (currentFileName f ∈ disk db →
       valid_header (originalName f) = true →
       valid_header (mimeType f) = true →
       downloadFile id trashed_db
       = inr (attachment (originalName f) (currentFileName f) (mimeType f)))
  ∧ (currentFileName f ∈ disk db →
       valid_header (originalName f) = false →
       downloadFile id trashed_db = inl 500%nat
       ∧ downloadFile id db = inl 500%nat)
  ∧ (∀ link, shareLink (sharing f) = Some link → isShared (sharing f) = true →
       (∀ other g, files db !! other = Some g →
          shareLink (sharing g) = Some link → other = id) →
       ∃ view, accessSharedFile env link trashed_db = inr view
               ∧ sharedId view = id).
Proof.
  intros Hf Hvalid trashed_db doc.
  assert (Hpaths : isDeleted doc = Some true ∧ folder doc = folder f
                   ∧ currentFileName doc = currentFileName f
                   ∧ originalName doc = originalName f
                   ∧ mimeType doc = mimeType f
                   ∧ sharing doc = sharing f).
  { unfold doc.
    by destruct (written_cases (Some f) (set_trash f (Some true) (Some now)) now)
      as [-> | ->]. }
  destruct Hpaths as (Hflag & Hfolder & Hstored & Hname & Hmime & Hsharing).
  assert (Hmove : trashed_db = with_files db (<[id := doc]> (files db))).
  { unfold trashed_db, moveToTrash. rewrite Hf.
    rewrite save_and_reply_valid by done. by rewrite Hf. }
  assert (Hdoc : files trashed_db !! id = Some doc).
  { rewrite Hmove. apply lookup_insert_eq. }
  assert (Hfolders : folders trashed_db = folders db) by by rewrite Hmove.
  assert (Hdisk' : disk trashed_db = disk db) by by rewrite Hmove.
  split; [unfold getFileById; by rewrite Hdoc |].
  split; [by rewrite Hflag |].
  split.
  { intros dir Hdir [d Hd]. unfold getFolderById.
    rewrite Hfolders, Hd.
    eexists. split; [done |]. apply elem_of_sorted, elem_of_find.
    split; [| exact Hdoc]. cbn. rewrite Hfolder, Hdir. unfold same_folder.
    by apply bool_decide_eq_true. }
  split.
  { intros Hdisk Hn Hm. unfold downloadFile, send_file.
    rewrite Hdoc, Hdisk', Hstored, Hname, Hmime, Hn, Hm.
    by rewrite bool_decide_eq_true_2 by exact Hdisk. }
  split.
  { intros Hdisk Hn. unfold downloadFile, send_file.
    rewrite Hdoc, Hf, Hdisk', Hstored, Hname, Hn.
    by rewrite bool_decide_eq_true_2 by exact Hdisk. }
  intros link Hlink Hshared Hunique. unfold accessSharedFile.
  rewrite (findOne_by_link_found link (files trashed_db) id doc);
    [| done | by rewrite Hsharing |].
  - rewrite Hsharing, Hshared. cbn. eauto.
  - intros other g. rewrite Hmove. cbn.
    destruct (decide (id = other)) as [<- | Hne]; [done |].
    rewrite lookup_insert_ne by done. apply Hunique.
Qed.

Lemma trashed_file_stays_reachable_witness :
  getFileById "f1" (moveToTrash "f1" 7000 sample_db).2
  = inr (set_updatedAt (set_trash sample_live (Some true) (Some 7000)) 7000).
Proof.
  refine (proj1 (trashed_file_stays_reachable None "f1" 7000 sample_db
                   sample_live _ _)); by vm_compute.
Defined.

(** ** Versions *)

Lemma nonempty_append_r (a s : string) :
  nonempty s = true → nonempty (a +:+ s) = true.
Proof. by destruct a. Qed.

Lemma list_find_app_new {A} (P : A → Prop) `{∀ x, Decision (P x)}
    (l : list A) (x : A) :
  Forall (λ y, ¬ P y) l → P x →
  list_find P (l ++ [x]) = Some (length l, x).
Proof.
  intros Hnone Hx. apply list_find_Some. split; [| split; [done |]].
  - by rewrite lookup_app_r, Nat.sub_diag.
  - intros j y Hy Hlt. rewrite lookup_app_l in Hy by done.
    eapply Forall_forall in Hnone; [exact Hnone |].
    apply list_elem_of_lookup. eauto.
Qed.

Section Versions.

Variable path_extname : string → string.
Variable toLowerCase : string → string.
Variable copy_throws : string → bool.

Abbreviation uploadNewVersion := (uploadNewVersion path_extname toLowerCase).
Abbreviation restoreVersion := (restoreVersion copy_throws).

(** Uploading a new version and then restoring the one before it.  When
    the copy of the old stored file goes through, the name, the size and
    the MIME type of the file are those it had, under a new stored name
    that is a copy; the version number has grown by two and both states
    are in the history; the [extension] path is not restored, it stays
    that of the upload.  When the copy throws, as for a name with a slash,
    the answer is 500: the file document stays that of the upload, but the
    record of the uploaded state is already in the history. *)
Theorem restore_after_upload (fileId : string) (up : Upload) (now later : Date)
    (db : Db) (f : File) :
  files db !! fileId = Some f →
  validate f = true →
  JS.trim (originalName f) = originalName f →
  nonempty (JS.trim (originalname up)) = true →
  nonempty (filename up) = true →
  nonempty (mimetype up) = true →
  currentFileName f ∈ disk db →
  Forall (λ v, ¬ (file v = fileId ∧ versionNumber v = currentVersion f))
    (versions db) →
  let uploaded := uploadNewVersion fileId (Some up) now db in
  let restored := restoreVersion fileId (currentVersion f) later uploaded.2 in
  let copy := pretty later +:+ "-restored-" +:+ originalName f in
  uploaded.1 = 200%nat
  ∧ ∃ f1, files uploaded.2 !! fileId = Some f1
      ∧ currentVersion f1 = currentVersion f + 1
      ∧ currentFileName f1 = filename up
      ∧ (copy_throws copy = false →
           restored.1 = 200%nat
           ∧ ∃ f2, files restored.2 !! fileId = Some f2
               ∧ originalName f2 = originalName f
               ∧ size f2 = size f
               ∧ mimeType f2 = mimeType f
               ∧ currentVersion f2 = currentVersion f + 2
               ∧ currentFileName f2 = copy
               ∧ extension f2 = toLowerCase (path_extname (originalname up))
               ∧ versions restored.2
                 = versions db ++ [version_of fileId f; version_of fileId f1]
               ∧ disk restored.2 = {[copy]} ∪ disk db)
      ∧ (copy_throws copy = true →
           restored.1 = 500%nat
           ∧ files restored.2 = files uploaded.2
           ∧ versions restored.2
             = versions db ++ [version_of fileId f; version_of fileId f1]
           ∧ disk restored.2 = disk db).
Proof.
  intros Hf Hvalid Htrimmed Hname Hstored Hmime Hdisk Hfresh uploaded restored
    copy.
  pose proof Hvalid as Hparts. unfold validate in Hparts.
  apply andb_prop in Hparts as [[Hn Hc]%andb_prop Hm].
  set (c1 := set_content f (filename up) (JS.trim (originalname up))
               (mimetype up) (uploadSize up)
               (toLowerCase (path_extname (originalname up)))
               (currentVersion f + 1)).
  set (f1 := set_updatedAt (with_defaults c1) now).
  assert (Hf1 : written (Some f) c1 now = f1).
  { apply written_changed. intros Heq.
    apply (f_equal currentVersion) in Heq. cbn in Heq. lia. }
  assert (Hup : uploaded
    = (200%nat, with_files (with_versions db (versions db ++ [version_of fileId f]))
                  (<[fileId := f1]> (files db)))).
  { unfold uploaded, Drive.uploadNewVersion. rewrite Hf.
    unfold validate_version, version_of. cbn. rewrite Hn, Hc, Hm. cbn.
    unfold save, validate. cbn. rewrite Hname, Hstored, Hmime. cbn.
    rewrite Hf. fold c1. by rewrite Hf1. }
  split; [by rewrite Hup |].
  exists f1. split; [rewrite Hup; apply lookup_insert_eq |].
  split; [done |]. split; [done |].
  assert (Hfound : list_find
            (λ v, file v = fileId ∧ versionNumber v = currentVersion f)
            (versions db ++ [version_of fileId f])
          = Some (length (versions db), version_of fileId f)).
  { by apply list_find_app_new. }
  assert (Hcommon : restored
    = let db1 := with_versions uploaded.2
                   (versions uploaded.2 ++ [version_of fileId f1]) in
      if copy_throws copy then (500%nat, db1)
      else save_and_reply 200 fileId
             (set_content f1 copy (JS.trim (originalName f)) (mimeType f)
                (size f) (extension f1) (currentVersion f1 + 1))
             later (with_disk db1 ({[copy]} ∪ disk db1))).
  { unfold restored, Drive.restoreVersion. rewrite Hup.
    cbn [snd files with_files]. rewrite lookup_insert_eq.
    replace (currentVersion f =? currentVersion f1) with false
      by (symmetry; apply Z.eqb_neq; cbn; lia).
    cbn [versions with_files with_versions]. rewrite Hfound.
    unfold validate_version. cbn [version_of fileName versionOriginalName
      versionMimeType currentFileName originalName mimeType f1 c1
      set_updatedAt with_defaults set_content set_trash set_star].
    rewrite Hstored, Hname, Hmime. cbn [andb].
    cbn [disk with_versions with_files].
    by rewrite bool_decide_eq_true_2 by exact Hdisk. }
  rewrite Hcommon. cbn zeta. split.
  - intros Hcopy. rewrite Hcopy.
    rewrite save_and_reply_valid.
    + split; [done |]. eexists. cbn [snd files with_files with_disk].
      split; [apply lookup_insert_eq |].
      rewrite Hup. cbn [snd files with_files with_versions with_disk versions
        disk]. rewrite lookup_insert_eq, written_changed.
      * rewrite Htrimmed, <- app_assoc. cbn. repeat split; try done. lia.
      * intros Heq. apply (f_equal currentVersion) in Heq. cbn in Heq. lia.
    + unfold validate. cbn. rewrite Htrimmed, Hn, Hm.
      unfold copy. by rewrite nonempty_append_r by (by apply nonempty_append_r).
  - intros Hcopy. rewrite Hcopy, Hup. cbn. by rewrite <- app_assoc.
Qed.

End Versions.

Lemma restore_after_upload_witness :
  ∃ f2, files (Drive.restoreVersion (λ _, false) "f1" 1 9000
                 (Drive.uploadNewVersion (λ _, ".pdf") id "f1"
                    (Some (mkUpload "notes.pdf" "1801-notes.pdf" "application/pdf" 900))
                    8000
                    (with_disk sample_db {["1714-notes.txt"]})).2).2 !! "f1"
        = Some f2
    ∧ originalName f2 = "notes.txt"
    ∧ extension f2 = ".pdf"
    ∧ currentVersion f2 = 3.
Proof.
  destruct (restore_after_upload (λ _, ".pdf") id (λ _, false) "f1"
              (mkUpload "notes.pdf" "1801-notes.pdf" "application/pdf" 900)
              8000 9000 (with_disk sample_db {["1714-notes.txt"]}) sample_live)
    as (_ & f1 & _ & _ & _ & Hcopied & _); try by vm_compute.
  destruct (Hcopied eq_refl)
    as (_ & f2 & Hf2 & Hname & _ & _ & Hversion & _ & Hext & _).
  exists f2. done.
Defined.

(** ** Uploads and folders *)

Section Uploads.

Variable path_extname : string → string.
Variable toLowerCase : string → string.
Variable regex_test : string → string → bool.

Abbreviation uploadFile := (uploadFile path_extname toLowerCase).
Abbreviation new_file := (new_file path_extname toLowerCase).

(** An upload into the root or into a folder that exists is answered 201
    and the new document, neither starred nor trashed nor shared, is
    listed in that folder, the other documents staying as they were; no
    condition bears on the names that the folder already holds.  An upload
    into a folder that does not exist is answered 404 and the stored file
    is removed from the uploads directory. *)
Theorem uploadFile_lists_the_file (up : Upload) (target : option string)
    (newId : string) (now : Date) (db : Db) :
  let result := uploadFile (Some up) target newId now db in
  let doc := set_updatedAt (new_file up target now) now in
  (folder_exists (or_null target) db = true →
     files db !! newId = None →
     nonempty (JS.trim (originalname up)) = true →
     nonempty (filename up) = true →
     nonempty (mimetype up) = true →
     result.1 = 201%nat
     ∧ (newId, doc) ∈ getFiles target result.2
     ∧ star_of doc = (Some false, None)
     ∧ trash_of doc = (Some false, None)
     ∧ sharing doc = mkSharing false None None
     ∧ (∀ other, other ≠ newId → files result.2 !! other = files db !! other))
  ∧ (folder_exists (or_null target) db = false →
       result.1 = 404%nat
       ∧ files result.2 = files db
       ∧ filename up ∉ disk result.2).
Proof.
  intros result doc. unfold result, Drive.uploadFile. split.
  - intros Hdir Hnew Hname Hstored Hmime. rewrite Hdir.
    unfold create, save, validate.
    rewrite bool_decide_eq_false_2 by (rewrite Hnew; by intros [? ?]).
    cbn. rewrite Hname, Hstored, Hmime, Hnew. cbn.
    change (written None (new_file up target now) now) with doc.
    split; [done |]. split.
    + apply elem_of_getFiles. cbn. split; [apply lookup_insert_eq | done].
    + repeat split. intros other Hne. by apply lookup_insert_ne.
  - intros Hdir. rewrite Hdir. cbn. split; [done |]. split; [done |].
    rewrite elem_of_difference, elem_of_singleton. tauto.
Qed.

Variable regex_valid : string → bool.

Abbreviation deleteFolder := (deleteFolder regex_valid regex_test).

(** Deleting a folder, when the database takes the pattern made of its
    path, removes it, the subfolders whose stored path lies under its
    path, and exactly the documents filed in one of those folders: no
    document is left in the deleted folder, and the documents of the root
    stay as they were.  The version records stay in the FileVersion
    collection.  When the database does not take the pattern, as for a
    path with an unbalanced parenthesis, the answer is 500 and nothing is
    deleted. *)
Theorem deleteFolder_removes_its_files (id : string) (db : Db) (dir : Folder) :
  folders db !! id = Some dir →
  let result := deleteFolder id db in
  let under (sub : Folder) : Prop :=
    regex_test ("^" +:+ path dir +:+ "/") (path sub) = true in
  (regex_valid ("^" +:+ path dir +:+ "/") = false → result = (500%nat, db))
  ∧ (regex_valid ("^" +:+ path dir +:+ "/") = true →
  result.1 = 200%nat
  ∧ folders result.2 !! id = None
  ∧ (∀ fid f, files result.2 !! fid = Some f
       ↔ files db !! fid = Some f
         ∧ ¬ ∃ parent, folder f = Some parent
               ∧ (parent = id
                  ∨ ∃ sub, folders db !! parent = Some sub ∧ under sub))
  ∧ (∀ fid f, files result.2 !! fid = Some f → folder f ≠ Some id)
  ∧ (∀ fid f, files db !! fid = Some f → folder f = None →
       files result.2 !! fid = Some f)
  ∧ versions result.2 = versions db).
Proof.
  intros Hdir result under. unfold result, Drive.deleteFolder. rewrite Hdir.
  split; [by intros -> |]. intros ->. cbn [negb].
  cbn [fst snd].
  set (folderIds := id :: _).
  assert (Hids : ∀ parent, parent ∈ folderIds
    ↔ parent = id ∨ ∃ sub, folders db !! parent = Some sub ∧ under sub).
  { intros parent. unfold folderIds. rewrite elem_of_cons.
    apply or_iff_compat_l. rewrite list_elem_of_fmap. split.
    - intros ([k sub] & -> & [Hre Hin]%list_elem_of_filter).
      apply elem_of_map_to_list in Hin. eauto.
    - intros (sub & Hsub & Hre). exists (parent, sub). split; [done |].
      apply list_elem_of_filter. split; [done |].
      by apply elem_of_map_to_list. }
  assert (Hfiles : ∀ fid f,
    files (with_folders
             (deleteMany
                (λ f : File, match folder f with
                             | Some parent => bool_decide (parent ∈ folderIds)
                             | None => false
                             end)
                (unlink_all
                   ((λ doc : string * File, currentFileName doc.2)
                      <$> find (λ f : File, match folder f with
                                            | Some parent =>
                                                bool_decide (parent ∈ folderIds)
                                            | None => false
                                            end) (files db)) db))
             (filter (λ sub : string * Folder, sub.1 ∉ folderIds) (folders db)))
      !! fid = Some f
    ↔ files db !! fid = Some f
      ∧ ¬ ∃ parent, folder f = Some parent
            ∧ (parent = id ∨ ∃ sub, folders db !! parent = Some sub ∧ under sub)).
  { intros fid f. cbn [files with_folders]. rewrite lookup_deleteMany.
    cbn [files unlink_all with_disk]. apply and_iff_compat_l.
    destruct (folder f) as [parent |].
    - rewrite bool_decide_eq_false, Hids. split.
      + intros Hnot (parent' & [= <-] & Hin). by apply Hnot.
      + intros Hnot Hin. apply Hnot. eauto.
    - split; [| done]. intros _ (parent & Hp & _). discriminate. }
  split; [done |].
  split.
  { cbn. apply map_lookup_filter_None. right. intros sub _ Hnot. cbn in Hnot.
    apply Hnot, Hids. by left. }
  split; [exact Hfiles |].
  split.
  { intros fid f Hf Hin. apply Hfiles in Hf as [_ Hnot]. apply Hnot.
    exists id. split; [done | by left]. }
  split; [| done].
  intros fid f Hf Hroot. apply Hfiles. split; [done |].
  intros (parent & Hp & _). congruence.
Qed.

End Uploads.

Lemma uploadFile_lists_the_file_witness :
  (Drive.uploadFile (λ _, ".txt") id
     (Some (mkUpload "notes.txt" "1900-notes.txt" "text/plain" 40))
     None "f9" 9000 sample_db).1 = 201%nat.
Proof.
  refine (proj1 (proj1 (uploadFile_lists_the_file (λ _, ".txt") id (λ _ _, false)
            (mkUpload "notes.txt" "1900-notes.txt" "text/plain" 40)
            None "f9" 9000 sample_db) _ _ _ _ _)); by vm_compute.
Defined.

Lemma deleteFolder_removes_its_files_witness :
  files (Drive.deleteFolder (λ _, true) (λ _ _, false) "d7" sample_folder_db).2
    !! "f3" = None.
Proof.
  destruct (deleteFolder_removes_its_files (λ _ _, false) (λ _, true) "d7"
              sample_folder_db (mkFolder "drafts" None "/drafts"))
    as (_ & Hvalid); [by vm_compute |].
  destruct (Hvalid eq_refl) as (_ & _ & Hiff & Hnone & _).
  apply eq_None_not_Some. intros [f Hf].
  assert (Hsame : files sample_folder_db !! "f3" = Some f)
    by by apply Hiff in Hf as [? _].
  apply (Hnone "f3" f Hf).
  assert (f = sample_trashed_in_folder) as ->; [| done].
  revert Hsame. unfold sample_folder_db. cbn. rewrite lookup_singleton_eq.
  congruence.
Defined.

End DriveJourneys.

(* ===================================================================== *)
(** * Tags, drive contents and storage analytics *)
(* ===================================================================== *)

Module DriveListings.
Import Drive DriveViews Samples JSFacts DriveProps DriveLifecycle.

Local Open Scope Z_scope.

Lemma among_spec (x : string) (l : list string) :
  among x l = true ↔ x ∈ l.
Proof.
  unfold among. rewrite existsb_exists. split.
  - intros (y & Hin & Heq%String.eqb_eq). subst. by apply list_elem_of_In.
  - intros Hin. exists x. split; [by apply list_elem_of_In |].
    apply String.eqb_refl.
Qed.

Lemma elem_of_getFilesByTag (tag : string) (db : Db) (doc : string * File) :
  doc ∈ getFilesByTag tag db
  ↔ files db !! doc.1 = Some doc.2
    ∧ JS.trim tag ∈ tags doc.2 ∧ is_true (isDeleted doc.2) = false.
Proof.
  unfold getFilesByTag. rewrite elem_of_sorted, elem_of_find.
  rewrite andb_true_iff, negb_true_iff, among_spec. tauto.
Qed.

Lemma elem_of_getAllTags (tag : string) (db : Db) :
  tag ∈ getAllTags db
  ↔ tag ≠ ""
    ∧ ∃ id f, files db !! id = Some f
              ∧ is_true (isDeleted f) = false ∧ tag ∈ tags f.
Proof.
  unfold getAllTags.
  rewrite list_elem_of_filter, elem_of_remove_dups, list_elem_of_join.
  apply and_iff_compat_l. split.
  - intros (l & Htag & Hl). apply list_elem_of_fmap in Hl as ([id f] & -> & Hdoc).
    apply elem_of_find in Hdoc as [Hlive Hf]. apply negb_true_iff in Hlive.
    eauto.
  - intros (id & f & Hf & Hlive & Htag). exists (tags f). split; [done |].
    apply list_elem_of_fmap. exists (id, f). split; [done |].
    apply elem_of_find. split; [by apply negb_true_iff | done].
Qed.

(** The other listings of files leave the trash out as well: the files of
    [getDriveContents] are those of [getFiles]; [getFilesByTag] lists
    exactly the documents not in the trash that carry the tag of the
    request once trimmed, as the filter of the query is, so that white
    space around the tag of a request changes nothing; and [getAllTags]
    gives exactly the non-empty tags of such documents, so that the
    trimmed tag of a request is listed exactly when it is not empty and
    [getFilesByTag] finds a file for the request. *)
Theorem tag_and_drive_listings_exclude_trash (db : Db) (folderParam : option string)
    (tag : string) :
  contentFiles (getDriveContents folderParam db) = getFiles folderParam db
  ∧ (∀ doc, doc ∈ getFilesByTag tag db
       ↔ files db !! doc.1 = Some doc.2
         ∧ JS.trim tag ∈ tags doc.2 ∧ is_true (isDeleted doc.2) = false)
  ∧ getFilesByTag tag db = getFilesByTag (JS.trim tag) db
  ∧ (tag ∈ getAllTags db
       ↔ tag ≠ ""
         ∧ ∃ id f, files db !! id = Some f
                   ∧ is_true (isDeleted f) = false ∧ tag ∈ tags f)
  ∧ (JS.trim tag ∈ getAllTags db
       ↔ JS.trim tag ≠ "" ∧ getFilesByTag tag db ≠ []).
Proof.
  split; [done |]. split; [apply elem_of_getFilesByTag |].
  split; [unfold getFilesByTag; by rewrite trim_idempotent |].
  split; [apply elem_of_getAllTags |].
  rewrite elem_of_getAllTags. apply and_iff_compat_l. split.
  - intros (id & f & Hf & Hlive & Htag) Hnil.
    assert (Hin : (id, f) ∈ getFilesByTag tag db)
      by by apply elem_of_getFilesByTag.
    rewrite Hnil in Hin. by apply elem_of_nil in Hin.
  - intros Hsome. destruct (getFilesByTag tag db) as [| [id f] rest] eqn:Hlist;
      [done |].
    assert (Hin : (id, f) ∈ getFilesByTag tag db)
      by (rewrite Hlist; apply list_elem_of_here).
    apply elem_of_getFilesByTag in Hin as (Hf & Htag & Hlive).
    exists id, f. done.
Qed.

(** After [updateTags] the document carries the tags of the request,
    trimmed, and no others: a document not in the trash is then listed by
    [getFilesByTag] for exactly the requests whose tag, trimmed, is one of
    them, and [getAllTags] gives each of them unless it is empty; a
    request without tags clears them. *)
Theorem updateTags_then_listed (id : string) (newTags : option (list string))
    (now : Date) (db : Db) (f : File) :
  files db !! id = Some f →
  validate f = true →
  is_true (isDeleted f) = false →
  let result := updateTags id newTags now db in
  result.1 = 200%nat
  ∧ (tags <$> files result.2 !! id) = Some (JS.trim <$> default [] newTags)
  ∧ (∀ tag, (∃ doc, doc ∈ getFilesByTag tag result.2 ∧ doc.1 = id)
            ↔ JS.trim tag ∈ JS.trim <$> default [] newTags)
  ∧ (∀ given, given ∈ default [] newTags →
       ∃ doc, doc ∈ getFilesByTag given result.2 ∧ doc.1 = id)
  ∧ (∀ given, given ∈ default [] newTags → JS.trim given ≠ "" →
       JS.trim given ∈ getAllTags result.2)
  ∧ (newTags = None → (tags <$> files result.2 !! id) = Some []).
Proof.
  intros Hf Hvalid Hlive result.
  set (doc := written (Some f) (set_tags f (JS.trim <$> default [] newTags)) now).
  assert (Hpaths : tags doc = JS.trim <$> default [] newTags
                   ∧ is_true (isDeleted doc) = false).
  { unfold doc.
    destruct (written_cases (Some f)
                (set_tags f (JS.trim <$> default [] newTags)) now) as [-> | ->];
      (split; [done |]); cbn; by destruct (isDeleted f) as [[] |]. }
  destruct Hpaths as [Htags Hlive'].
  assert (Hrun : result = (200%nat, with_files db (<[id := doc]> (files db)))).
  { unfold result, updateTags. rewrite Hf.
    rewrite save_and_reply_valid by done. by rewrite Hf. }
  assert (Hdoc : files result.2 !! id = Some doc).
  { rewrite Hrun. apply lookup_insert_eq. }
  assert (Hlisted : ∀ tag, (∃ d, d ∈ getFilesByTag tag result.2 ∧ d.1 = id)
                           ↔ JS.trim tag ∈ JS.trim <$> default [] newTags).
  { intros tag. rewrite <- Htags. split.
    - intros ([id' g] & Hin & Hid). cbn in Hid. subst id'.
      apply elem_of_getFilesByTag in Hin as (Hg & Htag & _). cbn in Hg.
      rewrite Hdoc in Hg. by injection Hg as <-.
    - intros Htag. exists (id, doc). split; [| done].
      by apply elem_of_getFilesByTag. }
  split; [by rewrite Hrun |].
  split; [by rewrite Hdoc, <- Htags |].
  split; [exact Hlisted |].
  split.
  { intros given Hgiven. apply Hlisted, list_elem_of_fmap. eauto. }
  split.
  { intros given Hgiven Hne. apply elem_of_getAllTags. split; [done |].
    exists id, doc. split; [done |]. split; [done |].
    rewrite Htags. apply list_elem_of_fmap. eauto. }
  intros Hnone. rewrite Hdoc. cbn. by rewrite Htags, Hnone.
Qed.

Lemma updateTags_then_listed_witness :
  JS.trim " notes " ∈ getAllTags (updateTags "f1" (Some [" notes "]) 9000 sample_db).2.
Proof.
  refine (proj1 (proj2 (proj2 (proj2 (proj2 (updateTags_then_listed "f1"
            (Some [" notes "]) 9000 sample_db sample_live _ _ _)))))
            " notes " _ _); try by vm_compute.
  apply list_elem_of_here.
Defined.

(** ** Storage analytics *)

(** Below [2 ^ 53] the integers are doubles, and their sums are exact. *)
Lemma round_double_small (n : Z) : 0 ≤ n < 2 ^ 53 → round_double n = n.
Proof.
  intros [Hlo Hhi]. unfold round_double.
  assert (He : Z.log2 (Z.abs n) - 52 ≤ 0).
  { rewrite Z.abs_eq by done. destruct (decide (n = 0)) as [-> | Hne]; [done |].
    assert (Z.log2 n < 53) by (apply Z.log2_lt_pow2; lia). lia. }
  apply Z.leb_le in He. cbn zeta. by rewrite He.
Qed.

Lemma js_add_exact (a b : Z) :
  0 ≤ a → 0 ≤ b → a + b < 2 ^ 53 → js_add a b = a + b.
Proof. intros. unfold js_add. apply round_double_small. lia. Qed.

(** The bytes of a list of documents, added as integers. *)
Lemma exact_bytes_nonneg (docs : list (string * File)) :
  Forall (λ doc, 0 ≤ size doc.2) docs →
  0 ≤ foldr (λ doc total, size doc.2 + total) 0 docs.
Proof. induction 1; cbn; lia. Qed.

Lemma total_exact (docs : list (string * File)) (start : Z) :
  Forall (λ doc, 0 ≤ size doc.2) docs → 0 ≤ start →
  start + foldr (λ doc total, size doc.2 + total) 0 docs < 2 ^ 53 →
  foldl (λ sum doc, js_add sum (size doc.2)) start docs
  = start + foldr (λ doc total, size doc.2 + total) 0 docs.
Proof.
  intros Hpos. revert start.
  induction Hpos as [| doc docs Hdoc Hrest IH]; intros start Hstart Hbound;
    cbn in *; [lia |].
  pose proof (exact_bytes_nonneg docs Hrest) as Hsum.
  rewrite js_add_exact by lia. rewrite IH by lia. lia.
Qed.

Lemma sum_sizes_nonneg (b : list (string * TypeStats)) :
  Forall (λ entry, 0 ≤ statSize entry.2) b → 0 ≤ sum_sizes b.
Proof. unfold sum_sizes. induction 1; cbn; lia. Qed.

Lemma count_file_counts (type : string) (fileSize : Z)
    (b : list (string * TypeStats)) :
  sum_counts (count_file type fileSize b) = sum_counts b + 1.
Proof.
  unfold sum_counts.
  induction b as [| [t stats] rest IH]; cbn; [lia |].
  destruct (String.eqb t type); cbn; lia.
Qed.

Lemma count_file_sizes (type : string) (fileSize : Z)
    (b : list (string * TypeStats)) :
  Forall (λ entry, 0 ≤ statSize entry.2) b → 0 ≤ fileSize →
  sum_sizes b + fileSize < 2 ^ 53 →
  sum_sizes (count_file type fileSize b) = sum_sizes b + fileSize
  ∧ Forall (λ entry, 0 ≤ statSize entry.2) (count_file type fileSize b).
Proof.
  intros Hpos Hsize. induction Hpos as [| [t stats] rest Hentry Hrest IH];
    intros Hbound.
  - cbn. unfold sum_sizes in *. cbn in *. rewrite js_add_exact by lia.
    split; [lia |]. repeat constructor. cbn. lia.
  - pose proof (sum_sizes_nonneg rest Hrest) as Hsum.
    unfold sum_sizes in *. cbn in *. destruct (String.eqb t type); cbn.
    + rewrite js_add_exact by lia. split; [lia |].
      constructor; [cbn; lia | done].
    + destruct IH as [IHs IHpos]; [lia |]. rewrite IHs. split; [lia |].
      by constructor.
Qed.

Lemma breakdown_counts (docs : list (string * File)) (b : list (string * TypeStats)) :
  sum_counts
    (foldl (λ breakdown doc, count_file (category_of doc.2) (size doc.2) breakdown)
       b docs)
  = sum_counts b + Z.of_nat (length docs).
Proof.
  revert b. induction docs as [| doc docs IH]; intros b; cbn [foldl length];
    [lia |].
  rewrite IH, count_file_counts. lia.
Qed.

Lemma breakdown_sizes (docs : list (string * File)) (b : list (string * TypeStats)) :
  Forall (λ doc, 0 ≤ size doc.2) docs →
  Forall (λ entry, 0 ≤ statSize entry.2) b →
  sum_sizes b + foldr (λ doc total, size doc.2 + total) 0 docs < 2 ^ 53 →
  sum_sizes
    (foldl (λ breakdown doc, count_file (category_of doc.2) (size doc.2) breakdown)
       b docs)
  = sum_sizes b + foldr (λ doc total, size doc.2 + total) 0 docs.
Proof.
  intros Hpos. revert b.
  induction Hpos as [| doc docs Hdoc Hrest IH]; intros b Hb Hbound;
    cbn [foldl foldr] in *; [lia |].
  pose proof (exact_bytes_nonneg docs Hrest) as Hsum.
  destruct (count_file_sizes (category_of doc.2) (size doc.2) b Hb Hdoc)
    as [Hs Hb']; [lia |].
  rewrite IH; [| done | lia]. lia.
Qed.

Lemma length_find_split (query : File → bool) (coll : gmap string File) :
  (length (find query coll) + length (find (λ f, negb (query f)) coll))%nat
  = length (map_to_list coll).
Proof.
  unfold find.
  induction (map_to_list coll) as [| doc l IH]; [done |].
  rewrite !filter_cons. destruct (query doc.2) eqn:Hq; cbn.
  - rewrite decide_True, decide_False by done. cbn. lia.
  - rewrite decide_False, decide_True by done. cbn. lia.
Qed.

Lemma length_find_le (q1 q2 : File → bool) (coll : gmap string File) :
  (∀ f, q1 f = true → q2 f = true) →
  (length (find q1 coll) ≤ length (find q2 coll))%nat.
Proof.
  intros Himpl. unfold find.
  induction (map_to_list coll) as [| doc l IH]; [done |].
  rewrite !filter_cons. destruct (q1 doc.2) eqn:Hq1.
  - rewrite (Himpl _ Hq1), !decide_True by done. cbn. lia.
  - rewrite (decide_False (P := false = true)) by done.
    destruct (decide (q2 doc.2 = true)); cbn; lia.
Qed.

(** The figures of the storage analytics agree with one another: the
    counts of the breakdown by type add up to the number of files; the
    files counted and the files in the trash are all the documents of the
    collection; the starred and the recent files are at most as many as
    the files counted; and, where no size is negative and the bytes of the
    files counted stay below [2 ^ 53], so that no sum is rounded, the
    sizes of the breakdown add up to the total storage, which is the
    number of those bytes. *)
Theorem storage_analytics_add_up (now : Date) (db : Db) :
  let report := getStorageAnalytics now db in
  let counted := find (λ f, negb (is_true (isDeleted f))) (files db) in
  let bytes := foldr (λ doc total, size doc.2 + total) 0 counted in
  sum_counts (breakdown report) = Z.of_nat (totalFiles report)
  ∧ (totalFiles report + trashCount report)%nat = length (map_to_list (files db))
  ∧ (starredCount report ≤ totalFiles report)%nat
  ∧ (recentUploads report ≤ totalFiles report)%nat
  ∧ (Forall (λ doc, 0 ≤ size doc.2) counted → bytes < 2 ^ 53 →
       totalStorage report = bytes
       ∧ sum_sizes (breakdown report) = totalStorage report).
Proof.
  intros report counted bytes. unfold report, getStorageAnalytics.
  cbn [breakdown totalStorage totalFiles trashCount starredCount recentUploads].
  fold counted.
  split; [apply (breakdown_counts counted []) |].
  split.
  { rewrite Nat.add_comm.
    rewrite <- (length_find_split (λ f, is_true (isDeleted f)) (files db)).
    done. }
  split; [apply length_find_le; by intros f [_ ?]%andb_prop |].
  split; [apply length_filter |].
  intros Hpos Hbound.
  rewrite (total_exact counted 0 Hpos) by (unfold bytes in Hbound; lia).
  split; [done |].
  unfold typeBreakdown. rewrite (breakdown_sizes counted [] Hpos); [done | done |].
  unfold bytes in Hbound. cbn. lia.
Qed.

Lemma storage_analytics_add_up_witness :
  sum_sizes (breakdown (getStorageAnalytics 9000 sample_db))
  = totalStorage (getStorageAnalytics 9000 sample_db).
Proof.
  refine (proj2 (proj2 (proj2 (proj2 (proj2
            (storage_analytics_add_up 9000 sample_db)))) _ _)).
  - apply Forall_forall. intros doc [_ Hdoc]%elem_of_find. revert Hdoc.
    unfold sample_db. cbn.
    intros [[_ <-] | [_ [[_ <-] | [_ Hf]]%lookup_insert_Some]]%lookup_insert_Some;
      [by vm_compute | by vm_compute |].
    by rewrite lookup_empty in Hf.
  - by vm_compute.
Defined.

(** Beyond [2 ^ 53] the sums are rounded: one byte added to a total of
    [2 ^ 53] is lost. *)
Example js_add_rounds : js_add (2 ^ 53) 1 = 2 ^ 53.
Proof. reflexivity. Qed.

#[local] Instance by_size_desc_total : Total by_size_desc.
Proof.
  intros a b. unfold by_size_desc. rewrite !Z.leb_le. lia.
Qed.

#[local] Instance by_size_desc_trans : Transitive by_size_desc.
Proof.
  intros a b c. unfold by_size_desc. rewrite !Z.leb_le. lia.
Qed.

(** The largest files of the analytics are the ten largest files that are
    not in the trash, or all of them when there are fewer: they come in
    descending order of size, and a file that is not in the trash is
    listed or is no larger than any listed file. *)
Theorem largest_files_are_the_largest (now : Date) (db : Db) :
  let report := getStorageAnalytics now db in
  length (largestFiles report) = Nat.min 10 (totalFiles report)
  ∧ StronglySorted (λ a b, largeSize b ≤ largeSize a) (largestFiles report)
  ∧ (∀ large, large ∈ largestFiles report →
       ∃ f, files db !! largeId large = Some f
            ∧ is_true (isDeleted f) = false
            ∧ largeSize large = size f ∧ largeName large = originalName f)
  ∧ (∀ id f large, files db !! id = Some f → is_true (isDeleted f) = false →
       large ∈ largestFiles report →
       to_large (id, f) ∈ largestFiles report ∨ size f ≤ largeSize large).
Proof.
  intros report. unfold report, getStorageAnalytics. cbn.
  set (docs := find (λ f, negb (is_true (isDeleted f))) (files db)).
  set (sorted := merge_sort by_size_desc docs).
  assert (Hsorted : StronglySorted by_size_desc sorted)
    by apply (StronglySorted_merge_sort by_size_desc).
  split.
  { rewrite length_fmap, length_take. unfold sorted.
    by rewrite merge_sort_Permutation. }
  split.
  { apply (StronglySorted_fmap to_large by_size_desc).
    - intros a b Hab. cbn. by apply Z.leb_le.
    - rewrite <- (take_drop 10 sorted) in Hsorted.
      by apply StronglySorted_app_1_l in Hsorted. }
  split.
  { intros large Hin. apply list_elem_of_fmap in Hin as ([id f] & -> & Hin).
    apply subseteq_take in Hin. apply elem_of_sorted, elem_of_find in Hin.
    destruct Hin as [Hlive Hf]. apply negb_true_iff in Hlive. cbn. eauto. }
  intros id f large Hf Hlive Hin.
  assert (Hdoc : (id, f) ∈ sorted).
  { apply elem_of_sorted, elem_of_find. cbn. by rewrite Hlive. }
  rewrite <- (take_drop 10 sorted) in Hdoc, Hsorted.
  apply elem_of_app in Hdoc as [Htop | Hrest].
  - left. apply list_elem_of_fmap. eauto.
  - right. apply list_elem_of_fmap in Hin as (top & -> & Htop).
    pose proof (StronglySorted_app_1_elem_of _ _ _ _ _ Hsorted Htop Hrest) as Hle.
    cbn. by apply Z.leb_le.
Qed.

End DriveListings.

(* ===================================================================== *)
(** * Types of files and previews *)
(* ===================================================================== *)

Module PreviewProps.
Import Drive DriveViews Samples.

Ltac split_ifs :=
  repeat match goal with
         | |- context [if ?c then _ else _] => destruct c
         end.

(** The preview type and the storage category of a file agree on media:
    a file previews as an image exactly when it is counted among the
    images, and likewise for videos, audio and PDF; the four are decided
    by the MIME type alone, before the extension is looked at. *)
Theorem preview_and_category_agree_on_media
    (mimeType : option string) (extension : string) :
  (getPreviewType mimeType extension = "image"
     ↔ getFileCategory mimeType extension = "Images")
  ∧ (getPreviewType mimeType extension = "video"
       ↔ getFileCategory mimeType extension = "Videos")
  ∧ (getPreviewType mimeType extension = "audio"
       ↔ getFileCategory mimeType extension = "Audio")
  ∧ (getPreviewType mimeType extension = "pdf"
       ↔ getFileCategory mimeType extension = "PDFs")
  ∧ (getPreviewType mimeType extension = "image"
       ↔ startsWith mimeType "image/" = true).
Proof.
  unfold getPreviewType, getFileCategory.
  destruct (startsWith mimeType "image/");
    [repeat split; done |].
  destruct (startsWith mimeType "video/");
    [repeat split; done |].
  destruct (startsWith mimeType "audio/");
    [repeat split; done |].
  destruct (bool_decide (mimeType = Some "application/pdf"));
    [repeat split; done |].
  repeat split; split_ifs; done.
Qed.

Lemma among_codeExtensions (extension : string) :
  among extension codeExtensions = true →
  getCodeLanguage extension ≠ "plaintext".
Proof.
  unfold among, codeExtensions. cbn [existsb]. rewrite !orb_true_iff.
  intros H. repeat (destruct H as [H | H];
    [apply String.eqb_eq in H; subst; by vm_compute |]).
  done.
Qed.

Lemma language_without_code (extension : string) :
  among extension codeExtensions = false →
  getCodeLanguage extension = "markdown" ∨ getCodeLanguage extension = "plaintext".
Proof.
  unfold among, codeExtensions. cbn [existsb]. rewrite !orb_false_iff.
  intros H. unfold getCodeLanguage, languages. cbn [table_get].
  destruct_and!.
  repeat match goal with
         | Heq : String.eqb _ _ = false |- _ => rewrite Heq; clear Heq
         end.
  destruct (String.eqb extension ".md"); [by left |].
  destruct (String.eqb extension ".txt"); by right.
Qed.

(** A file that previews as code has a highlighting language of its own:
    [getCodeLanguage] never falls back to plain text for it.  Every
    extension of the code list previews as code unless the MIME type makes
    the file a medium, and a file that previews as text is highlighted as
    markdown or as plain text. *)
Theorem code_preview_has_a_language (mimeType : option string) (extension : string) :
  (getPreviewType mimeType extension = "code" →
     extension ∈ codeExtensions ∧ getCodeLanguage extension ≠ "plaintext")
  ∧ (extension ∈ codeExtensions →
       getPreviewType mimeType extension = "code"
       ∨ getPreviewType mimeType extension = "image"
       ∨ getPreviewType mimeType extension = "video"
       ∨ getPreviewType mimeType extension = "audio"
       ∨ getPreviewType mimeType extension = "pdf")
  ∧ (getPreviewType mimeType extension = "text" →
       getCodeLanguage extension = "markdown"
       ∨ getCodeLanguage extension = "plaintext").
Proof.
  unfold getPreviewType. split; [| split].
  - destruct (among extension codeExtensions) eqn:Hcode.
    + intros _. split; [| by apply among_codeExtensions].
      by apply DriveListings.among_spec.
    + split_ifs; done.
  - intros Hin. apply DriveListings.among_spec in Hin. rewrite Hin.
    split_ifs; auto.
  - destruct (among extension codeExtensions) eqn:Hcode.
    + split_ifs; done.
    + intros _. by apply language_without_code.
Qed.

Lemma code_preview_has_a_language_witness :
  getCodeLanguage ".py" ≠ "plaintext".
Proof.
  exact (proj2 (proj1 (code_preview_has_a_language (Some "text/x-python") ".py")
                  eq_refl)).
Defined.






End PreviewProps.

(* ===================================================================== *)
(** * Properties of the folder controller *)
(* ===================================================================== *)

Module FolderProps.
Import JS Drive DriveViews FolderController Samples JSFacts DriveProps.

Lemma no_name_false (given : option string) :
  no_name given = false →
  ∃ n, given = Some n ∧ trim n ≠ "".
Proof.
  destruct given as [n |]; [| done]. cbn.
  intros [_ Hne%String.eqb_neq]%orb_false_elim. eauto.
Qed.

Lemma folder_name_taken_spec (except : option string) (wanted : string)
    (parent : option string) (db : Db) :
  folder_name_taken except wanted parent db = true
  ↔ ∃ other d, Some other ≠ except ∧ folders db !! other = Some d
               ∧ name d = wanted ∧ parentFolder d = parent.
Proof.
  unfold folder_name_taken. rewrite existsb_exists. split.
  - intros ([other d] & Hin & Hall). apply list_elem_of_In in Hin.
    apply elem_of_map_to_list in Hin.
    apply andb_prop in Hall as [[Hne Hname]%andb_prop Hparent].
    apply negb_true_iff, bool_decide_eq_false in Hne.
    apply String.eqb_eq in Hname.
    unfold same_folder in Hparent. apply bool_decide_eq_true in Hparent.
    exists other, d. done.
  - intros (other & d & Hne & Hd & Hname & Hparent). exists (other, d). split.
    + apply list_elem_of_In. by apply elem_of_map_to_list.
    + cbn. apply andb_true_intro. split; [apply andb_true_intro; split |].
      * by apply negb_true_iff, bool_decide_eq_false.
      * by apply String.eqb_eq.
      * unfold same_folder. by apply bool_decide_eq_true.
Qed.

(** Writing a folder whose name no other folder of its place carries keeps
    the names of every place apart. *)
Lemma siblings_distinct_insert (coll : gmap string Folder) (i : string)
    (d : Folder) :
  siblings_distinct coll →
  (∀ j b, j ≠ i → coll !! j = Some b →
          parentFolder b = parentFolder d → name b ≠ name d) →
  siblings_distinct (<[i := d]> coll).
Proof.
  intros Hinv Hfree j k a b Ha Hb Hparent Hname.
  destruct (decide (j = i)) as [-> | Hj], (decide (k = i)) as [-> | Hk];
    [done | | |].
  - rewrite lookup_insert_eq in Ha. rewrite lookup_insert_ne in Hb by done.
    injection Ha as <-. by destruct (Hfree k b Hk Hb).
  - rewrite lookup_insert_eq in Hb. rewrite lookup_insert_ne in Ha by done.
    injection Hb as <-. by destruct (Hfree j a Hj Ha).
  - rewrite lookup_insert_ne in Ha, Hb by done. eauto.
Qed.

Lemma same_names_siblings (before after : gmap string Folder) :
  same_names before after → siblings_distinct before → siblings_distinct after.
Proof.
  intros Hsame Hinv i j a b Ha Hb Hparent Hname.
  pose proof (Hsame i) as Hi. pose proof (Hsame j) as Hj.
  rewrite Ha in Hi. rewrite Hb in Hj. cbn in Hi, Hj.
  destruct (before !! i) as [a0 |] eqn:Ha0; [| done].
  destruct (before !! j) as [b0 |] eqn:Hb0; [| done].
  injection Hi as Hi1 Hi2. injection Hj as Hj1 Hj2.
  apply (Hinv i j a0 b0); congruence.
Qed.

Lemma same_names_refl (coll : gmap string Folder) : same_names coll coll.
Proof. done. Qed.

Lemma same_names_trans (a b c : gmap string Folder) :
  same_names a b → same_names b c → same_names a c.
Proof. intros Hab Hbc i. by rewrite Hbc, Hab. Qed.

Lemma up_to_last_slash_app (parentPath leaf : string) :
  up_to_last_slash leaf = None →
  up_to_last_slash (parentPath +:+ "/" +:+ leaf) = Some parentPath.
Proof.
  intros Hleaf. induction parentPath as [| c rest IH].
  - change (up_to_last_slash (String "/" leaf) = Some ""). cbn.
    by rewrite Hleaf.
  - change (up_to_last_slash (String c (rest +:+ "/" +:+ leaf))
            = Some (String c rest)).
    cbn. by rewrite IH.
Qed.

(** The parent path that a rename reads off the path of a folder is the
    one a creation there starts from, when the name has no slash. *)
Lemma child_path_round_trip (parentPath leaf other : string) :
  up_to_last_slash leaf = None →
  child_path (parent_path (child_path parentPath leaf)) other
  = child_path parentPath other.
Proof.
  intros Hleaf. destruct (String.eqb_spec parentPath "/") as [-> | Hroot].
  - change (child_path "/" leaf) with ("" +:+ "/" +:+ leaf).
    unfold parent_path. by rewrite (up_to_last_slash_app "" leaf Hleaf).
  - assert (Hmade : child_path parentPath leaf = parentPath +:+ "/" +:+ leaf).
    { unfold child_path. by destruct (String.eqb_spec parentPath "/"). }
    rewrite Hmade. unfold parent_path.
    rewrite (up_to_last_slash_app parentPath leaf Hleaf).
    cbn [default from_option id]. by destruct parentPath.
Qed.

Section Paths.

Variable regex_valid : string → bool.
Variable regex_test : string → string → bool.
Variable replace : string → string → string → string.

(** The loop over the subfolders writes paths only, however far it gets,
    as long as what it writes are documents of the collection. *)
Lemma save_paths_same_names (subfolders : list (string * Folder))
    (oldPath newPath : string) (db : Db) :
  (∀ sub, sub ∈ subfolders →
     (λ d, (name d, parentFolder d)) <$> folders db !! sub.1
     = Some (name sub.2, parentFolder sub.2)) →
  same_names (folders db)
    (folders (save_paths replace subfolders oldPath newPath db).2).
Proof.
  revert db. induction subfolders as [| sub rest IH]; intros db Hdocs; cbn;
    [done |].
  destruct (validate_folder _); [| done].
  assert (Hstep : same_names (folders db)
                    (<[sub.1 := set_path sub.2
                                  (replace (path sub.2) oldPath newPath)]>
                       (folders db))).
  { intros i. destruct (decide (i = sub.1)) as [-> | Hne].
    - rewrite lookup_insert_eq. cbn. symmetry. apply Hdocs. left.
    - by rewrite lookup_insert_ne. }
  eapply same_names_trans; [exact Hstep |].
  apply IH. intros other Hother. cbn. rewrite (Hstep other.1).
  apply Hdocs. by right.
Qed.

Lemma updateSubfolderPaths_same_names (oldPath newPath : string) (db : Db) :
  same_names (folders db)
    (folders (updateSubfolderPaths regex_valid regex_test replace oldPath
                newPath db).2).
Proof.
  unfold updateSubfolderPaths. destruct (regex_valid _); cbn [negb]; [| done].
  apply save_paths_same_names. intros [i d] Hin.
  apply list_elem_of_filter in Hin as [_ Hin].
  apply elem_of_map_to_list in Hin. cbn. by rewrite Hin.
Qed.

(** Creating, renaming and deleting folders never leave two folders of one
    place with one name, whatever the outcome of the request: a rename that
    fails half-way through the paths of the subfolders included. *)
Theorem folders_keep_names_apart (db : Db) (given : option string)
    (parentParam : option string) (id newId : string) :
  siblings_distinct (folders db) →
  siblings_distinct (folders (createFolder given parentParam newId db).2)
  ∧ siblings_distinct
      (folders (renameFolder regex_valid regex_test replace id given db).2)
  ∧ siblings_distinct (folders (deleteFolder regex_valid regex_test id db).2).
Proof.
  intros Hinv. split; [| split].
  - unfold createFolder.
    destruct (no_name given) eqn:Hname; [done |]. cbn zeta.
    destruct (match or_null parentParam with
              | Some _ => _ | None => _ end) as [parentPath |]; [| done].
    destruct (folder_name_taken _ _ _ _) eqn:Htaken; [done |].
    destruct (_ && _); [| done]. cbn.
    apply siblings_distinct_insert; [done |].
    intros j b _ Hb Hparent Hsame. cbn in Hparent, Hsame.
    rewrite trim_idempotent in Hsame.
    assert (Hex : folder_name_taken None (trim (default "" given))
                    (or_null parentParam) db = true).
    { apply folder_name_taken_spec. exists j, b. done. }
    congruence.
  - unfold renameFolder.
    destruct (no_name given) eqn:Hname; [done |]. cbn zeta.
    destruct (folders db !! id) as [dir |] eqn:Hdir; [| done].
    destruct (folder_name_taken _ _ _ _) eqn:Htaken; [done |].
    destruct (validate_folder _); [| done].
    set (renamed := <[id := _]> (folders db)).
    assert (Hrenamed : siblings_distinct renamed).
    { apply siblings_distinct_insert; [done |].
      intros j b Hj Hb Hparent Hsame. cbn in Hparent, Hsame.
      rewrite trim_idempotent in Hsame.
      assert (Hex : folder_name_taken (Some id) (trim (default "" given))
                      (parentFolder dir) db = true).
      { apply folder_name_taken_spec. exists j, b.
        split; [congruence | done]. }
      congruence. }
    pose proof (updateSubfolderPaths_same_names (path dir)
                  (child_path (parent_path (path dir)) (trim (default "" given)))
                  (with_folders db renamed)) as Hloop.
    destruct (updateSubfolderPaths _ _ _ _ _ _) as [[|] db']; cbn in *;
      by apply (same_names_siblings renamed).
  - unfold deleteFolder. destruct (folders db !! id); [| done].
    destruct (regex_valid _); [| done]. cbn.
    intros i j a b [Ha _]%map_lookup_filter_Some [Hb _]%map_lookup_filter_Some.
    by apply Hinv.
Qed.

Lemma save_paths_elsewhere (subfolders : list (string * Folder))
    (oldPath newPath : string) (db : Db) (i : string) :
  i ∉ subfolders.*1 →
  folders (save_paths replace subfolders oldPath newPath db).2 !! i
  = folders db !! i.
Proof.
  revert db. induction subfolders as [| sub rest IH]; intros db Hout; cbn;
    [done |].
  apply not_elem_of_cons in Hout as [Hne Hout].
  destruct (validate_folder _); [| done].
  rewrite IH by done. cbn. by rewrite lookup_insert_ne.
Qed.

(** A rename that succeeds leaves the folder under the path of its parent:
    for a folder whose path was made from a parent path and a name without
    a slash, as [createFolder] makes it, the new path is the one a creation
    under the new name would have given.  The new path is taken not to
    match the pattern of the subfolders of the old one. *)
Theorem renameFolder_keeps_the_parent_path (db db' : Db) (id : string)
    (dir : Folder) (parentPath leaf given : string) :
  folders db !! id = Some dir →
  path dir = child_path parentPath leaf →
  up_to_last_slash leaf = None →
  regex_test ("^" +:+ path dir +:+ "/") (child_path parentPath (trim given))
  = false →
  renameFolder regex_valid regex_test replace id (Some given) db
  = (200%nat, db') →
  folders db' !! id
  = Some (mkFolder (trim given) (parentFolder dir)
            (child_path parentPath (trim given))).
Proof.
  intros Hdir Hpath Hleaf Hregex. unfold renameFolder.
  destruct (no_name (Some given)); [done |]. cbn zeta.
  change (default "" (Some given)) with given. rewrite Hdir.
  destruct (folder_name_taken _ _ _ _); [done |].
  destruct (validate_folder _); [| done].
  assert (Hround : child_path (parent_path (path dir)) (trim given)
                   = child_path parentPath (trim given)).
  { rewrite Hpath. by apply child_path_round_trip. }
  rewrite Hround, trim_idempotent.
  set (renamed := mkFolder _ _ _).
  set (written := with_folders db _).
  pose proof (save_paths_elsewhere
                (find_folders (λ d, regex_test ("^" +:+ path dir +:+ "/") (path d))
                   (folders written))
                (path dir) (child_path parentPath (trim given)) written id)
    as Hkept.
  unfold updateSubfolderPaths. destruct (regex_valid _); cbn [negb]; [| done].
  destruct (save_paths _ _ _ _ _) as [[|] after]; [| done].
  intros [= <-]. cbn in Hkept. rewrite Hkept; [apply lookup_insert_eq |].
  intros ([other d] & -> & Hin)%list_elem_of_fmap.
  apply list_elem_of_filter in Hin as [Hmatch Hin].
  apply elem_of_map_to_list in Hin. cbn in Hin, Hmatch.
  rewrite lookup_insert_eq in Hin. injection Hin as <-. cbn in Hmatch.
  congruence.
Qed.

End Paths.

Lemma folders_keep_names_apart_witness :
  siblings_distinct
    (folders (createFolder (Some " notes ") (Some "d7") "d8" sample_folder_db).2)
  ∧ createFolder (Some " notes ") (Some "d7") "d8" sample_folder_db
    = (201%nat,
       with_folders sample_folder_db
         (<["d8" := mkFolder "notes" (Some "d7") "/drafts/notes"]>
            (folders sample_folder_db))).
Proof.
  split; [| by vm_compute].
  refine (proj1 (folders_keep_names_apart (λ _, true) (λ _ _, false)
                   (λ s _ _, s) sample_folder_db (Some " notes ") (Some "d7") "d7" "d8" _)).
  intros i j a b Ha Hb _ _. cbn in Ha, Hb.
  apply lookup_singleton_Some in Ha as [<- _].
  by apply lookup_singleton_Some in Hb as [<- _].
Defined.

Lemma renameFolder_keeps_the_parent_path_witness :
  ∃ db', renameFolder (λ _, true) (λ _ _, false) (λ s _ _, s) "d7"
           (Some "final ") sample_folder_db = (200%nat, db')
    ∧ folders db' !! "d7" = Some (mkFolder "final" None "/final").
Proof.
  eexists. split; [by vm_compute |].
  refine (renameFolder_keeps_the_parent_path (λ _, true) (λ _ _, false)
            (λ s _ _, s) sample_folder_db _ "d7" (mkFolder "drafts" None "/drafts")
            "" "drafts" "final " _ _ _ _ _);
    by vm_compute.
Defined.

(** A name with a slash in it: the rename reads the parent path off the
    path, and the folder lands under its own old name. *)
Example renameFolder_after_a_slash :
  child_path (parent_path (child_path "" "a/b")) "c" = "/a/c".
Proof. reflexivity. Qed.

(** A folder that was created is listed in its place under the trimmed
    name, and asking again for a folder of that name there, however the
    name is padded with white space, is refused with 400 and writes
    nothing. *)
Theorem createFolder_then_listed_and_refused (db db' : Db)
    (given : string) (parentParam : option string) (newId : string) :
  createFolder (Some given) parentParam newId db = (201%nat, db') →
  (∃ dir, (newId, dir) ∈ getFolders parentParam db' ∧ name dir = trim given)
  ∧ (∀ again otherId, trim again = trim given →
       createFolder (Some again) parentParam otherId db' = (400%nat, db')).
Proof.
  unfold createFolder. intros Hrun.
  destruct (no_name (Some given)) eqn:Hname; [by injection Hrun |].
  cbn zeta in Hrun. cbn [default] in Hrun.
  destruct (match or_null parentParam with
            | Some _ => _ | None => _ end) as [parentPath |] eqn:Hparent;
    [| by injection Hrun].
  destruct (folder_name_taken _ _ _ _); [by injection Hrun |].
  destruct (_ && _) eqn:Hok; [| by injection Hrun].
  apply andb_prop in Hok as [_ Hfresh].
  apply negb_true_iff, bool_decide_eq_false in Hfresh.
  injection Hrun as <-. rewrite trim_idempotent.
  apply no_name_false in Hname as (n & [= <-] & Hne).
  split.
  - exists (mkFolder (trim given) (or_null parentParam)
              (child_path parentPath (trim given))).
    split; [| reflexivity]. unfold getFolders.
    apply elem_of_sorted, list_elem_of_filter. split.
    + unfold same_folder. by apply bool_decide_eq_true.
    + apply elem_of_map_to_list. cbn. apply lookup_insert_eq.
  - intros again otherId Hagain.
    assert (Hname : no_name (Some again) = false).
    { cbn. rewrite Hagain. apply orb_false_intro; apply String.eqb_neq;
        [| done]. intros ->. by apply Hne. }
    rewrite Hname. cbn zeta. cbn [default from_option id folders with_folders].
    assert (Hstill : match or_null parentParam with
                     | Some parentId =>
                         match <[newId := mkFolder (trim given)
                                            (or_null parentParam)
                                            (child_path parentPath (trim given))]>
                                 (folders db) !! parentId with
                         | Some parent => Some (path parent)
                         | None => None
                         end
                     | None => Some ""
                     end = Some parentPath).
    { destruct (or_null parentParam) as [parentId |]; [| done].
      destruct (folders db !! parentId) as [parent |] eqn:Hp; [| done].
      rewrite lookup_insert_ne; [by rewrite Hp |].
      intros <-. apply Hfresh. by rewrite Hp. }
    rewrite Hstill.
    assert (Htaken : folder_name_taken None (trim again) (or_null parentParam)
                       (with_folders db
                          (<[newId := mkFolder (trim given) (or_null parentParam)
                                        (child_path parentPath (trim given))]>
                             (folders db))) = true).
    { apply folder_name_taken_spec. eexists newId, _.
      split; [done |]. split; [apply lookup_insert_eq |]. done. }
    by rewrite Htaken.
Qed.

Lemma createFolder_then_listed_and_refused_witness :
  ∃ db', createFolder (Some " notes ") (Some "d7") "d8" sample_folder_db
         = (201%nat, db')
    ∧ createFolder (Some "notes") (Some "d7") "d9" db' = (400%nat, db').
Proof.
  eexists. split; [by vm_compute |].
  refine (proj2 (createFolder_then_listed_and_refused sample_folder_db _
                   " notes " (Some "d7") "d8" _) "notes" "d9" _);
    by vm_compute.
Defined.

End FolderProps.

(* ===================================================================== *)
(** * Properties of the retrieval core *)
(* ===================================================================== *)

Module RagProps.
Import Rag Samples.

Section Chunker.

Context {Token : Type}.
Variable tokenize : string → list Token.

Implicit Types (toks : list Token).





(** C3: a text of at most [chunk_size_tokens] tokens, under a valid
    configuration, yields exactly one chunk, which holds all the tokens of
    the text, from offset 0 to the end. *)
Theorem chunk_short_text_single (text : string) (size overlap : nat) :
  valid_config size overlap = true →
  (length (tokenize text) ≤ size)%nat →
  chunk tokenize text size overlap
  = inr [mkChunk 0 (tokenize text) (length (tokenize text))
           0 (length (tokenize text))].
Proof.
  intros Hvalid Hshort. unfold chunk. rewrite Hvalid. cbn [windows].
  unfold reaches_end. rewrite (proj2 (Nat.leb_le _ _)) by lia.
  unfold window_at. rewrite drop_0, take_ge by lia. done.
Qed.

End Chunker.

(** The scenario of section 8: [3 * chunk_size_tokens] tokens with an
    overlap of a fifth of the size give
    [ceil ((3 * size - overlap) / (size - overlap))] chunks; here 5, 1 and
    [ceil (14 / 4) = 4]. *)
Example chunk_count_scenario :
  ∃ chunks, chunk words "a b c d e f g h i j k l m n o" 5 1 = inr chunks
    ∧ length chunks = 4%nat
    ∧ start_offset <$> chunks = [0; 4; 8; 12]%nat
    ∧ token_count <$> chunks = [5; 5; 5; 3]%nat.
Proof. eexists. split; [reflexivity |]. by vm_compute. Qed.



Lemma chunk_short_text_single_witness :
  chunk words "alpha beta  gamma" 4 1
  = inr [mkChunk 0 ["alpha"; "beta"; "gamma"] 3 0 3].
Proof.
  apply (chunk_short_text_single words "alpha beta  gamma" 4 1).
  - reflexivity.
  - vm_compute. lia.
Defined.

Section VectorIndex.

Context {Token : Type}.
Variable similarity : Embedding → Embedding → Q.

Implicit Types (a b c : Hit Token).

Lemma ranks_before_spec a b :
  ranks_before a b ↔
  (hit_score b < hit_score a)%Q
  ∨ ((hit_score a == hit_score b)%Q
     ∧ (chunk_id (hit_chunk a) ≤ chunk_id (hit_chunk b))%nat).
Proof.
  unfold ranks_before, ranks_beforeb.
  destruct (hit_score b ?= hit_score a)%Q eqn:Hcmp.
  - apply Qeq_alt in Hcmp. rewrite Nat.leb_le. split.
    + intros Hid. right. split; [lra | done].
    + intros [Hlt | [_ Hid]]; [lra | done].
  - apply Qlt_alt in Hcmp. split; [by left | done].
  - apply Qgt_alt in Hcmp. split; [done |].
    intros [Hlt | [Heq _]]; lra.
Qed.

#[local] Instance ranks_before_total : Total (@ranks_before Token).
Proof.
  intros a b. rewrite !ranks_before_spec.
  destruct (Q_dec (hit_score a) (hit_score b)) as [[Hlt | Hgt] | Heq]; [auto .. |].
  destruct (Nat.le_ge_cases (chunk_id (hit_chunk a)) (chunk_id (hit_chunk b))).
  - left. right. done.
  - right. right. split; [lra | done].
Qed.

#[local] Instance ranks_before_trans : Transitive (@ranks_before Token).
Proof.
  intros a b c. rewrite !ranks_before_spec.
  intros [Hab | [Hab Hid1]] [Hbc | [Hbc Hid2]].
  - left. lra.
  - left. lra.
  - left. lra.
  - right. split; [lra | lia].
Qed.

Lemma StronglySorted_weaken {A} (R1 R2 : relation A) (l : list A) :
  (∀ x y, R1 x y → R2 x y) → StronglySorted R1 l → StronglySorted R2 l.
Proof.
  intros Himpl. induction 1 as [| x l _ IH Hall]; constructor; [done |].
  eapply Forall_impl; [exact Hall | auto].
Qed.

Lemma StronglySorted_take {A} (R : relation A) (n : nat) (l : list A) :
  StronglySorted R l → StronglySorted R (take n l).
Proof.
  intros Hsorted. rewrite <- (take_drop n l) in Hsorted.
  by apply StronglySorted_app_1_l in Hsorted.
Qed.

(** C1: on a stored index, [search] succeeds with at most [k] hits, as
    many as [k] and the size of the index allow; the hits are entries of
    the index, each with its similarity to the query for score, and they
    are the [k] best: with the entries left out they make up the whole
    index, and every hit ranks before each entry left out; with [k] at
    least the size of the index nothing is left out; and the hits are in
    descending order of score, equal scores in ascending order of
    [chunk_id], every hit ranking before all the hits after it. *)
Theorem search_top_k (table : gmap string (list (IndexEntry Token)))
    (document_id : string) (entries : list (IndexEntry Token))
    (query_embedding : Embedding) (k : nat) :
  table !! document_id = Some entries →
  let ranks a b :=
    (hit_score b < hit_score a)%Q
    ∨ ((hit_score a == hit_score b)%Q
       ∧ (chunk_id (hit_chunk a) ≤ chunk_id (hit_chunk b))%nat) in
  ∃ hits left_out,
    search similarity table document_id query_embedding k = inr hits
    ∧ (length hits ≤ k)%nat
    ∧ length hits = Nat.min k (length entries)
    ∧ hits ++ left_out ≡ₚ score_entry similarity query_embedding <$> entries
    ∧ (∀ hit, hit ∈ hits →
         ∃ e, e ∈ entries ∧ hit_chunk hit = entry_chunk e
              ∧ hit_score hit = similarity query_embedding (entry_embedding e))
    ∧ (∀ hit other, hit ∈ hits → other ∈ left_out → ranks hit other)
    ∧ ((length entries ≤ k)%nat →
         left_out = []
         ∧ hits ≡ₚ score_entry similarity query_embedding <$> entries)
    ∧ StronglySorted ranks hits.
Proof.
  intros Hindex ranks. unfold search. rewrite Hindex.
  set (scored := score_entry similarity query_embedding <$> entries).
  set (sorted := merge_sort ranks_before scored).
  assert (Hperm : sorted ≡ₚ scored) by apply merge_sort_Permutation.
  assert (Hsorted : StronglySorted ranks_before sorted)
    by apply (StronglySorted_merge_sort ranks_before).
  assert (Hlen : length sorted = length entries).
  { rewrite Hperm. unfold scored. by rewrite length_fmap. }
  exists (take k sorted), (drop k sorted). split; [done |].
  split; [rewrite length_take; lia |].
  split; [rewrite length_take, Hlen; done |].
  split; [by rewrite take_drop |].
  split.
  { intros hit Hin. apply subseteq_take in Hin. rewrite Hperm in Hin.
    unfold scored in Hin.
    apply list_elem_of_fmap in Hin as (e & -> & He). eauto. }
  split.
  { intros hit other Hhit Hother. apply ranks_before_spec.
    rewrite <- (take_drop k sorted) in Hsorted.
    exact (StronglySorted_app_1_elem_of _ _ _ _ _ Hsorted Hhit Hother). }
  split.
  { intros Hall. rewrite drop_ge, take_ge by lia. done. }
  eapply StronglySorted_weaken; [| apply StronglySorted_take, Hsorted].
  intros a b Hab. by apply ranks_before_spec.
Qed.

End VectorIndex.

(** Two entries score 1 against the query and one scores 0: the tie is
    broken by [chunk_id], and the cut at 2 drops the lowest score. *)
Example search_sample :
  ∃ hits, search dot sample_table "d1" [1%Q; 0%Q] 2 = inr hits
    ∧ chunk_id <$> (hit_chunk <$> hits) = [0; 2]%nat.
Proof. eexists. split; [reflexivity |]. by vm_compute. Qed.

Example search_without_index :
  search dot sample_table "d2" [1%Q; 0%Q] 2 = inl IndexNotFoundError.
Proof. reflexivity. Qed.

Lemma search_top_k_witness :
  ∃ hits, search dot sample_table "d1" [1%Q; 0%Q] 2 = inr hits
    ∧ length hits = 2%nat
    ∧ StronglySorted
        (λ a b, (hit_score b < hit_score a)%Q
                ∨ ((hit_score a == hit_score b)%Q
                   ∧ (chunk_id (hit_chunk a) ≤ chunk_id (hit_chunk b))%nat))
        hits.
Proof.
  destruct (search_top_k dot sample_table "d1" sample_entries [1%Q; 0%Q] 2)
    as (hits & left_out & Hrun & _ & Hlen & _ & _ & _ & _ & Hsorted).
  - apply lookup_singleton_eq.
  - exists hits. split; [exact Hrun |]. split; [| exact Hsorted].
    rewrite Hlen. by vm_compute.
Defined.

End RagProps.
